(** * SummarifyAI: the summarisation core of [pdf_summarizer.py]

    A shallow embedding of the text normaliser, the regex tokenisers, the
    stopword provider and the two summarisers, with the properties the
    specification states about them.

    Conventions.
    - A Python [str] is a list of code points.  Code points are modelled by
      [ascii] (0..255), classified as CPython classifies the Latin-1 range
      ([str.isspace], [str.isalnum], [str.lower], and the [\s], [\w] classes
      of [re] on [str] patterns, which use the same tables).
    - A Python [int] is a [Z]; [len] is [Z.of_nat (length _)].
    - A Python [float] is an IEEE-754 binary64 value, [spec_float] with the
      operations of [SpecFloat] at precision 53; comparisons between an
      [int] and a [float] are exact, as in CPython.  The only [int]s turned
      into [float]s are lengths and the word target; CPython refuses one of
      magnitude 2^1024 or more with an [OverflowError], where the model
      gives an infinity.
    - A Python [dict] (and [Counter]) is an insertion-ordered association
      list; a [set] that is only tested for membership or counted is a
      duplicate-free list.
    - The optional NLTK backend is a parameter: its three entry points may
      return a value or raise. *)

From Stdlib Require Import ZArith Ascii String List Lia Bool.
From Stdlib Require Import SpecFloat PrimFloat FloatOps.
From stdpp Require Import base list strings.
Import ListNotations.

Local Open Scope Z_scope.
Local Set Warnings "-inexact-float".

(** ** Code points and strings *)

Abbreviation str := (list ascii).

Definition py (s : string) : str := list_ascii_of_string s.

Definition ord (c : ascii) : Z := Z.of_N (N_of_ascii c).

Definition in_range (lo hi : Z) (c : ascii) : bool :=
  (lo <=? ord c) && (ord c <=? hi).

(** [str.isspace] on one code point, and the class [\s]. *)
Definition isspace (c : ascii) : bool :=
  in_range 9 13 c || in_range 28 32 c || (ord c =? 133) || (ord c =? 160).

(** The class [[A-Z]]. *)
Definition is_upper_az (c : ascii) : bool := in_range 65 90 c.

(** The class [[a-zA-Z]]. *)
Definition is_letter (c : ascii) : bool :=
  in_range 65 90 c || in_range 97 122 c.

(** [str.isalnum] on one code point: letters, digits and the other
    alphabetic or numeric code points below 256. *)
Definition isalnum_char (c : ascii) : bool :=
  is_letter c || in_range 48 57 c
  || (ord c =? 170) || (ord c =? 178) || (ord c =? 179) || (ord c =? 181)
  || (ord c =? 185) || (ord c =? 186) || in_range 188 190 c
  || in_range 192 214 c || in_range 216 246 c || in_range 248 255 c.

(** The class [\w]. *)
Definition is_word (c : ascii) : bool := isalnum_char c || (ord c =? 95).

(** [str.lower] on one code point. *)
Definition lower_char (c : ascii) : ascii :=
  if in_range 65 90 c || in_range 192 214 c || in_range 216 222 c
  then ascii_of_N (Z.to_N (ord c + 32)) else c.

Definition lower (s : str) : str := map lower_char s.

(** [s.isalnum()]: every code point is alphanumeric and there is one. *)
Definition isalnum (s : str) : bool :=
  match s with [] => false | _ => forallb isalnum_char s end.

Definition len {A} (l : list A) : Z := Z.of_nat (length l).

(** [s.lstrip()], [s.rstrip()], [s.strip()]. *)
Fixpoint lstrip (s : str) : str :=
  match s with
  | c :: r => if isspace c then lstrip r else s
  | [] => []
  end.

Definition rstrip (s : str) : str := rev (lstrip (rev s)).

Definition strip (s : str) : str := rstrip (lstrip s).

(** [s.split()]: the maximal runs of non-whitespace code points.  [w] is the
    run being read. *)
Definition flush (w : str) : list str :=
  match w with [] => [] | _ => [w] end.

Fixpoint split_go (w : str) (s : str) : list str :=
  match s with
  | [] => flush w
  | c :: r => if isspace c then flush w ++ split_go [] r
              else split_go (w ++ [c]) r
  end.

Definition split (s : str) : list str := split_go [] s.

(** [sep.join(parts)]. *)
Fixpoint join (sep : str) (parts : list str) : str :=
  match parts with
  | [] => []
  | [p] => p
  | p :: rest => p ++ sep ++ join sep rest
  end.

(** Python slice [l[:k]]; a negative [k] counts from the end. *)
Definition slice_to {A} (l : list A) (k : Z) : list A :=
  if 0 <=? k then take (Z.to_nat k) l
  else take (Z.to_nat (len l + k)) l.

(** ** Text normaliser *)

(** [re.sub(r'\s+', ' ', text)]: the scanner replaces each maximal run of
    whitespace by one space; [in_run] tells that the run was already
    replaced. *)
Fixpoint sub_ws_runs (in_run : bool) (s : str) : str :=
  match s with
  | [] => []
  | c :: r =>
      if isspace c
      then (if in_run then sub_ws_runs true r
            else " "%char :: sub_ws_runs true r)
      else c :: sub_ws_runs false r
  end.

(** The class [[\w\s.,!?;:\-()]], whose complement is deleted. *)
Definition kept_punct : str := py ".,!?;:-()".

Definition is_kept (c : ascii) : bool :=
  is_word c || isspace c || existsb (Ascii.eqb c) kept_punct.

Definition clean_text (text : str) : str :=
  let text := sub_ws_runs false text in
  let text := List.filter is_kept text in
  strip text.

(** ** Simple tokenisers *)

Definition is_end_punct (c : option ascii) : bool :=
  match c with
  | Some c => existsb (Ascii.eqb c) (py ".!?")
  | None => false
  end.

(** The lookahead [(?=[A-Z])] taken after the whole whitespace run: a
    shorter run is followed by whitespace, so backtracking never helps. *)
Definition upper_after_ws (s : str) : bool :=
  match lstrip s with
  | c :: _ => is_upper_az c
  | [] => false
  end.

(** [re.split(r'(?<=[.!?])\s+(?=[A-Z])', text)].  [prev] is the code point
    before the scanner, [skipping] tells that a separator is being consumed,
    [cur] is the piece being read. *)
Fixpoint re_split_go (prev : option ascii) (skipping : bool) (cur : str)
    (s : str) : list str :=
  match s with
  | [] => [cur]
  | c :: r =>
      if isspace c then
        if skipping then re_split_go (Some c) true cur r
        else if is_end_punct prev && upper_after_ws r
             then cur :: re_split_go (Some c) true [] r
             else re_split_go (Some c) false (cur ++ [c]) r
      else re_split_go (Some c) false (cur ++ [c]) r
  end.

Definition re_split_sentences (text : str) : list str :=
  re_split_go None false [] text.

Definition simple_sent_tokenize (text : str) : list str :=
  let sentences := re_split_sentences text in
  map strip
    (List.filter
       (fun s => negb (Z.eqb (len (strip s)) 0) && (10 <? len (strip s)))
       sentences).

Definition is_word_opt (c : option ascii) : bool :=
  match c with Some c => is_word c | None => false end.

(** [\b] between the code point [prev] and the head of [s]. *)
Definition at_boundary (prev : option ascii) (s : str) : bool :=
  xorb (is_word_opt prev) (is_word_opt (head s)).

(** The end of [[a-zA-Z]{2,}\b] after [n] letters, read in reverse in
    [acc]. *)
Definition close_match (acc : str) (n : nat) (s : str) : option str :=
  if (2 <=? n)%nat && at_boundary (head acc) s then Some (rev acc) else None.

(** [[a-zA-Z]{2,}\b], greedy: one more letter is tried first, and the
    matcher backtracks to a shorter run when the longer one fails. *)
Fixpoint match_letters (acc : str) (n : nat) (s : str) : option str :=
  match s with
  | c :: r =>
      if is_letter c then
        match match_letters (c :: acc) (S n) r with
        | Some w => Some w
        | None => close_match acc n s
        end
      else close_match acc n s
  | [] => close_match acc n s
  end.

Definition match_word (prev : option ascii) (s : str) : option str :=
  if at_boundary prev s then match_letters [] 0%nat s else None.

(** [re.findall(r'\b[a-zA-Z]{2,}\b', s)]: leftmost matches, the scan
    resuming after each match ([skip] code points of it are still to be
    passed). *)
Fixpoint findall_go (skip : nat) (prev : option ascii) (s : str)
    : list str :=
  match s with
  | [] => []
  | c :: r =>
      match skip with
      | S k => findall_go k (Some c) r
      | O =>
          match match_word prev s with
          | Some w => w :: findall_go (length w - 1) (Some c) r
          | None => findall_go 0 (Some c) r
          end
      end
  end.

Definition re_findall_words (s : str) : list str := findall_go 0 None s.

Definition simple_word_tokenize (text : str) : list str :=
  re_findall_words (lower text).

(** ** Stopwords *)

Definition BASIC_STOPWORDS : list str :=
  map py
    ["i"; "me"; "my"; "myself"; "we"; "our"; "ours"; "ourselves"; "you";
     "your"; "yours"; "yourself"; "yourselves"; "he"; "him"; "his";
     "himself"; "she"; "her"; "hers"; "herself"; "it"; "its"; "itself";
     "they"; "them"; "their"; "theirs"; "themselves"; "what"; "which";
     "who"; "whom"; "this"; "that"; "these"; "those"; "am"; "is"; "are";
     "was"; "were"; "be"; "been"; "being"; "have"; "has"; "had"; "having";
     "do"; "does"; "did"; "doing"; "a"; "an"; "the"; "and"; "but"; "if";
     "or"; "because"; "as"; "until"; "while"; "of"; "at"; "by"; "for";
     "with"; "through"; "during"; "before"; "after"; "above"; "below";
     "up"; "down"; "in"; "out"; "on"; "off"; "over"; "under"; "again";
     "further"; "then"; "once"; "here"; "there"; "when"; "where"; "why";
     "how"; "all"; "any"; "both"; "each"; "few"; "more"; "most"; "other";
     "some"; "such"; "no"; "nor"; "not"; "only"; "own"; "same"; "so";
     "than"; "too"; "very"; "can"; "will"; "just"; "should"; "now";
     "could"; "would"; "may"; "might"; "must"; "shall"]%string.

(** ** The optional NLTK backend

    Each entry point returns [None] when the call raises. *)

Record Nltk := {
  sent_tokenize : str -> option (list str);
  word_tokenize : str -> option (list str);
  stopwords_words_english : option (list str)
}.

Section Tokenizers.

(** [NLTK_AVAILABLE] and the imported module: [None] when the import or
    the set-up failed. *)
Variable nltk : option Nltk.

Definition tokenize_sentences (text : str) : list str :=
  match nltk with
  | Some backend =>
      match sent_tokenize backend text with
      | Some sentences => sentences
      | None => simple_sent_tokenize text
      end
  | None => simple_sent_tokenize text
  end.

Definition tokenize_words (text : str) : list str :=
  match nltk with
  | Some backend =>
      match word_tokenize backend (lower text) with
      | Some words => words
      | None => simple_word_tokenize text
      end
  | None => simple_word_tokenize text
  end.

Definition get_stopwords : list str :=
  match nltk with
  | Some backend =>
      match stopwords_words_english backend with
      | Some words => remove_dups words
      | None => BASIC_STOPWORDS
      end
  | None => BASIC_STOPWORDS
  end.

End Tokenizers.

(** ** Floats *)

Abbreviation float := spec_float.

(** The literals of the source, parsed as CPython parses them (to the
    nearest binary64). *)
Definition py_0_3 : float := Eval vm_compute in Prim2SF 0.3%float.
Definition py_0_7 : float := Eval vm_compute in Prim2SF 0.7%float.
Definition py_0_8 : float := Eval vm_compute in Prim2SF 0.8%float.
Definition py_1_0 : float := Eval vm_compute in Prim2SF 1.0%float.
Definition py_1_1 : float := Eval vm_compute in Prim2SF 1.1%float.
Definition py_1_2 : float := Eval vm_compute in Prim2SF 1.2%float.

(** The binary64 nearest to an integer, ties to even; an infinity when the
    integer is beyond the range. *)
Definition nearest_float (n : Z) : float := binary_normalize prec emax n 0 false.

Definition fmul (x y : float) : float := SFmul prec emax x y.

(** [len(x) * f]: the length is converted first.  A length is below
    [2^63], so the conversion is the rounding itself and cannot fail. *)
Definition nearest_mul_float (n : Z) (f : float) : float := fmul (nearest_float n) f.

(** [a / b] on two [int]s: the exact quotient rounded once. *)
Definition int_as_exact (n : Z) : float :=
  match n with
  | Z0 => S754_zero false
  | Zpos p => S754_finite false p 0
  | Zneg p => S754_finite true p 0
  end.

Definition int_true_div (a b : Z) : float :=
  SFdiv prec emax (int_as_exact a) (int_as_exact b).

(** [i < f] and [f < i] for an [int] and a [float]: CPython compares the
    exact values. *)
Definition int_lt_float (i : Z) (f : float) : bool :=
  match f with
  | S754_zero _ => i <? 0
  | S754_infinity s => negb s
  | S754_nan => false
  | S754_finite s m e =>
      let m := if s then Z.neg m else Z.pos m in
      if 0 <=? e then i <? m * 2 ^ e else i * 2 ^ (- e) <? m
  end.

Definition float_lt_int (f : float) (i : Z) : bool :=
  match f with
  | S754_zero _ => 0 <? i
  | S754_infinity s => s
  | S754_nan => false
  | S754_finite s m e =>
      let m := if s then Z.neg m else Z.pos m in
      if 0 <=? e then m * 2 ^ e <? i else m <? i * 2 ^ (- e)
  end.

Definition float_ltb (x y : float) : bool := SFltb x y.
Definition float_eqb (x y : float) : bool := SFeqb x y.

(** ** Dictionaries, sorting, selection *)

Section Dict.
Context {K V : Type} `{EqDecision K}.

Fixpoint dict_get (d : list (K * V)) (k : K) : option V :=
  match d with
  | [] => None
  | (k', v') :: rest => if decide (k' = k) then Some v' else dict_get rest k
  end.

(** [d[k] = v]: an existing key keeps its place. *)
Fixpoint dict_set (d : list (K * V)) (k : K) (v : V) : list (K * V) :=
  match d with
  | [] => [(k, v)]
  | (k', v') :: rest =>
      if decide (k' = k) then (k, v) :: rest
      else (k', v') :: dict_set rest k v
  end.

Definition dict_keys (d : list (K * V)) : list K := map fst d.
End Dict.

Section Sorting.
Context {A : Type} (lt : A -> A -> bool).

(** [x] is put before the first element that is not greater: a stable
    sort into descending order, as [sorted(..., reverse=True)] and
    [list.sort(reverse=True)] give. *)
Fixpoint insert_desc (x : A) (l : list A) : list A :=
  match l with
  | [] => [x]
  | y :: r => if lt x y then y :: insert_desc x r else x :: l
  end.

Fixpoint sorted_desc (l : list A) : list A :=
  match l with
  | [] => []
  | x :: r => insert_desc x (sorted_desc r)
  end.

(** [heapq.nlargest(n, l, key)], which is [sorted(l, key, reverse=True)[:n]];
    no element for [n <= 0]. *)
Definition nlargest (n : Z) (l : list A) : list A :=
  take (Z.to_nat n) (sorted_desc l).
End Sorting.

(** [s < t] on strings: lexicographic on code points. *)
Fixpoint str_ltb (s t : str) : bool :=
  match s, t with
  | _, [] => false
  | [], _ :: _ => true
  | c :: s', d :: t' =>
      if ord c <? ord d then true
      else if ord d <? ord c then false
      else str_ltb s' t'
  end.

(** [<] on the tuples [(score, sentence, length)]: the first component that
    differs decides. *)
Definition tuple_ltb (x y : float * str * Z) : bool :=
  let '(sx, tx, lx) := x in
  let '(sy, ty, ly) := y in
  if negb (float_eqb sx sy) then float_ltb sx sy
  else if negb (bool_decide (tx = ty)) then str_ltb tx ty
  else lx <? ly.

(** ** Failures *)

(** What a caller may pass as [text]. *)
Inductive pyobj :=
  | PyStr (s : str)
  | PyNone.

Inductive exn :=
  | TypeError (msg : str)
  | OverflowError (msg : str).

(** [str(e)]. *)
Definition exn_str (e : exn) : str :=
  match e with
  | TypeError msg => msg
  | OverflowError msg => msg
  end.

Inductive outcome (A : Type) :=
  | Return (a : A)
  | Raise (e : exn).
Arguments Return {A} a.
Arguments Raise {A} e.

(** [float(n)] as CPython converts an [int] operand: it raises when the
    nearest binary64 is not finite. *)
Definition float_of_int (n : Z) : outcome float :=
  match nearest_float n with
  | S754_infinity _ =>
      Raise (OverflowError (py "int too large to convert to float"))
  | x => Return x
  end.

(** [n * f] for an [int] and a [float]: the [int] is converted first. *)
Definition int_mul_float (n : Z) (f : float) : outcome float :=
  match float_of_int n with
  | Raise e => Raise e
  | Return x => Return (fmul x f)
  end.

(** [re.sub] on its subject: anything but a string raises. *)
Definition expect_str (text : pyobj) : outcome str :=
  match text with
  | PyStr s => Return s
  | PyNone =>
      Raise (TypeError (py "expected string or bytes-like object, got 'NoneType'"))
  end.

(** [try: ... except Exception as e: return f"Error during summarization: {str(e)}"]. *)
Definition error_prefix : str := py "Error during summarization: ".

Definition soft_fail (body : outcome str) : str :=
  match body with
  | Return s => s
  | Raise e => error_prefix ++ exn_str e
  end.

(** ** The two summarisers *)

Section Summarizers.

Variable nltk : option Nltk.

(** [word not in stop_words and len(word) > 2 and word.isalnum()]. *)
Definition qualifies (stop_words : list str) (word : str) : bool :=
  negb (bool_decide (word ∈ stop_words)) && (2 <? len word) && isalnum word.

(** *** Extractive *)

(** The inner loop that fills [word_freq]. *)
Definition count_words (stop_words : list str)
    (word_freq : list (str * Z)) (words : list str) : list (str * Z) :=
  fold_left
    (fun word_freq word =>
       if qualifies stop_words word
       then dict_set word_freq word (default 0 (dict_get word_freq word) + 1)
       else word_freq)
    words word_freq.

Definition build_word_freq (stop_words : list str) (sentences : list str)
    : list (str * Z) :=
  fold_left
    (fun word_freq sentence =>
       count_words stop_words word_freq (tokenize_words nltk sentence))
    sentences [].

(** The inner loop that computes [(score, word_count)] of a sentence. *)
Definition score_words (word_freq : list (str * Z)) (words : list str)
    : Z * Z :=
  fold_left
    (fun '(score, word_count) word =>
       match dict_get word_freq word with
       | Some f => (score + f, word_count + 1)
       | None => (score, word_count)
       end)
    words (0, 0).

(** [position_bonus] for the sentence of index [i] among [n]. *)
Definition position_bonus (i n : Z) : float :=
  if int_lt_float i (nearest_mul_float n py_0_3) then py_1_2
  else if float_lt_int (nearest_mul_float n py_0_7) i then py_1_1
  else py_1_0.

(** The loop over [enumerate(sentences)] that fills [sentence_scores];
    [n] is [len(sentences)] and [i] the index of the head of the list. *)
Fixpoint score_sentences (word_freq : list (str * Z)) (n i : Z)
    (sentences : list str) (sentence_scores : list (str * float))
    : list (str * float) :=
  match sentences with
  | [] => sentence_scores
  | sentence :: rest =>
      let '(score, word_count) :=
        score_words word_freq (tokenize_words nltk sentence) in
      let sentence_scores :=
        if 0 <? word_count then
          let avg_score := int_true_div score word_count in
          dict_set sentence_scores sentence
            (fmul avg_score (position_bonus i n))
        else sentence_scores in
      score_sentences word_freq n (i + 1) rest sentence_scores
  end.

Definition sentence_scores_of (sentences : list str) : list (str * float) :=
  let stop_words := get_stopwords nltk in
  let word_freq := build_word_freq stop_words sentences in
  score_sentences word_freq (len sentences) 0 sentences [].

(** [heapq.nlargest(num_sentences, sentence_scores, key=sentence_scores.get)]. *)
Definition top_sentences (num_sentences : Z)
    (sentence_scores : list (str * float)) : list str :=
  dict_keys
    (nlargest (fun x y : str * float => float_ltb x.2 y.2)
       num_sentences sentence_scores).

(** The sentences that are joined into the summary. *)
Definition summary_sentences (sentences : list str) (num_sentences : Z)
    : list str :=
  if len sentences <=? num_sentences then sentences
  else
    let top := top_sentences num_sentences (sentence_scores_of sentences) in
    filter (fun sentence => sentence ∈ top) sentences.

Definition extractive_body (text : pyobj) (num_sentences : Z)
    : outcome str :=
  match expect_str text with
  | Raise e => Raise e
  | Return text =>
      let text := clean_text text in
      let sentences := tokenize_sentences nltk text in
      Return (join (py " ") (summary_sentences sentences num_sentences))
  end.

Definition extractive_summarize (text : pyobj) (num_sentences : Z) : str :=
  soft_fail (extractive_body text num_sentences).

(** *** Budgeted ("abstractive") *)

(** [Counter(words)]: counts in order of first occurrence. *)
Definition Counter (words : list str) : list (str * Z) :=
  fold_left
    (fun c word => dict_set c word (default 0 (dict_get c word) + 1))
    words [].

(** [c.most_common(n)]. *)
Definition most_common (n : Z) (c : list (str * Z)) : list (str * Z) :=
  nlargest (fun x y : str * Z => x.2 <? y.2) n c.

Definition important_words_of (text : str) : list str :=
  let stop_words := get_stopwords nltk in
  let words := tokenize_words nltk text in
  let filtered_words := List.filter (qualifies stop_words) words in
  let word_freq := Counter filtered_words in
  dict_keys (most_common 30 word_freq).

(** One round of the loop that builds [scored_sentences]. *)
Definition score_candidate (important_words : list str) (sentence : str)
    : list (float * str * Z) :=
  let sentence_words := remove_dups (tokenize_words nltk sentence) in
  let importance_score :=
    len (filter (fun w => w ∈ important_words) sentence_words) in
  let sentence_length := len (split sentence) in
  if (5 <=? sentence_length) && (sentence_length <=? 50)
     && (0 <? importance_score)
  then [(int_true_div importance_score sentence_length,
         sentence, sentence_length)]
  else [].

Definition scored_sentences_of (text : str) (sentences : list str)
    : list (float * str * Z) :=
  let important_words := important_words_of text in
  sorted_desc tuple_ltb
    (flat_map (score_candidate important_words) sentences).

(** [" ".join(sentence_words[:words_remaining-1]) + "..."]. *)
Definition truncated (sentence : str) (words_remaining : Z) : str :=
  let sentence_words := split sentence in
  join (py " ") (slice_to sentence_words (words_remaining - 1)) ++ py "...".

(** The loop that builds [summary_parts]; [total_words] is the running
    total.  A [break] returns the parts collected so far; the product
    [target_length * 0.8] is evaluated only for a sentence that overflows,
    and raises when [target_length] has no finite binary64. *)
Fixpoint accumulate (target_length : Z)
    (scored_sentences : list (float * str * Z))
    (summary_parts : list str) (total_words : Z) : outcome (list str) :=
  match scored_sentences with
  | [] => Return summary_parts
  | (score, sentence, length) :: rest =>
      if total_words + length <=? target_length then
        accumulate target_length rest
          (summary_parts ++ [sentence]) (total_words + length)
      else
        match int_mul_float target_length py_0_8 with
        | Raise e => Raise e
        | Return limit =>
            if int_lt_float total_words limit then
              let words_remaining := target_length - total_words in
              if 10 <=? words_remaining then
                Return (summary_parts ++ [truncated sentence words_remaining])
              else accumulate target_length rest summary_parts total_words
            else Return summary_parts
        end
  end.

Definition abstractive_body (text : pyobj) (target_length : Z)
    : outcome str :=
  match expect_str text with
  | Raise e => Raise e
  | Return text =>
      let text := clean_text text in
      let sentences := tokenize_sentences nltk text in
      let current_length := len (split text) in
      if current_length <=? target_length then Return text
      else
        let scored_sentences := scored_sentences_of text sentences in
        match accumulate target_length scored_sentences [] 0 with
        | Raise e => Raise e
        | Return summary_parts => Return (join (py " ") summary_parts)
        end
  end.

Definition simple_abstractive_summarize (text : pyobj) (target_length : Z)
    : str :=
  soft_fail (abstractive_body text target_length).

End Summarizers.

(** ** The caller: extraction, screens and settings *)

(** [extract_text_from_pdf].  The reader may fail to open the file, and
    each [page.extract_text()] may fail or return an object; a page whose
    text is falsy ([None] or the empty string) adds nothing. *)
Definition newline : str := ["010"%char].

Definition is_truthy (page_text : pyobj) : option str :=
  match page_text with
  | PyStr (c :: s) => Some (c :: s)
  | PyStr [] => None
  | PyNone => None
  end.

Fixpoint read_pages (pages : list (outcome pyobj)) (text : str)
    : outcome str :=
  match pages with
  | [] => Return text
  | Raise e :: _ => Raise e
  | Return page_text :: rest =>
      match is_truthy page_text with
      | Some page_text => read_pages rest (text ++ page_text ++ newline)
      | None => read_pages rest text
      end
  end.

Definition extract_text_from_pdf (pdf_reader : outcome (list (outcome pyobj)))
    : option str :=
  match pdf_reader with
  | Raise _ => None
  | Return pages =>
      match read_pages pages [] with
      | Return text => Some (strip text)
      | Raise _ => None
      end
  end.

(** The three branches of [main] on the extracted text:
    [if text and len(text.strip()) > 0], [elif text is not None], [else]. *)
Inductive screen :=
  | Summarise (text : str)
  | EmptyDocument
  | CouldNotExtract.

Definition main_screen (text : option str) : screen :=
  match text with
  | Some text =>
      if negb (len text =? 0) && (0 <? len (strip text)) then Summarise text
      else EmptyDocument
  | None => CouldNotExtract
  end.

(** The bounds and the default of the two sliders of [main], and the
    reading time it displays ([//] is the floor division). *)
Definition max_sentences (sentence_count : Z) : Z :=
  Z.min 20 (Z.max 3 (sentence_count / 5)).

Definition default_sentences (sentence_count : Z) : Z :=
  Z.min 7 (max_sentences sentence_count).

Definition max_words (word_count : Z) : Z :=
  Z.min 800 (Z.max 100 (word_count / 3)).

Definition default_words (word_count : Z) : Z :=
  Z.min 250 (max_words word_count).

Definition reading_time (summary_words : Z) : Z :=
  Z.max 1 (summary_words / 200).

(** The size guard of [main]: [file_size_mb = uploaded_file.size / (1024 * 1024)]
    and [if file_size_mb > 10]. *)
Definition file_size_mb (size : Z) : float := int_true_div size (1024 * 1024).

Definition file_too_large (size : Z) : bool :=
  int_lt_float 10 (file_size_mb size).

(** * Vocabulary of the properties *)

(** A string without leading or trailing whitespace. *)
Definition trimmed (s : str) : Prop := lstrip s = s /\ rstrip s = s.

(** Two adjacent whitespace code points. *)
Fixpoint has_double_space (s : str) : bool :=
  match s with
  | c :: r =>
      match r with
      | d :: _ => (isspace c && isspace d) || has_double_space r
      | [] => false
      end
  | [] => false
  end.

(** A string as the normaliser leaves it: only kept code points, the space
    as the only whitespace, none at either end. *)
Definition only_plain_spaces (s : str) : Prop :=
  Forall (fun c => is_kept c = true /\ (isspace c = true -> c = " "%char)) s.

Definition normal_form (s : str) : Prop := only_plain_spaces s /\ trimmed s.

(** The backend finds no sentence in the empty text, or fails on it. *)
Definition no_sentence_in_empty (nltk : option Nltk) : Prop :=
  match nltk with
  | Some backend =>
      sent_tokenize backend [] = Some [] \/ sent_tokenize backend [] = None
  | None => True
  end.

(** The corpus of the backend, when the lookup returns, has a word. *)
Definition corpus_has_a_word (nltk : option Nltk) : Prop :=
  match nltk with
  | Some backend => stopwords_words_english backend <> Some []
  | None => True
  end.

Definition failing_backend : Nltk :=
  {| sent_tokenize := fun _ => None;
     word_tokenize := fun _ => None;
     stopwords_words_english := None |}.

(** The maximal runs of code points of a class; [w] is the run being read. *)
Fixpoint runs_go (p : ascii -> bool) (w : str) (s : str) : list str :=
  match s with
  | [] => flush w
  | c :: r => if p c then runs_go p (w ++ [c]) r
              else flush w ++ runs_go p [] r
  end.

Definition runs (p : ascii -> bool) (s : str) : list str := runs_go p [] s.

(** The claim as the specification words it: the maximal runs of two or
    more letters of the lowercased text. *)
Definition alpha_runs (text : str) : list str :=
  List.filter (fun w => (2 <=? length w)%nat) (runs is_letter (lower text)).

(** What the pattern selects among the maximal runs of word code points. *)
Definition letters_only (w : str) : bool :=
  forallb is_letter w && (2 <=? length w)%nat.

(** The longest prefix in a class, and what follows it. *)
Fixpoint span (p : ascii -> bool) (s : str) : str * str :=
  match s with
  | c :: r => if p c then let '(u, t) := span p r in (c :: u, t) else ([], s)
  | [] => ([], [])
  end.

Definition head_fails (p : ascii -> bool) (s : str) : Prop :=
  match s with c :: _ => p c = false | [] => True end.

(** A word as [split] returns them: not empty, no whitespace. *)
Definition wordlike (w : str) : Prop :=
  w <> [] /\ forallb (fun c => negb (isspace c)) w = true.

(** The third component of a candidate is the word count of its sentence. *)
Definition counted (x : float * str * Z) : Prop :=
  let '(_, sentence, length) := x in length = len (split sentence).

Definition word_count (parts : list str) : Z :=
  len (concat (map split parts)).

(** Three sentences of 12, 9 and 5 words, in falling order of score. *)
Definition long_sentence : str :=
  py "Alpha bravo charlie delta echo foxtrot golf hotel india juliet kilo lima.".

Definition middle_sentence : str :=
  py "Mike november oscar papa quebec romeo is on it.".

Definition short_sentence : str := py "Sierra is on it so.".

Definition budget_text : str :=
  join (py " ") [long_sentence; middle_sentence; short_sentence].

(** A sentence of 25 words. *)
Definition very_long_sentence : str :=
  py "November oscar papa quebec romeo sierra tango uniform victor whiskey xray yankee zulu apple banana cherry grape lemon mango olive peach plum berry melon kiwi.".

(** The truncation condition of the loop, for a target that has a finite
    binary64. *)
Definition may_truncate (target_length total_words : Z) : bool :=
  int_lt_float total_words (nearest_mul_float target_length py_0_8)
  && (10 <=? target_length - total_words).

(** C5 as it is stated: an overflowing sentence for which the truncation
    condition fails ends the accumulation. *)
Definition overflow_always_stops : Prop :=
  forall target_length score sentence length rest summary_parts total_words,
    target_length < total_words + length ->
    may_truncate target_length total_words = false ->
    accumulate target_length ((score, sentence, length) :: rest)
      summary_parts total_words
    = Return summary_parts.

(** A sentence with at least one token that enters the frequency map. *)
Definition has_frequency_token (nltk : option Nltk) (sentence : str) : bool :=
  existsb (qualifies (get_stopwords nltk)) (tokenize_words nltk sentence).

Definition sparse_text : str :=
  py "Cats chase mice daily. It is so on it. He is on it or so.".

Definition repeated_text : str :=
  py "Cats chase mice daily. Dogs chase cats daily. Cats chase mice daily. Birds sing songs daily.".

(** C6 as it is stated, for the count: more sentences than asked for give
    exactly the number asked for. *)
Definition exactly_as_many_as_requested : Prop :=
  forall nltk text num_sentences,
    1 <= num_sentences ->
    let sentences := tokenize_sentences nltk (clean_text text) in
    num_sentences < len sentences ->
    len (summary_sentences nltk sentences num_sentences) = num_sentences.

(** The two tests of the code: [i < len(sentences) * 0.3] and
    [i > len(sentences) * 0.7], in binary64. *)
Definition in_first_30 (i n : Z) : bool :=
  int_lt_float i (nearest_mul_float n py_0_3).

Definition in_last_30 (i n : Z) : bool :=
  float_lt_int (nearest_mul_float n py_0_7) i.

(** The multiplier as the specification words it: the first 30% and the
    last 30% of the indices, taken exactly, and each window that holds the
    index multiplies the bonus, one after the other. *)
Definition cumulative_bonus (i n : Z) : float :=
  let bonus := py_1_0 in
  let bonus := if 10 * i <? 3 * n then fmul bonus py_1_2 else bonus in
  let bonus := if 7 * n <? 10 * i then fmul bonus py_1_1 else bonus in
  bonus.

(** The same with the last window read as the last 30% of the indices,
    the index at exactly 70% included. *)
Definition cumulative_bonus_from_70 (i n : Z) : float :=
  let bonus := py_1_0 in
  let bonus := if 10 * i <? 3 * n then fmul bonus py_1_2 else bonus in
  let bonus := if 7 * n <=? 10 * i then fmul bonus py_1_1 else bonus in
  bonus.

(** C3 as it is stated: the multiplier of the code is the cumulative one,
    whatever the number of sentences. *)
Definition bonus_is_cumulative : Prop :=
  forall (sentences : list str) (i : Z),
    position_bonus i (len sentences) = cumulative_bonus i (len sentences).

(** [x] occurs in [t] as a run of consecutive code points. *)
Definition substring_of (x t : str) : Prop := exists a b, t = a ++ x ++ b.

(** The code points of a list of strings, each counted with one separator. *)
Definition spread (l : list str) : nat :=
  fold_right (fun x n => (length x + 1 + n)%nat) 0%nat l.

(** The class [[a-z]]. *)
Definition is_lower_az (c : ascii) : bool := in_range 97 122 c.

(** How many times [w] occurs in [l]. *)
Definition occurrences (w : str) (l : list str) : Z :=
  len (filter (fun x => x = w) l).

(** The tokens of all the sentences, in order. *)
Definition all_tokens (nltk : option Nltk) (sentences : list str) : list str :=
  flat_map (tokenize_words nltk) sentences.

(** No element is smaller than one that precedes it. *)
Fixpoint descending {A} (lt : A -> A -> bool) (l : list A) : Prop :=
  match l with
  | [] => True
  | x :: r => Forall (fun y => lt x y = false) r /\ descending lt r
  end.

(** A word that the budgeted summariser counts: a token of the text that is
    no stopword, has more than 2 code points and is alphanumeric. *)
Definition candidate_word (nltk : option Nltk) (text : str) (w : str) : Prop :=
  qualifies (get_stopwords nltk) w = true /\ w ∈ tokenize_words nltk text.

(** What a page adds to the extracted text: its text and a line feed, and
    nothing when the text is falsy or the page fails. *)
Definition page_part (page : outcome pyobj) : str :=
  match page with
  | Return (PyStr (c :: s)) => (c :: s) ++ newline
  | _ => []
  end.

(** A string of whitespace only. *)
Definition blank (s : str) : Prop := Forall (fun c => isspace c = true) s.

(** A page whose extraction returns. *)
Definition page_returns (page : outcome pyobj) : Prop :=
  exists page_text, page = Return page_text.

(** The bonus with the two thresholds taken exactly, on integers. *)
Definition exact_bonus (i n : Z) : float :=
  if 10 * i <? 3 * n then py_1_2
  else if 7 * n <? 10 * i then py_1_1
  else py_1_0.

(** The sum of a list of integers. *)
Definition sum_of (l : list Z) : Z := foldr Z.add 0 l.

(** A backend whose three entry points raise on every call. *)
Definition always_fails (backend : Nltk) : Prop :=
  (forall text, sent_tokenize backend text = None)
  /\ (forall text, word_tokenize backend text = None)
  /\ stopwords_words_english backend = None.

(** A float that is a number. *)
Definition is_number (x : float) : Prop := x <> S754_nan.

(** The place of a number in the order of the floats: the sign class, then
    the exponent and the mantissa, both negated for the negative numbers. *)
Definition float_key (x : float) : Z * Z * Z :=
  match x with
  | S754_infinity true => (-2, 0, 0)
  | S754_finite true m e => (-1, - e, Z.neg m)
  | S754_zero _ => (0, 0, 0)
  | S754_finite false m e => (1, e, Z.pos m)
  | S754_infinity false => (2, 0, 0)
  | S754_nan => (3, 0, 0)
  end.

Definition key_lt (k1 k2 : Z * Z * Z) : Prop :=
  k1.1.1 < k2.1.1
  \/ (k1.1.1 = k2.1.1
      /\ (k1.1.2 < k2.1.2 \/ (k1.1.2 = k2.1.2 /\ k1.2 < k2.2))).

(** An integer whose nearest binary64 is finite: [float(n)] returns. *)
Definition has_float (n : Z) : bool :=
  match nearest_float n with
  | S754_infinity _ => false
  | _ => true
  end.

(** The text that the summarisers return for the overflow of a conversion. *)
Definition overflow_text : str :=
  error_prefix ++ py "int too large to convert to float".

(** * Properties *)

(** ** Worked examples *)

Example clean_text_ex1 :
  clean_text (py "  Hello,   world!  It's  fine. ")
  = py "Hello, world! Its fine.".
Proof. reflexivity. Qed.

Example clean_text_ex2 : clean_text (py "a @ b") = py "a  b".
Proof. reflexivity. Qed.

Example split_ex1 : split (py "  ab  c d ") = [py "ab"; py "c"; py "d"].
Proof. reflexivity. Qed.

Example simple_word_tokenize_ex1 :
  simple_word_tokenize (py "The CAT sat, on a mat; don't x1 ab_c 42!")
  = map py ["the"; "cat"; "sat"; "on"; "mat"; "don"]%string.
Proof. reflexivity. Qed.

Example simple_sent_tokenize_ex1 :
  simple_sent_tokenize (py "Cats chase mice daily. It is e.g. fine!  Ok. Dogs bark at night")
  = map py ["Cats chase mice daily."; "It is e.g. fine!";
            "Dogs bark at night"]%string.
Proof. reflexivity. Qed.

Example float_ninety : nearest_mul_float 90 py_0_7 = Prim2SF 62.99999999999999%float.
Proof. reflexivity. Qed.

Example float_ten : nearest_mul_float 10 py_0_3 = Prim2SF 3.0%float.
Proof. reflexivity. Qed.

Example int_true_div_third : int_true_div 1 3 = Prim2SF (1 / 3)%float.
Proof. reflexivity. Qed.

Example int_true_div_exact : int_true_div 11 4 = Prim2SF 2.75%float.
Proof. reflexivity. Qed.

Example int_true_div_sixths : int_true_div 6 9 = Prim2SF (2 / 3)%float.
Proof. reflexivity. Qed.

Example sorted_desc_ex :
  sorted_desc Z.ltb [3; 1; 4; 1; 5; 9; 2; 6] = [9; 6; 5; 4; 3; 2; 1; 1].
Proof. reflexivity. Qed.

Example nlargest_stable :
  nlargest (fun x y : string * Z => x.2 <? y.2) 2
    [("a", 1); ("b", 2); ("c", 2); ("d", 2)]%string
  = [("b", 2); ("c", 2)]%string.
Proof. reflexivity. Qed.

(** ** Code points *)

Lemma is_kept_space : is_kept " "%char = true.
Proof. reflexivity. Qed.

Lemma isspace_is_kept c : isspace c = true -> is_kept c = true.
Proof. unfold is_kept. intros ->. now rewrite orb_true_r. Qed.

Lemma is_letter_is_word c : is_letter c = true -> is_word c = true.
Proof. unfold is_word, isalnum_char. intros ->. reflexivity. Qed.

(** ** Stripping *)

Lemma lstrip_idem s : lstrip (lstrip s) = lstrip s.
Proof.
  induction s as [|c r IH]; simpl; [reflexivity|].
  destruct (isspace c) eqn:E; [exact IH|]. simpl. now rewrite E.
Qed.

Lemma lstrip_snoc u c :
  isspace c = false -> lstrip (u ++ [c]) = lstrip u ++ [c].
Proof.
  intros Hc. induction u as [|d u IH]; simpl.
  - now rewrite Hc.
  - destruct (isspace d); [exact IH | reflexivity].
Qed.

Lemma lstrip_length s : (length (lstrip s) <= length s)%nat.
Proof.
  induction s as [|c r IH]; simpl; [lia|].
  destruct (isspace c); simpl; lia.
Qed.

Lemma lstrip_fixed s :
  lstrip s = s <-> match s with c :: _ => isspace c = false | [] => True end.
Proof.
  destruct s as [|c r]; simpl; [tauto|].
  destruct (isspace c) eqn:E; split; try congruence; try reflexivity.
  intros H. exfalso. pose proof (lstrip_length r) as Hl.
  rewrite H in Hl. simpl in Hl. lia.
Qed.

Lemma rstrip_idem s : rstrip (rstrip s) = rstrip s.
Proof. unfold rstrip. now rewrite rev_involutive, lstrip_idem. Qed.

Lemma rstrip_cons c s :
  isspace c = false -> rstrip (c :: s) = c :: rstrip s.
Proof.
  intros Hc. unfold rstrip. simpl.
  rewrite lstrip_snoc by assumption. now rewrite rev_app_distr.
Qed.

Lemma rstrip_fixed_snoc u c : isspace c = false -> rstrip (u ++ [c]) = u ++ [c].
Proof.
  intros Hc. unfold rstrip. rewrite rev_app_distr. simpl. rewrite Hc.
  simpl. now rewrite rev_involutive.
Qed.

Lemma lstrip_Forall (P : ascii -> Prop) s : Forall P s -> Forall P (lstrip s).
Proof.
  induction 1 as [|c r Hc Hr IH]; simpl; [constructor|].
  destruct (isspace c); [exact IH | now constructor].
Qed.

Lemma rstrip_Forall (P : ascii -> Prop) s : Forall P s -> Forall P (rstrip s).
Proof.
  intros H. unfold rstrip. apply Forall_rev, lstrip_Forall, Forall_rev, H.
Qed.

Lemma strip_trimmed s : trimmed (strip s).
Proof.
  unfold trimmed, strip. split; [|apply rstrip_idem].
  destruct (lstrip s) as [|c r] eqn:E; [reflexivity|].
  assert (Hc : isspace c = false).
  { pose proof (lstrip_idem s) as H. rewrite E in H.
    apply (proj1 (lstrip_fixed (c :: r))) in H. exact H. }
  rewrite rstrip_cons by assumption. simpl. now rewrite Hc.
Qed.

Lemma trimmed_head c r : trimmed (c :: r) -> isspace c = false.
Proof. intros [Hl _]. now apply lstrip_fixed in Hl. Qed.

Lemma trimmed_last u d : trimmed (u ++ [d]) -> isspace d = false.
Proof.
  intros [_ Hr]. destruct (isspace d) eqn:Ed; [exfalso|reflexivity].
  unfold rstrip in Hr. rewrite rev_app_distr in Hr. simpl in Hr.
  rewrite Ed in Hr. apply (f_equal (@length ascii)) in Hr.
  rewrite length_rev, length_app in Hr. simpl in Hr.
  pose proof (lstrip_length (rev u)) as Hl. rewrite length_rev in Hl. lia.
Qed.

(** ** The normaliser (C4) *)

Lemma sub_ws_runs_length b s : (length (sub_ws_runs b s) <= length s)%nat.
Proof.
  revert b. induction s as [|c r IH]; intros b; simpl; [lia|].
  pose proof (IH true). pose proof (IH false).
  destruct (isspace c); [destruct b|]; simpl; lia.
Qed.

Lemma sub_ws_runs_spaces b s :
  Forall (fun c => isspace c = true -> c = " "%char) (sub_ws_runs b s).
Proof.
  revert b. induction s as [|c r IH]; intros b; simpl; [constructor|].
  destruct (isspace c) eqn:E; [destruct b|]; try constructor; auto.
  intros H. congruence.
Qed.

Lemma sub_ws_runs_plain b s :
  only_plain_spaces s -> only_plain_spaces (sub_ws_runs b s).
Proof.
  intros H. revert b. induction H as [|c r [Hk Hs] Hr IH]; intros b; simpl;
    [constructor|].
  destruct (isspace c) eqn:E; [destruct b|].
  - apply IH.
  - constructor; [|apply IH]. split; [apply is_kept_space | reflexivity].
  - constructor; [|apply IH]. split; [exact Hk | congruence].
Qed.

Lemma sub_ws_runs_snoc b u c :
  isspace c = false -> sub_ws_runs b (u ++ [c]) = sub_ws_runs b u ++ [c].
Proof.
  intros Hc. revert b. induction u as [|d u IH]; intros b; simpl.
  - now rewrite Hc.
  - destruct (isspace d); [destruct b|]; simpl; now rewrite IH.
Qed.

Lemma sub_ws_runs_trimmed s : trimmed s -> trimmed (sub_ws_runs false s).
Proof.
  intros H. split.
  - destruct s as [|c r]; [reflexivity|]. simpl.
    rewrite (trimmed_head _ _ H). simpl. now rewrite (trimmed_head _ _ H).
  - destruct (rev s) as [|d u] eqn:E.
    + apply (f_equal (@rev ascii)) in E. rewrite rev_involutive in E.
      now subst s.
    + apply (f_equal (@rev ascii)) in E. rewrite rev_involutive in E.
      simpl in E. subst s. pose proof (trimmed_last _ _ H) as Hd.
      rewrite sub_ws_runs_snoc by assumption.
      now apply rstrip_fixed_snoc.
Qed.

Lemma filter_kept_plain s : only_plain_spaces s -> List.filter is_kept s = s.
Proof.
  induction 1 as [|c r [Hk _] Hr IH]; simpl; [reflexivity|].
  now rewrite Hk, IH.
Qed.

(** After the first pass the later passes only collapse runs of spaces. *)
Lemma clean_text_normal_form s :
  normal_form s -> clean_text s = sub_ws_runs false s.
Proof.
  intros [Hp Ht]. unfold clean_text.
  rewrite filter_kept_plain by now apply sub_ws_runs_plain.
  destruct (sub_ws_runs_trimmed s Ht) as [Hl Hr].
  unfold strip. now rewrite Hl.
Qed.

Lemma clean_text_is_normal_form x : normal_form (clean_text x).
Proof.
  split; [|apply strip_trimmed].
  unfold clean_text, strip, only_plain_spaces.
  apply rstrip_Forall, lstrip_Forall.
  pose proof (sub_ws_runs_spaces false x) as H.
  induction H as [|c r Hc Hr IH]; simpl; [constructor|].
  destruct (is_kept c) eqn:E; [constructor; auto | exact IH].
Qed.

Lemma sub_ws_runs_fixed s :
  Forall (fun c => isspace c = true -> c = " "%char) s ->
  (sub_ws_runs false s = s <-> has_double_space s = false)
  /\ (sub_ws_runs true s = s <->
      has_double_space s = false
      /\ match s with c :: _ => isspace c = false | [] => True end).
Proof.
  induction 1 as [|c r Hc Hr [IHf IHt]]; [simpl; tauto|].
  assert (Hlen : forall b, sub_ws_runs b r <> c :: r).
  { intros b E. pose proof (sub_ws_runs_length b r) as Hl.
    rewrite E in Hl. simpl in Hl. lia. }
  cbn [sub_ws_runs has_double_space].
  destruct (isspace c) eqn:E.
  - rewrite (Hc eq_refl) in *. split.
    + destruct r as [|d r']; [simpl; tauto|].
      rewrite orb_false_iff. simpl andb.
      split.
      * intros H. injection H as H. apply IHt in H. tauto.
      * intros [H1 H2]. f_equal. apply IHt. auto.
    + split; [intros H; now apply Hlen in H | intros [_ H]; discriminate].
  - simpl andb.
    assert (Hds : match r with
                  | d :: _ => false || has_double_space r
                  | [] => false
                  end = has_double_space r) by (now destruct r).
    rewrite Hds. split.
    + split; [intros H; injection H as H; now apply IHf
             | intros H; f_equal; now apply IHf].
    + split; [intros H; injection H as H; split; [now apply IHf | reflexivity]
             | intros [H _]; f_equal; now apply IHf].
Qed.

Lemma sub_ws_runs_no_double b s :
  has_double_space (sub_ws_runs b s) = false
  /\ match sub_ws_runs true s with c :: _ => isspace c = false | [] => True end.
Proof.
  revert b. induction s as [|c r IH]; intros b; [simpl; tauto|].
  cbn [sub_ws_runs]. destruct (IH true) as [Ht Hh]. destruct (IH false) as [Hf _].
  destruct (isspace c) eqn:E.
  - split; [|exact Hh]. destruct b; [exact Ht|].
    cbn [has_double_space]. destruct (sub_ws_runs true r) as [|d r'] eqn:Er;
      [reflexivity|]. now rewrite Hh, andb_false_r, Ht.
  - split; [|exact E]. cbn [has_double_space].
    destruct (sub_ws_runs false r) as [|d r'] eqn:Er; [reflexivity|].
    now rewrite E, Hf.
Qed.

(** C4, as stated, fails: a deleted code point between two spaces leaves
    two adjacent spaces, which a second pass collapses. *)
Lemma clean_text_not_idempotent :
  ~ (forall x, clean_text (clean_text x) = clean_text x).
Proof.
  intros H. specialize (H (py "a @ b")). vm_compute in H. discriminate H.
Qed.

(** C4, amended: a second pass changes the normalised text exactly when it
    holds two adjacent spaces, and it then only collapses them; the result
    of two passes is a fixed point. *)
Theorem clean_text_second_pass x :
  (clean_text (clean_text x) = clean_text x
   <-> has_double_space (clean_text x) = false)
  /\ clean_text (clean_text x) = sub_ws_runs false (clean_text x)
  /\ clean_text (clean_text (clean_text x)) = clean_text (clean_text x).
Proof.
  pose proof (clean_text_is_normal_form x) as Hn.
  pose proof (clean_text_normal_form _ Hn) as E.
  assert (Hs : Forall (fun c => isspace c = true -> c = " "%char) (clean_text x)).
  { destruct Hn as [Hp _]. eapply Forall_impl; [exact Hp|]. simpl. tauto. }
  split; [|split; [exact E|]].
  - rewrite E. apply (sub_ws_runs_fixed _ Hs).
  - pose proof (clean_text_is_normal_form (clean_text x)) as Hn2.
    rewrite (clean_text_normal_form _ Hn2).
    apply (sub_ws_runs_fixed (clean_text (clean_text x))).
    + destruct Hn2 as [Hp _]. eapply Forall_impl; [exact Hp|]. simpl. tauto.
    + rewrite E. apply sub_ws_runs_no_double.
Qed.

(** ** Whitespace-only input (C10) *)

Lemma lstrip_all_space s : Forall (fun c => isspace c = true) s -> lstrip s = [].
Proof. induction 1 as [|c r Hc Hr IH]; simpl; [|rewrite Hc]; auto. Qed.

Lemma clean_text_all_space s :
  Forall (fun c => isspace c = true) s -> clean_text s = [].
Proof.
  intros H. unfold clean_text, strip.
  rewrite lstrip_all_space; [reflexivity|].
  assert (Hs : forall b, Forall (fun c => isspace c = true) (sub_ws_runs b s)).
  { induction H as [|c r Hc Hr IH]; intros b; simpl; [constructor|].
    rewrite Hc. destruct b; [apply IH|]. constructor; [reflexivity | apply IH]. }
  specialize (Hs false).
  induction Hs as [|c r Hc Hr IH]; simpl; [constructor|].
  rewrite (isspace_is_kept _ Hc). now constructor.
Qed.

(** C10: on an empty or all-whitespace text both summarisers return the
    empty string.  The linguistic sentence splitter, when present, is taken
    to find no sentence in the empty text. *)
Theorem whitespace_only_summaries nltk text num_sentences target_length :
  Forall (fun c => isspace c = true) text ->
  no_sentence_in_empty nltk ->
  1 <= num_sentences -> 1 <= target_length ->
  extractive_summarize nltk (PyStr text) num_sentences = []
  /\ simple_abstractive_summarize nltk (PyStr text) target_length = [].
Proof.
  intros Hws Hb Hn Ht.
  unfold extractive_summarize, simple_abstractive_summarize,
    extractive_body, abstractive_body. simpl.
  rewrite (clean_text_all_space _ Hws). split.
  - assert (E : tokenize_sentences nltk [] = []).
    { unfold tokenize_sentences. destruct nltk as [b|]; [|reflexivity].
      simpl in Hb. destruct Hb as [-> | ->]; reflexivity. }
    rewrite E. unfold summary_sentences. change (len (@nil str)) with 0.
    destruct (0 <=? num_sentences) eqn:E0; [reflexivity | lia].
  - change (len (split [])) with 0.
    destruct (0 <=? target_length) eqn:E0; [reflexivity | lia].
Qed.

Lemma whitespace_only_summaries_witness :
  extractive_summarize None (PyStr (py "   ")) 3 = []
  /\ simple_abstractive_summarize None (PyStr (py "   ")) 100 = [].
Proof.
  apply (whitespace_only_summaries None (py "   ") 3 100).
  - repeat constructor.
  - exact I.
  - lia.
  - lia.
Defined.

(** ** Stopwords (C9) *)

Example BASIC_STOPWORDS_size : length BASIC_STOPWORDS = 124%nat.
Proof. reflexivity. Qed.

(** C9: whether the backend is absent, fails or answers, the provider
    returns a set with at least one word. *)
Theorem get_stopwords_nonempty nltk :
  corpus_has_a_word nltk -> get_stopwords nltk <> [].
Proof.
  unfold get_stopwords, corpus_has_a_word.
  destruct nltk as [b|]; [|discriminate].
  destruct (stopwords_words_english b) as [ws|]; [|discriminate].
  intros H E. apply H. f_equal.
  destruct ws as [|w ws]; [reflexivity|]. exfalso.
  assert (Hin : w ∈ remove_dups (w :: ws)) by (apply elem_of_remove_dups; left).
  rewrite E in Hin. inversion Hin.
Qed.

Lemma get_stopwords_nonempty_witness :
  get_stopwords None <> [] /\ get_stopwords (Some failing_backend) <> [].
Proof.
  split.
  - apply (get_stopwords_nonempty None). exact I.
  - apply (get_stopwords_nonempty (Some failing_backend)). discriminate.
Defined.

(** ** Order of the extractive summary (C2) *)

(** C2: the summary is the join of sentences taken from the tokenised text
    in their order of appearance. *)
Theorem extractive_preserves_order nltk text num_sentences :
  exists selected,
    extractive_summarize nltk (PyStr text) num_sentences
    = join (py " ") selected
    /\ selected `sublist_of` tokenize_sentences nltk (clean_text text).
Proof.
  exists (summary_sentences nltk (tokenize_sentences nltk (clean_text text))
            num_sentences).
  split; [reflexivity|].
  unfold summary_sentences.
  destruct (_ <=? _); [reflexivity | apply sublist_filter].
Qed.

(** ** Simple word tokenisation (C8) *)

Lemma span_spec p s :
  s = (span p s).1 ++ (span p s).2
  /\ forallb p (span p s).1 = true
  /\ head_fails p (span p s).2.
Proof.
  induction s as [|c r IH]; simpl; [auto|].
  destruct (p c) eqn:E; [|simpl; auto].
  destruct (span p r) as [u t]. simpl in *.
  destruct IH as (-> & Hu & Ht). rewrite E. auto.
Qed.

Lemma span_unique p u t :
  forallb p u = true -> head_fails p t -> span p (u ++ t) = (u, t).
Proof.
  intros Hu Ht. induction u as [|c u IH]; simpl in *.
  - destruct t as [|d t]; simpl in *; [reflexivity | now rewrite Ht].
  - apply andb_true_iff in Hu as [-> Hu]. now rewrite (IH Hu).
Qed.

Lemma runs_go_prefix p w u t :
  forallb p u = true -> runs_go p w (u ++ t) = runs_go p (w ++ u) t.
Proof.
  revert w. induction u as [|c u IH]; intros w Hu; simpl in *.
  - now rewrite app_nil_r.
  - apply andb_true_iff in Hu as [-> Hu]. rewrite (IH _ Hu).
    now rewrite <- app_assoc.
Qed.

Lemma runs_go_after p w t :
  head_fails p t -> runs_go p w t = flush w ++ runs p t.
Proof.
  destruct t as [|d t]; simpl; intros H.
  - now rewrite app_nil_r.
  - unfold runs. simpl. now rewrite H.
Qed.

(** The runs of a text that begins with a non-empty run [u]. *)
Lemma runs_cons_run p c u t :
  forallb p (c :: u) = true -> head_fails p t ->
  runs p ((c :: u) ++ t) = (c :: u) :: runs p t.
Proof.
  intros Hu Ht. unfold runs at 1.
  rewrite (runs_go_prefix p [] (c :: u) t Hu), runs_go_after by assumption.
  reflexivity.
Qed.

Lemma runs_skip p c r : p c = false -> runs p (c :: r) = runs p r.
Proof. intros H. unfold runs. simpl. now rewrite H. Qed.

(** The matcher: it reads the longest run of letters and closes there; no
    shorter run can close, since a letter follows it. *)
Lemma match_letters_spec s acc n :
  forallb is_letter acc = true -> n = length acc ->
  match_letters acc n s
  = close_match (rev (span is_letter s).1 ++ acc)
      (length (span is_letter s).1 + n) (span is_letter s).2.
Proof.
  revert acc n. induction s as [|c r IH]; intros acc n Hacc Hn; simpl;
    [reflexivity|].
  destruct (is_letter c) eqn:E; [|reflexivity].
  rewrite (IH (c :: acc) (S n)); [|simpl; now rewrite E|simpl; now rewrite Hn].
  destruct (span is_letter r) as [u t]. simpl.
  rewrite <- app_assoc. simpl. rewrite Nat.add_succ_r.
  destruct (close_match _ _ _) eqn:Ec; [reflexivity|].
  unfold close_match. destruct acc as [|a acc]; simpl in *.
  - now subst n.
  - apply andb_true_iff in Hacc as [Ha _]. unfold at_boundary. simpl.
    rewrite (is_letter_is_word _ Ha), (is_letter_is_word _ E).
    simpl. now rewrite andb_false_r.
Qed.

Lemma head_rev_snoc (u : str) c : head (rev (u ++ [c])) = Some c.
Proof. now rewrite rev_app_distr. Qed.

Lemma snoc_cases (v : str) : v = [] \/ exists u d, v = u ++ [d].
Proof.
  destruct (rev v) as [|d u] eqn:E;
    apply (f_equal (@rev ascii)) in E; rewrite rev_involutive in E.
  - now left.
  - right. exists (rev u), d. exact E.
Qed.

(** At the start of a run of word code points [w] followed by [t], the
    pattern matches exactly when the run is made of two letters or more. *)
Lemma match_word_at_run prev c w t :
  is_word_opt prev = false ->
  forallb is_word (c :: w) = true -> head_fails is_word t ->
  match_word prev ((c :: w) ++ t)
  = if letters_only (c :: w) then Some (c :: w) else None.
Proof.
  intros Hprev Hw Ht. unfold match_word, at_boundary.
  assert (Hc : is_word c = true) by (simpl in Hw; now apply andb_true_iff in Hw).
  change (head ((c :: w) ++ t)) with (Some c). simpl is_word_opt.
  rewrite Hprev, Hc. simpl xorb. cbv iota.
  rewrite match_letters_spec by reflexivity.
  rewrite app_nil_r, Nat.add_0_r.
  destruct (span_spec is_letter (c :: w)) as (Es & Hl & Hr).
  destruct (span is_letter (c :: w)) as [l r] eqn:Esp. cbn [fst snd] in *.
  unfold letters_only. rewrite Es in *. clear Esp.
  destruct r as [|x r].
  - (* the run is made of letters: the matcher reads all of it *)
    rewrite app_nil_r in *. rewrite Hl, andb_true_l.
    assert (Ht' : head_fails is_letter t).
    { destruct t as [|d t]; simpl in *; [exact I|].
      destruct (is_letter d) eqn:Ed; [|reflexivity].
      apply is_letter_is_word in Ed. congruence. }
    rewrite (span_unique is_letter l t Hl Ht'). cbn [fst snd].
    unfold close_match.
    destruct (2 <=? length l)%nat eqn:E2; [|reflexivity]. rewrite andb_true_l.
    destruct (snoc_cases l) as [-> | (u & d & ->)]; [discriminate E2|].
    unfold at_boundary. rewrite head_rev_snoc. simpl is_word_opt.
    rewrite forallb_app in Hl. apply andb_true_iff in Hl as [_ Hd].
    simpl in Hd. apply andb_true_iff in Hd as [Hd _].
    rewrite (is_letter_is_word _ Hd).
    assert (Eh : is_word_opt (head t) = false).
    { destruct t as [|y t]; [reflexivity | exact Ht]. }
    rewrite Eh. simpl. now rewrite rev_involutive.
  - (* a word code point that is no letter stops the matcher inside the run *)
    simpl in Hr.
    assert (Eall : forallb is_letter (l ++ x :: r) = false).
    { rewrite forallb_app. simpl. rewrite Hr. now rewrite andb_false_r. }
    rewrite Eall, andb_false_l.
    assert (Hx : is_word x = true).
    { rewrite forallb_app in Hw. apply andb_true_iff in Hw as [_ Hw].
      simpl in Hw. now apply andb_true_iff in Hw as [Hw _]. }
    rewrite <- app_assoc.
    rewrite (span_unique is_letter l ((x :: r) ++ t) Hl Hr). cbn [fst snd].
    unfold close_match.
    destruct (2 <=? length l)%nat eqn:E2; [|reflexivity]. rewrite andb_true_l.
    destruct (snoc_cases l) as [-> | (u & d & ->)]; [discriminate E2|].
    unfold at_boundary. rewrite head_rev_snoc. simpl.
    rewrite forallb_app in Hl. apply andb_true_iff in Hl as [_ Hd].
    simpl in Hd. apply andb_true_iff in Hd as [Hd _].
    now rewrite (is_letter_is_word _ Hd), Hx.
Qed.

Lemma findall_go_skip u prev t :
  findall_go (length u) prev (u ++ t)
  = findall_go 0 (match last u with Some d => Some d | None => prev end) t.
Proof.
  revert prev. induction u as [|d u IH]; intros prev; [reflexivity|].
  simpl. rewrite IH, last_cons. now destruct (last u).
Qed.

Lemma last_forallb (p : ascii -> bool) c u :
  forallb p (c :: u) = true ->
  exists d, (match last u with Some d => Some d | None => Some c end) = Some d
            /\ p d = true.
Proof.
  revert c. induction u as [|x u IH]; intros c H; simpl in H.
  - exists c. now apply andb_true_iff in H as [H _].
  - apply andb_true_iff in H as [_ H]. destruct (IH x H) as (d & E & Hd).
    exists d. split; [|exact Hd]. rewrite last_cons.
    destruct (last u); congruence.
Qed.

(** The scanner, outside a run of word code points and inside one that
    cannot match any more. *)
Lemma findall_go_spec n s :
  (length s <= n)%nat ->
  (forall prev, is_word_opt prev = false ->
     findall_go 0 prev s = List.filter letters_only (runs is_word s))
  /\ (forall p, is_word p = true ->
        findall_go 0 (Some p) s
        = List.filter letters_only (runs is_word (span is_word s).2)).
Proof.
  revert s. induction n as [|n IH]; intros s Hlen.
  { destruct s; [split; reflexivity | simpl in Hlen; lia]. }
  destruct s as [|c r]; [split; reflexivity|].
  simpl in Hlen. assert (Hr : (length r <= n)%nat) by lia.
  destruct (IH r Hr) as [IH1 IH2].
  destruct (is_word c) eqn:Ec.
  - (* [c] is a word code point *)
    split.
    + intros prev Hprev.
      destruct (span_spec is_word r) as (Es & Hw & Ht).
      destruct (span is_word r) as [w t] eqn:Esp. cbn [fst snd] in *.
      assert (Hcw : forallb is_word (c :: w) = true) by (simpl; now rewrite Ec).
      cbn [findall_go]. rewrite Es.
      change (c :: w ++ t) with ((c :: w) ++ t).
      rewrite (match_word_at_run prev c w t Hprev Hcw Ht).
      rewrite (runs_cons_run is_word c w t Hcw Ht). cbn [List.filter].
      assert (Et : (span is_word t).2 = t).
      { destruct t as [|x t]; [reflexivity|]. simpl in Ht. simpl. now rewrite Ht. }
      assert (Hlt : (length t <= n)%nat).
      { rewrite Es, length_app in Hr. lia. }
      destruct (letters_only (c :: w)).
      * f_equal. replace (length (c :: w) - 1)%nat with (length w)
          by (simpl; lia).
        rewrite findall_go_skip.
        destruct (last_forallb is_word c w Hcw) as (d & -> & Hd).
        destruct (IH t Hlt) as [_ IHt]. rewrite (IHt d Hd). now rewrite Et.
      * rewrite <- Es. apply (IH2 c Ec).
    + intros p Hp. cbn [findall_go]. unfold match_word, at_boundary.
      simpl. rewrite Hp, Ec. simpl. rewrite (IH2 c Ec).
      destruct (span is_word r). reflexivity.
  - (* [c] is no word code point *)
    assert (El : is_letter c = false).
    { destruct (is_letter c) eqn:E; [|reflexivity].
      apply is_letter_is_word in E. congruence. }
    split.
    + intros prev Hprev. cbn [findall_go]. unfold match_word, at_boundary.
      simpl. rewrite Hprev, Ec. simpl.
      rewrite (IH1 (Some c) Ec). now rewrite runs_skip.
    + intros p Hp. cbn [findall_go]. unfold match_word, at_boundary.
      simpl. rewrite Hp, Ec, El. simpl.
      rewrite (IH1 (Some c) Ec). now rewrite runs_skip.
Qed.

(** C8, as stated, fails: a run of letters glued to a digit is a maximal
    run of letters, and the tokeniser drops it. *)
Lemma simple_word_tokenize_not_alpha_runs :
  simple_word_tokenize (py "abc123 x1yz ok") = [py "ok"]
  /\ alpha_runs (py "abc123 x1yz ok") = [py "abc"; py "yz"; py "ok"].
Proof. split; reflexivity. Qed.

(** C8, amended: the tokeniser returns, in order, the maximal runs of word
    code points (letters, digits, underscore) of the lowercased text that
    are made of two or more letters [a-z]; a run that holds any other word
    code point is dropped as a whole, and every other code point separates
    runs. *)
Theorem simple_word_tokenize_runs text :
  simple_word_tokenize text
  = List.filter letters_only (runs is_word (lower text)).
Proof.
  unfold simple_word_tokenize, re_findall_words.
  destruct (findall_go_spec (length (lower text)) (lower text)) as [H _];
    [lia|]. now apply H.
Qed.

(** ** Splitting and joining *)

Lemma split_go_space w a c b :
  isspace c = true -> split_go w (a ++ c :: b) = split_go w a ++ split b.
Proof.
  intros Hc. revert w. induction a as [|x a IH]; intros w; simpl.
  - now rewrite Hc.
  - destruct (isspace x); [|apply IH]. rewrite (IH []). now rewrite app_assoc.
Qed.

Lemma split_join parts :
  split (join (py " ") parts) = concat (map split parts).
Proof.
  induction parts as [|p rest IH]; [reflexivity|].
  destruct rest as [|q rest].
  - simpl. now rewrite app_nil_r.
  - change (join (py " ") (p :: q :: rest))
      with (p ++ " "%char :: join (py " ") (q :: rest)).
    unfold split at 1. rewrite split_go_space by reflexivity.
    fold (split p). rewrite IH. reflexivity.
Qed.

Lemma split_go_nospace w s :
  forallb (fun c => negb (isspace c)) s = true -> split_go w s = flush (w ++ s).
Proof.
  revert w. induction s as [|c r IH]; intros w H; simpl in *.
  - now rewrite app_nil_r.
  - apply andb_true_iff in H as [Hc Hr]. apply negb_true_iff in Hc.
    rewrite Hc, (IH _ Hr). now rewrite <- app_assoc.
Qed.

Lemma split_wordlike w : wordlike w -> split w = [w].
Proof.
  intros [Hne Hw]. unfold split. rewrite split_go_nospace by assumption.
  simpl. destruct w; [congruence | reflexivity].
Qed.

Lemma split_go_wordlike w s :
  forallb (fun c => negb (isspace c)) w = true ->
  Forall wordlike (split_go w s).
Proof.
  revert w. induction s as [|c r IH]; intros w Hw; simpl.
  - destruct w; simpl; constructor; [|constructor]. split; [discriminate | exact Hw].
  - destruct (isspace c) eqn:E.
    + apply Forall_app. split; [|now apply IH].
      destruct w; simpl; constructor; [|constructor].
      split; [discriminate | exact Hw].
    + apply IH. rewrite forallb_app, Hw. simpl. now rewrite E.
Qed.

Lemma split_wordlike_all s : Forall wordlike (split s).
Proof. now apply split_go_wordlike. Qed.

Lemma concat_split_wordlike ws :
  Forall wordlike ws -> concat (map split ws) = ws.
Proof.
  induction 1 as [|w ws Hw Hws IH]; simpl; [reflexivity|].
  now rewrite (split_wordlike _ Hw), IH.
Qed.

Lemma join_snoc_app sep (u : list str) x t :
  join sep (u ++ [x]) ++ t = join sep (u ++ [x ++ t]).
Proof.
  induction u as [|y u IH]; [reflexivity|].
  destruct u as [|z u].
  - simpl. now rewrite <- !app_assoc.
  - change (join sep ((y :: z :: u) ++ [x]))
      with (y ++ sep ++ join sep ((z :: u) ++ [x])).
    change (join sep ((y :: z :: u) ++ [x ++ t]))
      with (y ++ sep ++ join sep ((z :: u) ++ [x ++ t])).
    rewrite <- IH. now rewrite <- !app_assoc.
Qed.

(** The words of a text cut after [k] words and closed by the ellipsis:
    the ellipsis is glued to the last word kept. *)
Lemma split_truncated_length ws :
  Forall wordlike ws ->
  (length (split (join (py " ") ws ++ py "...")) = Nat.max 1 (length ws))%nat.
Proof.
  intros H. destruct (rev ws) as [|x u] eqn:E;
    apply (f_equal (@rev str)) in E; rewrite rev_involutive in E; subst ws.
  - reflexivity.
  - simpl rev. rewrite join_snoc_app, split_join.
    simpl rev in H. apply Forall_app in H as [Hu Hx].
    rewrite concat_split_wordlike.
    + rewrite !length_app. simpl. lia.
    + apply Forall_app. split; [exact Hu|]. constructor; [|constructor].
      apply Forall_inv in Hx. destruct Hx as [Hne Hx]. split.
      * destruct x; [congruence | discriminate].
      * rewrite forallb_app, Hx. reflexivity.
Qed.

Lemma truncated_length sentence words_remaining :
  10 <= words_remaining ->
  len (split (truncated sentence words_remaining)) <= words_remaining - 1.
Proof.
  intros H. unfold truncated, slice_to.
  destruct (0 <=? words_remaining - 1) eqn:E; [|lia].
  unfold len. rewrite split_truncated_length.
  - rewrite length_take. lia.
  - apply Forall_take, split_wordlike_all.
Qed.

(** ** The budget loop (C1, C5) *)

Lemma insert_desc_Forall {A} (lt : A -> A -> bool) (P : A -> Prop) x l :
  P x -> Forall P l -> Forall P (insert_desc lt x l).
Proof.
  intros Hx. induction 1 as [|y r Hy Hr IH]; simpl.
  - now repeat constructor.
  - destruct (lt x y); repeat constructor; auto.
Qed.

Lemma sorted_desc_Forall {A} (lt : A -> A -> bool) (P : A -> Prop) l :
  Forall P l -> Forall P (sorted_desc lt l).
Proof.
  induction 1; simpl; [constructor | now apply insert_desc_Forall].
Qed.

Lemma scored_sentences_counted nltk text sentences :
  Forall counted (scored_sentences_of nltk text sentences).
Proof.
  unfold scored_sentences_of. apply sorted_desc_Forall.
  induction sentences as [|s rest IH]; simpl; [constructor|].
  apply Forall_app. split; [|exact IH].
  unfold score_candidate. destruct (_ && _); repeat constructor.
Qed.

Lemma word_count_snoc parts p :
  word_count (parts ++ [p]) = word_count parts + len (split p).
Proof.
  unfold word_count, len. rewrite map_app, concat_app, length_app. simpl.
  rewrite app_nil_r. lia.
Qed.

(** The product raises only the overflow of the conversion. *)
Lemma int_mul_float_raise n f e :
  int_mul_float n f = Raise e ->
  e = OverflowError (py "int too large to convert to float")
  /\ exists s, nearest_float n = S754_infinity s.
Proof.
  unfold int_mul_float, float_of_int.
  destruct (nearest_float n) as [s|s| |s m x]; try discriminate.
  intros [= <-]. split; [reflexivity | now exists s].
Qed.

Lemma int_mul_float_return n f :
  (forall s, nearest_float n <> S754_infinity s) ->
  int_mul_float n f = Return (nearest_mul_float n f).
Proof.
  unfold int_mul_float, float_of_int, nearest_mul_float. intros H.
  destruct (nearest_float n) as [s|s| |s m x]; try reflexivity.
  now destruct (H s).
Qed.

Lemma accumulate_budget target_length scored summary_parts total_words :
  Forall counted scored ->
  word_count summary_parts = total_words ->
  total_words <= target_length ->
  match accumulate target_length scored summary_parts total_words with
  | Return parts => word_count parts <= target_length
  | Raise e => int_mul_float target_length py_0_8 = Raise e
  end.
Proof.
  intros Hc. revert summary_parts total_words.
  induction Hc as [|[[score sentence] length] rest Hx Hrest IH];
    intros parts total Hw Ht; cbn [accumulate]; [lia|].
  simpl in Hx. subst length.
  destruct (total + len (split sentence) <=? target_length) eqn:E1.
  - apply IH; [|lia]. rewrite word_count_snoc. lia.
  - destruct (int_mul_float target_length py_0_8) as [limit|e];
      [|reflexivity].
    destruct (int_lt_float total limit); [|lia].
    destruct (10 <=? target_length - total) eqn:E2.
    + rewrite word_count_snoc.
      pose proof (truncated_length sentence (target_length - total)). lia.
    + now apply IH.
Qed.

(** C1: the summary never has more words than the target; this holds with
    the ellipsis, which is glued to the last word kept.  When the text is
    longer than the target and no sentence qualifies, the summary is
    empty. *)
Theorem budget_respected nltk text target_length :
  1 <= target_length ->
  let summary := simple_abstractive_summarize nltk (PyStr text) target_length in
  let cleaned := clean_text text in
  len (split summary) <= target_length
  /\ (target_length < len (split cleaned) ->
      scored_sentences_of nltk cleaned (tokenize_sentences nltk cleaned) = [] ->
      summary = []).
Proof.
  intros HT. unfold simple_abstractive_summarize, abstractive_body.
  cbn [expect_str].
  destruct (len (split (clean_text text)) <=? target_length) eqn:E;
    cbn [soft_fail].
  - split; lia.
  - split; [|intros _ ->; reflexivity].
    pose proof (accumulate_budget target_length
                  (scored_sentences_of nltk (clean_text text)
                     (tokenize_sentences nltk (clean_text text))) [] 0
                  (scored_sentences_counted _ _ _) eq_refl ltac:(lia)) as H.
    destruct (accumulate target_length _ [] 0) as [parts|e]; cbn [soft_fail].
    + rewrite split_join. exact H.
    + (* the conversion overflowed: the target is far above the ten words
         of the message *)
      apply int_mul_float_raise in H as [-> [s Hinf]].
      change (len (split (error_prefix
                ++ exn_str (OverflowError
                     (py "int too large to convert to float"))))) with 10.
      destruct (Z.le_gt_cases 10 target_length) as [|Hsmall]; [assumption|].
      exfalso.
      assert (Hc : target_length = 1 \/ target_length = 2
                   \/ target_length = 3 \/ target_length = 4
                   \/ target_length = 5 \/ target_length = 6
                   \/ target_length = 7 \/ target_length = 8
                   \/ target_length = 9) by lia.
      repeat (destruct Hc as [->|Hc]; [discriminate Hinf|]).
      subst. discriminate Hinf.
Qed.

(** A truncated tail: with a target of 30 words the twelve-word sentence is
    taken, and of the 25-word sentence the first 17 words are kept, the
    ellipsis glued to the last of them: 29 words. *)
Example truncated_tail :
  let summary :=
    simple_abstractive_summarize None
      (PyStr (join (py " ") [long_sentence; very_long_sentence])) 30 in
  summary
  = long_sentence ++ py " November oscar papa quebec romeo sierra tango uniform victor whiskey xray yankee zulu apple banana cherry grape..."
  /\ len (split summary) = 29.
Proof. vm_compute. split; reflexivity. Qed.

Lemma budget_respected_witness :
  len (split (simple_abstractive_summarize None (PyStr budget_text) 20)) <= 20.
Proof.
  exact (proj1 (budget_respected None budget_text 20 ltac:(lia))).
Defined.

(** C5, as stated, fails.  With a target of 20 words the twelve-word
    sentence is taken, the nine-word sentence overflows while 12 is below
    80% of 20 and only 8 words remain, and the loop goes on to the
    five-word sentence, which fits. *)
Lemma accumulation_continues_below_80 :
  scored_sentences_of None (clean_text budget_text)
    (tokenize_sentences None (clean_text budget_text))
  = [(int_true_div 12 12, long_sentence, 12);
     (int_true_div 6 9, middle_sentence, 9);
     (int_true_div 1 5, short_sentence, 5)]
  /\ simple_abstractive_summarize None (PyStr budget_text) 20
     = join (py " ") [long_sentence; short_sentence]
  /\ ~ overflow_always_stops.
Proof.
  split; [vm_compute; reflexivity|].
  split; [vm_compute; reflexivity|].
  intros H.
  specialize (H 20 (int_true_div 6 9) middle_sentence 9
                [(int_true_div 1 5, short_sentence, 5)]
                [long_sentence] 12 ltac:(lia) ltac:(reflexivity)).
  vm_compute in H. discriminate H.
Qed.

(** C5, amended: an overflowing sentence ends the accumulation when the
    running total is not below 80% of the target; when the total is below
    80% and fewer than 10 words remain, the sentence is passed over and the
    loop goes on with the sentences that follow.  The test is made on the
    product [target_length * 0.8]; when its conversion raises, the loop
    raises. *)
Theorem overflow_step target_length score sentence length rest
    summary_parts total_words :
  target_length < total_words + length ->
  (forall limit,
     int_mul_float target_length py_0_8 = Return limit ->
     int_lt_float total_words limit = false ->
     accumulate target_length ((score, sentence, length) :: rest)
       summary_parts total_words
     = Return summary_parts)
  /\ (forall limit,
        int_mul_float target_length py_0_8 = Return limit ->
        int_lt_float total_words limit = true ->
        target_length - total_words < 10 ->
        accumulate target_length ((score, sentence, length) :: rest)
          summary_parts total_words
        = accumulate target_length rest summary_parts total_words)
  /\ (forall e,
        int_mul_float target_length py_0_8 = Raise e ->
        accumulate target_length ((score, sentence, length) :: rest)
          summary_parts total_words
        = Raise e).
Proof.
  intros Hover. cbn [accumulate].
  destruct (total_words + length <=? target_length) eqn:E; [lia|].
  split; [|split].
  - intros limit -> ->. reflexivity.
  - intros limit -> -> H10.
    destruct (10 <=? target_length - total_words) eqn:E10; [lia | reflexivity].
  - intros e ->. reflexivity.
Qed.

Lemma overflow_step_witness :
  accumulate 20 [(int_true_div 6 9, middle_sentence, 9);
                 (int_true_div 1 5, short_sentence, 5)]
    [long_sentence] 12
  = accumulate 20 [(int_true_div 1 5, short_sentence, 5)] [long_sentence] 12
  /\ accumulate 20 [(int_true_div 6 9, middle_sentence, 9)]
       [long_sentence; short_sentence] 17
     = Return [long_sentence; short_sentence].
Proof.
  split.
  - apply (proj1 (proj2 (overflow_step 20 (int_true_div 6 9) middle_sentence 9
                           [(int_true_div 1 5, short_sentence, 5)]
                           [long_sentence] 12 ltac:(lia)))
             (nearest_mul_float 20 py_0_8));
      [reflexivity | reflexivity | lia].
  - apply (proj1 (overflow_step 20 (int_true_div 6 9) middle_sentence 9 []
                    [long_sentence; short_sentence] 17 ltac:(lia))
             (nearest_mul_float 20 py_0_8)); reflexivity.
Defined.

(** ** Dictionaries and selection *)

Section DictFacts.
Context {K V : Type} `{EqDecision K}.
Implicit Types (d : list (K * V)) (k : K) (v : V).

Lemma dict_keys_set_elem d k v x :
  x ∈ dict_keys (dict_set d k v) <-> x = k \/ x ∈ dict_keys d.
Proof.
  unfold dict_keys. induction d as [|[k' v'] rest IH]; simpl.
  - rewrite list_elem_of_singleton. rewrite elem_of_nil. tauto.
  - destruct (decide (k' = k)) as [->|Hne]; simpl.
    + rewrite !elem_of_cons. tauto.
    + rewrite !elem_of_cons, IH. tauto.
Qed.

Lemma dict_keys_set_NoDup d k v :
  NoDup (dict_keys d) -> NoDup (dict_keys (dict_set d k v)).
Proof.
  unfold dict_keys. induction d as [|[k' v'] rest IH]; simpl; intros Hnd.
  - apply NoDup_singleton.
  - apply NoDup_cons in Hnd as [Hnotin Hnd].
    destruct (decide (k' = k)) as [->|Hne]; simpl.
    + now apply NoDup_cons.
    + apply NoDup_cons. split; [|now apply IH].
      intros Hin. apply (dict_keys_set_elem rest k v k') in Hin.
      destruct Hin as [->|Hin]; [congruence | exact (Hnotin Hin)].
Qed.

Lemma dict_get_is_Some d k : is_Some (dict_get d k) <-> k ∈ dict_keys d.
Proof.
  unfold dict_keys. induction d as [|[k' v'] rest IH]; simpl.
  - rewrite elem_of_nil. split; [intros [? ?]; discriminate | tauto].
  - destruct (decide (k' = k)) as [->|Hne].
    + split; [intros _; left | intros _; eexists; reflexivity].
    + rewrite IH, elem_of_cons. split; [tauto | intros [?|?]; congruence].
Qed.
End DictFacts.

Section SortingFacts.
Context {A : Type} (lt : A -> A -> bool).

Lemma insert_desc_Permutation x l : insert_desc lt x l ≡ₚ x :: l.
Proof.
  induction l as [|y r IH]; simpl; [reflexivity|].
  destruct (lt x y); [|reflexivity].
  rewrite IH. apply Permutation_swap.
Qed.

Lemma sorted_desc_Permutation l : sorted_desc lt l ≡ₚ l.
Proof.
  induction l as [|x r IH]; simpl; [reflexivity|].
  now rewrite insert_desc_Permutation, IH.
Qed.
End SortingFacts.

(** ** The extractive selection (C6) *)

Section Extractive.
Variable nltk : option Nltk.

Lemma count_words_keys stop_words words word_freq w :
  w ∈ dict_keys (count_words stop_words word_freq words)
  <-> w ∈ dict_keys word_freq
      \/ (w ∈ words /\ qualifies stop_words w = true).
Proof.
  unfold count_words. revert word_freq.
  induction words as [|x words IH]; intros word_freq; simpl.
  - rewrite elem_of_nil. tauto.
  - rewrite IH, elem_of_cons. destruct (qualifies stop_words x) eqn:E.
    + rewrite dict_keys_set_elem. split; [|intros [?|[[->|?] ?]]; auto].
      intros [[->|?]|[? ?]]; auto.
    + split; [tauto|]. intros [?|[[->|?] ?]]; auto. congruence.
Qed.

Lemma build_word_freq_keys stop_words sentences w :
  w ∈ dict_keys (build_word_freq nltk stop_words sentences)
  <-> exists s, s ∈ sentences /\ w ∈ tokenize_words nltk s
                /\ qualifies stop_words w = true.
Proof.
  unfold build_word_freq.
  assert (G : forall word_freq,
    w ∈ dict_keys
          (fold_left
             (fun word_freq sentence =>
                count_words stop_words word_freq (tokenize_words nltk sentence))
             sentences word_freq)
    <-> w ∈ dict_keys word_freq
        \/ exists s, s ∈ sentences /\ w ∈ tokenize_words nltk s
                     /\ qualifies stop_words w = true).
  { induction sentences as [|s rest IH]; intros word_freq; simpl.
    - split; [tauto|]. intros [?|(s & Hs & _)]; [assumption|].
      now apply elem_of_nil in Hs.
    - rewrite IH, count_words_keys. split.
      + intros [[?|[? ?]]|(s' & ? & ? & ?)]; [tauto| |].
        * right. exists s. rewrite elem_of_cons. auto.
        * right. exists s'. rewrite elem_of_cons. auto.
      + intros [?|(s' & Hs' & ? & ?)]; [tauto|].
        apply elem_of_cons in Hs' as [->|?]; [tauto|].
        right. exists s'. auto. }
  rewrite G. unfold dict_keys. simpl. rewrite elem_of_nil. tauto.
Qed.

Lemma score_words_count word_freq words :
  0 < (score_words word_freq words).2
  <-> exists w, w ∈ words /\ w ∈ dict_keys word_freq.
Proof.
  unfold score_words.
  assert (G : forall score word_count, 0 <= word_count ->
    let r := fold_left
      (fun '(score, word_count) word =>
         match dict_get word_freq word with
         | Some f => (score + f, word_count + 1)
         | None => (score, word_count)
         end) words (score, word_count) in
    word_count <= r.2
    /\ (word_count < r.2 <-> exists w, w ∈ words /\ w ∈ dict_keys word_freq)).
  { induction words as [|x words IH]; intros score word_count Hwc; simpl.
    - split; [lia|]. split; [lia|]. intros (w & Hw & _).
      now apply elem_of_nil in Hw.
    - pose proof (dict_get_is_Some word_freq x) as Hx.
      destruct (dict_get word_freq x) as [f|].
      + destruct (IH (score + f) (word_count + 1) ltac:(lia)) as [Hle _].
        split; [lia|]. split; [|lia]. intros _. exists x.
        split; [left | apply Hx; eexists; reflexivity].
      + destruct (IH score word_count Hwc) as [Hle Hiff].
        split; [exact Hle|]. rewrite Hiff. split.
        * intros (w & ? & ?). exists w. rewrite elem_of_cons. auto.
        * intros (w & Hw & Hk). apply elem_of_cons in Hw as [->|Hw].
          -- apply Hx in Hk. destruct Hk as [? Hk]. discriminate Hk.
          -- exists w. auto. }
  apply (G 0 0). lia.
Qed.

Lemma score_sentences_keys word_freq n sentences i scores s :
  s ∈ dict_keys (score_sentences nltk word_freq n i sentences scores)
  <-> s ∈ dict_keys scores
      \/ (s ∈ sentences
          /\ 0 < (score_words word_freq (tokenize_words nltk s)).2).
Proof.
  revert i scores. induction sentences as [|x rest IH]; intros i scores.
  - simpl. rewrite elem_of_nil. tauto.
  - cbn [score_sentences].
    destruct (score_words word_freq (tokenize_words nltk x)) as [sc wc] eqn:E.
    rewrite IH, elem_of_cons.
    destruct (0 <? wc) eqn:Ewc.
    + rewrite dict_keys_set_elem. split.
      * intros [[->|?]|[? ?]]; [|tauto|tauto].
        right. split; [now left|]. rewrite E. simpl. lia.
      * intros [?|[[->|?] ?]]; tauto.
    + split; [tauto|]. intros [?|[[->|?] Hpos]]; [tauto| |tauto].
      rewrite E in Hpos. simpl in Hpos. lia.
Qed.

Lemma score_sentences_NoDup word_freq n sentences i scores :
  NoDup (dict_keys scores) ->
  NoDup (dict_keys (score_sentences nltk word_freq n i sentences scores)).
Proof.
  revert i scores. induction sentences as [|x rest IH]; intros i scores Hnd;
    [exact Hnd|].
  cbn [score_sentences].
  destruct (score_words word_freq (tokenize_words nltk x)) as [sc wc].
  apply IH. destruct (0 <? wc); [now apply dict_keys_set_NoDup | exact Hnd].
Qed.

(** The keys of [sentence_scores]: the sentences with a frequency token. *)
Lemma sentence_scores_keys sentences s :
  s ∈ dict_keys (sentence_scores_of nltk sentences)
  <-> s ∈ sentences /\ has_frequency_token nltk s = true.
Proof.
  unfold sentence_scores_of. rewrite score_sentences_keys.
  unfold dict_keys at 1. simpl. rewrite elem_of_nil.
  rewrite score_words_count. unfold has_frequency_token.
  rewrite existsb_exists. split.
  - intros [[]|[Hs (w & Hw & Hk)]]. split; [exact Hs|].
    apply build_word_freq_keys in Hk as (s' & _ & _ & Hq).
    exists w. split; [now apply list_elem_of_In | exact Hq].
  - intros [Hs (w & Hw & Hq)]. right. split; [exact Hs|].
    apply list_elem_of_In in Hw.
    exists w. split; [exact Hw|]. apply build_word_freq_keys. eauto.
Qed.

Lemma sentence_scores_NoDup sentences :
  NoDup (dict_keys (sentence_scores_of nltk sentences)).
Proof. apply score_sentences_NoDup. constructor. Qed.

Lemma top_sentences_spec num_sentences scores :
  NoDup (dict_keys scores) ->
  let top := top_sentences num_sentences scores in
  NoDup top
  /\ (forall s, s ∈ top -> s ∈ dict_keys scores)
  /\ length top = Nat.min (Z.to_nat num_sentences) (length scores).
Proof.
  intros Hnd. unfold top_sentences, nlargest, dict_keys in *.
  set (lt := fun x y : str * float => float_ltb x.2 y.2).
  pose proof (sorted_desc_Permutation lt scores) as Hp.
  rewrite <- firstn_map. split; [|split].
  - eapply sublist_NoDup; [|apply sublist_take].
    now rewrite (Permutation_map fst Hp).
  - intros s Hs. rewrite <- (Permutation_map fst Hp).
    eapply elem_of_sublist; [exact Hs | apply sublist_take].
  - rewrite length_take, length_map. now rewrite Hp.
Qed.

(** C6, amended.  When there are more sentences than asked for, the summary
    holds, in their order of appearance, every occurrence of the chosen
    sentence texts: it is the list of the sentences whose text is in the
    summary; none lacks a frequency token; the number of distinct
    texts is the smaller of [num_sentences] and of the number of distinct
    texts that have a frequency token.  When the sentences are pairwise
    distinct this is the number of sentences returned. *)
Theorem extractive_selection sentences num_sentences :
  1 <= num_sentences ->
  num_sentences < len sentences ->
  let out := summary_sentences nltk sentences num_sentences in
  let scored := List.filter (has_frequency_token nltk) sentences in
  out `sublist_of` sentences
  /\ out = filter (fun s => s ∈ out) sentences
  /\ Forall (fun s => has_frequency_token nltk s = true) out
  /\ len (remove_dups out) = Z.min num_sentences (len (remove_dups scored))
  /\ (NoDup sentences -> len out = Z.min num_sentences (len scored)).
Proof.
  intros Hn Hlen out scored. subst out. unfold summary_sentences.
  destruct (len sentences <=? num_sentences) eqn:E; [lia|]. clear E.
  set (scores := sentence_scores_of nltk sentences).
  destruct (top_sentences_spec num_sentences scores
              (sentence_scores_NoDup sentences)) as (Hnd & Hsub & Hlen_top).
  set (top := top_sentences num_sentences scores) in *.
  assert (Hkeys : forall s, s ∈ dict_keys scores <-> s ∈ scored).
  { intros s. unfold scores. rewrite sentence_scores_keys.
    unfold scored. rewrite !list_elem_of_In, filter_In. tauto. }
  assert (Hscores : length scores = length (remove_dups scored)).
  { rewrite <- (length_map fst scores).
    apply Permutation_length, NoDup_Permutation.
    - apply sentence_scores_NoDup.
    - apply NoDup_remove_dups.
    - intros s. rewrite elem_of_remove_dups. apply Hkeys. }
  assert (Hout : forall s, s ∈ filter (fun s => s ∈ top) sentences <-> s ∈ top).
  { intros s. rewrite list_elem_of_filter. split; [tauto|].
    intros Hs. split; [exact Hs|].
    apply Hsub, sentence_scores_keys in Hs. tauto. }
  split; [apply sublist_filter|]. split; [|split; [|split]].
  - apply list_filter_iff. intros s. symmetry. apply Hout.
  - apply Forall_forall. intros s Hs. apply Hout, Hsub in Hs.
    now apply sentence_scores_keys in Hs.
  - assert (Hp : remove_dups (filter (fun s => s ∈ top) sentences) ≡ₚ top).
    { apply NoDup_Permutation; [apply NoDup_remove_dups | exact Hnd |].
      intros s. rewrite elem_of_remove_dups. apply Hout. }
    unfold len. rewrite Hp, Hlen_top, Hscores. lia.
  - intros Hnds.
    assert (Hp : filter (fun s => s ∈ top) sentences ≡ₚ top).
    { apply NoDup_Permutation; [now apply NoDup_filter | exact Hnd | exact Hout]. }
    assert (Hs : length (remove_dups scored) = length scored).
    { apply Permutation_length, NoDup_Permutation.
      - apply NoDup_remove_dups.
      - unfold scored. apply NoDup_ListNoDup, List.NoDup_filter.
        now apply NoDup_ListNoDup.
      - intros s. apply elem_of_remove_dups. }
    unfold len. rewrite Hp, Hlen_top, Hscores, Hs. lia.
Qed.

End Extractive.

(** C6, as stated, fails.  Of three sentences, two hold only stopwords and
    are never ranked: asking for two gives one.  And a sentence text that
    occurs twice is emitted twice: asking for two gives three. *)
Lemma fewer_or_more_than_requested :
  len (tokenize_sentences None (clean_text sparse_text)) = 3
  /\ extractive_summarize None (PyStr sparse_text) 2
     = py "Cats chase mice daily."
  /\ len (tokenize_sentences None (clean_text repeated_text)) = 4
  /\ extractive_summarize None (PyStr repeated_text) 2
     = py "Cats chase mice daily. Dogs chase cats daily. Cats chase mice daily."
  /\ ~ exactly_as_many_as_requested.
Proof.
  split; [vm_compute; reflexivity|].
  split; [vm_compute; reflexivity|].
  split; [vm_compute; reflexivity|].
  split; [vm_compute; reflexivity|].
  intros H. specialize (H None sparse_text 2 ltac:(lia)).
  assert (Hlen : 2 < len (tokenize_sentences None (clean_text sparse_text)))
    by (vm_compute; reflexivity).
  specialize (H Hlen). vm_compute in H. discriminate H.
Qed.

Lemma extractive_selection_witness :
  let sentences := tokenize_sentences None (clean_text sparse_text) in
  let repeated := tokenize_sentences None (clean_text repeated_text) in
  let out := summary_sentences None repeated 2 in
  len (summary_sentences None sentences 2)
  = Z.min 2 (len (List.filter (has_frequency_token None) sentences))
  /\ out = filter (fun s => s ∈ out) repeated.
Proof.
  intros sentences repeated out. split.
  - apply (extractive_selection None sentences 2); [lia | reflexivity |].
    refine (@bool_decide_unpack _ (NoDup_dec _) _). vm_compute. exact I.
  - apply (extractive_selection None repeated 2); [lia | reflexivity].
Defined.

(** ** Binary64 rounding

    What the position windows need of IEEE arithmetic: a product rounded to
    binary64 stays in the closed binade of the exact product. *)

Lemma digits2_pos_bounds m :
  2 ^ (Z.pos (digits2_pos m) - 1) <= Z.pos m < 2 ^ Z.pos (digits2_pos m).
Proof.
  induction m as [p IH|p IH|]; cbn [digits2_pos]; [| |simpl; lia].
  - rewrite Pos2Z.inj_succ.
    replace (Z.succ (Z.pos (digits2_pos p)) - 1)
      with (Z.succ (Z.pos (digits2_pos p) - 1)) by lia.
    rewrite !Z.pow_succ_r by lia. lia.
  - rewrite Pos2Z.inj_succ.
    replace (Z.succ (Z.pos (digits2_pos p)) - 1)
      with (Z.succ (Z.pos (digits2_pos p) - 1)) by lia.
    rewrite !Z.pow_succ_r by lia. lia.
Qed.

Lemma pow2_lt_inv a b : 0 <= b -> 2 ^ a < 2 ^ b -> a < b.
Proof.
  intros Hb H. destruct (Z.lt_ge_cases a b) as [|Hge]; [assumption|].
  exfalso. pose proof (Z.pow_le_mono_r 2 b a ltac:(lia) Hge). lia.
Qed.

Lemma digits2_pos_unique m d :
  2 ^ (d - 1) <= Z.pos m < 2 ^ d -> Z.pos (digits2_pos m) = d.
Proof.
  intros [Hlo Hhi]. pose proof (digits2_pos_bounds m) as [Hlo' Hhi'].
  assert (0 <= d).
  { destruct (Z.lt_ge_cases d 0) as [Hneg|]; [|assumption].
    rewrite (Z.pow_neg_r 2 d Hneg) in Hhi. lia. }
  assert (d - 1 < Z.pos (digits2_pos m))
    by (apply pow2_lt_inv; lia).
  assert (Z.pos (digits2_pos m) - 1 < d) by (apply pow2_lt_inv; lia).
  lia.
Qed.

Lemma digits2_pos_le m1 m2 :
  (m1 <= m2)%positive -> Z.pos (digits2_pos m1) <= Z.pos (digits2_pos m2).
Proof.
  intros H. pose proof (digits2_pos_bounds m1) as [Hlo _].
  pose proof (digits2_pos_bounds m2) as [_ Hhi].
  assert (Z.pos (digits2_pos m1) - 1 < Z.pos (digits2_pos m2))
    by (apply pow2_lt_inv; lia).
  lia.
Qed.

Lemma digits2_pos_mul m1 m2 :
  Z.pos (digits2_pos m1) + Z.pos (digits2_pos m2) - 1
  <= Z.pos (digits2_pos (m1 * m2)).
Proof.
  pose proof (digits2_pos_bounds m1) as [H1 _].
  pose proof (digits2_pos_bounds m2) as [H2 _].
  pose proof (digits2_pos_bounds (m1 * m2)) as [_ H].
  rewrite Pos2Z.inj_mul in H.
  assert (Hp : 2 ^ (Z.pos (digits2_pos m1) - 1 + (Z.pos (digits2_pos m2) - 1))
               <= Z.pos m1 * Z.pos m2).
  { rewrite Z.pow_add_r by lia. apply Z.mul_le_mono_nonneg; lia. }
  assert (Z.pos (digits2_pos m1) - 1 + (Z.pos (digits2_pos m2) - 1)
          < Z.pos (digits2_pos (m1 * m2))) by (apply pow2_lt_inv; lia).
  lia.
Qed.

Lemma iter_pos_shr_1 p mrs :
  0 <= shr_m mrs ->
  shr_m (SpecFloat.iter_pos shr_1 p mrs) = shr_m mrs / 2 ^ Z.pos p.
Proof.
  assert (H1 : forall r, 0 <= shr_m r ->
            shr_m (shr_1 r) = shr_m r / 2 /\ 0 <= shr_m (shr_1 r)).
  { intros [m r s] Hm. simpl in Hm.
    destruct m as [|[q|q|]|q]; simpl; try lia;
      rewrite <- Z.div2_div; simpl; split; try reflexivity; lia. }
  assert (G : forall q r, 0 <= shr_m r ->
            shr_m (SpecFloat.iter_pos shr_1 q r) = shr_m r / 2 ^ Z.pos q
            /\ 0 <= shr_m (SpecFloat.iter_pos shr_1 q r)).
  { induction q as [q IH|q IH|]; intros r Hr; cbn [SpecFloat.iter_pos].
    - destruct (H1 r Hr) as [E1 P1].
      destruct (IH _ P1) as [E2 P2]. destruct (IH _ P2) as [E3 P3].
      split; [|exact P3]. rewrite E3, E2, E1.
      rewrite !Z.div_div by lia. f_equal.
      replace (Z.pos q~1) with (1 + Z.pos q + Z.pos q) by lia.
      rewrite !Z.pow_add_r by lia. change (2 ^ 1) with 2. lia.
    - destruct (IH _ Hr) as [E2 P2]. destruct (IH _ P2) as [E3 P3].
      split; [|exact P3]. rewrite E3, E2.
      rewrite !Z.div_div by lia. f_equal.
      replace (Z.pos q~0) with (Z.pos q + Z.pos q) by lia.
      rewrite !Z.pow_add_r by lia. lia.
    - destruct (H1 r Hr) as [E1 P1]. split; [|exact P1].
      rewrite E1. reflexivity. }
  intros H. now apply G.
Qed.

Lemma round_nearest_even_bounds q l :
  q <= round_nearest_even q l <= q + 1.
Proof.
  destruct l as [|[]]; simpl; try lia. destruct (Z.even q); lia.
Qed.

(** Rounding [m * 2^e] to binary64, for a value that is not subnormal: the
    result, finite or overflowed, has the exponent [e'] and, when finite,
    the mantissa [m']. *)
Lemma binary_round_aux_binade (m : positive) (e : Z) :
  let d := Z.pos (digits2_pos m) in
  -1074 <= d + e - 53 ->
  exists m' e',
    binary_round_aux prec emax false (Z.pos m) e loc_Exact
    = (if e' <=? 971 then S754_finite false m' e' else S754_infinity false)
    /\ Z.max e (d + e - 53) <= e' <= Z.max e (d + e - 53) + 1
    /\ 2 ^ (d - 1) <= Z.pos m' * 2 ^ (e' - e) <= 2 ^ d.
Proof.
  intros d Hnorm. pose proof (digits2_pos_bounds m) as Hm. fold d in Hm.
  unfold binary_round_aux.
  assert (Hshift : forall p x, -1074 <= Z.pos (digits2_pos p) + x - 53 ->
            shr_fexp prec emax (Z.pos p) x loc_Exact
            = shr (Build_shr_record (Z.pos p) false false) x
                (Z.pos (digits2_pos p) - 53)).
  { intros p x Hp. unfold shr_fexp, fexp. cbn [Zdigits2 shr_record_of_loc].
    change (SpecFloat.emin prec emax) with (-1074). change prec with 53.
    f_equal. lia. }
  rewrite (Hshift m e Hnorm). fold d.
  destruct (d - 53) as [|k|k] eqn:Ek.
  - (* 53 digits: nothing is shifted out *)
    cbn [shr shr_m loc_of_shr_record round_nearest_even].
    rewrite (Hshift m e Hnorm). fold d. rewrite Ek. cbn [shr shr_m].
    exists m, e. change (emax - prec) with 971.
    split; [reflexivity|]. rewrite Z.sub_diag, Z.mul_1_r.
    split; lia.
  - (* more digits: [k] of them are shifted out and the rest is rounded *)
    cbn [shr].
    set (mrs := SpecFloat.iter_pos shr_1 k (Build_shr_record (Z.pos m) false false)).
    assert (Eq : shr_m mrs = Z.pos m / 2 ^ Z.pos k).
    { unfold mrs. now rewrite iter_pos_shr_1 by (simpl; lia). }
    assert (Hd : d = 53 + Z.pos k) by lia.
    assert (Hpk : 0 < 2 ^ Z.pos k) by (apply Z.pow_pos_nonneg; lia).
    assert (Hq : 2 ^ 52 <= shr_m mrs < 2 ^ 53).
    { rewrite Eq. rewrite Hd in Hm.
      replace (53 + Z.pos k - 1) with (52 + Z.pos k) in Hm by lia.
      rewrite !Z.pow_add_r in Hm by lia. split.
      - apply Z.div_le_lower_bound; lia.
      - apply Z.div_lt_upper_bound; lia. }
    pose proof (round_nearest_even_bounds (shr_m mrs) (loc_of_shr_record mrs))
      as Hr.
    set (m1 := round_nearest_even (shr_m mrs) (loc_of_shr_record mrs)) in *.
    assert (Hval : Z.pos m / 2 ^ Z.pos k * 2 ^ Z.pos k <= Z.pos m
                   < (Z.pos m / 2 ^ Z.pos k + 1) * 2 ^ Z.pos k).
    { pose proof (Z.div_mod (Z.pos m) (2 ^ Z.pos k) ltac:(lia)).
      pose proof (Z.mod_pos_bound (Z.pos m) (2 ^ Z.pos k) Hpk). lia. }
    destruct m1 as [|p1|p1] eqn:Em1; [lia| |lia].
    destruct (Z.eq_dec (Z.pos p1) (2 ^ 53)) as [Etop|Hlt].
    + (* the rounding carried into a 54th digit *)
      assert (Ed1 : Z.pos (digits2_pos p1) = 54).
      { apply digits2_pos_unique. rewrite Etop. split; [|reflexivity].
        vm_compute. discriminate. }
      rewrite Hshift by lia. rewrite Ed1. change (54 - 53) with 1.
      cbn [shr SpecFloat.iter_pos]. injection Etop as ->. cbn [shr_1 shr_m].
      exists (2 ^ 52)%positive, (e + Z.pos k + 1).
      split; [reflexivity|]. split; [lia|].
      replace (e + Z.pos k + 1 - e) with (Z.pos k + 1) by lia.
      rewrite Hd. replace (53 + Z.pos k - 1) with (52 + Z.pos k) by lia.
      rewrite !Z.pow_add_r by lia. change (Z.pos (2 ^ 52)) with (2 ^ 52).
      change (2 ^ 53) with (2 ^ 52 * 2). change (2 ^ 1) with 2. nia.
    + assert (Ed1 : Z.pos (digits2_pos p1) = 53).
      { apply digits2_pos_unique. change (53 - 1) with 52. lia. }
      rewrite Hshift by lia. rewrite Ed1. change (53 - 53) with 0.
      cbn [shr shr_m].
      exists p1, (e + Z.pos k). change (emax - prec) with 971.
      split; [reflexivity|]. split; [lia|].
      replace (e + Z.pos k - e) with (Z.pos k) by lia.
      rewrite Hd. replace (53 + Z.pos k - 1) with (52 + Z.pos k) by lia.
      rewrite !Z.pow_add_r by lia. nia.
  - (* fewer digits: the value is kept as it is *)
    cbn [shr shr_m loc_of_shr_record round_nearest_even].
    rewrite (Hshift m e Hnorm). fold d. rewrite Ek. cbn [shr shr_m].
    exists m, e. change (emax - prec) with 971.
    split; [reflexivity|]. rewrite Z.sub_diag, Z.mul_1_r.
    split; lia.
Qed.

Lemma digits2_pos_iter_xO p k :
  Z.pos (digits2_pos (Pos.iter xO p k)) = Z.pos (digits2_pos p) + Z.pos k.
Proof.
  induction k as [|k IH] using Pos.peano_ind.
  - simpl. lia.
  - rewrite Pos.iter_succ. cbn [digits2_pos]. rewrite Pos2Z.inj_succ, IH. lia.
Qed.

(** [float(n)] for a positive [n]: an infinity, or a finite value that is
    1 at least. *)
Lemma nearest_float_positive n :
  0 < n ->
  nearest_float n = S754_infinity false
  \/ exists m e, nearest_float n = S754_finite false m e
                 /\ 1 <= Z.pos (digits2_pos m) + e.
Proof.
  intros Hn. destruct n as [|p|p]; [lia| |lia].
  unfold nearest_float. cbn [binary_normalize]. unfold binary_round.
  pose proof (digits2_pos_bounds p) as Hp.
  assert (Hd : 1 <= Z.pos (digits2_pos p)) by lia.
  assert (Hal : exists mz ez,
            shl_align p 0 (fexp prec emax (Z.pos (digits2_pos p) + 0))
            = (mz, ez)
            /\ Z.pos (digits2_pos mz) + ez = Z.pos (digits2_pos p)).
  { unfold shl_align, fexp.
    change (SpecFloat.emin prec emax) with (-1074). change prec with 53.
    destruct (Z.max (Z.pos (digits2_pos p) + 0 - 53) (-1074) - 0)
      as [|k|k] eqn:Ek.
    - exists p, 0. split; [reflexivity | lia].
    - exists p, 0. split; [reflexivity | lia].
    - eexists _, _. split; [reflexivity|].
      rewrite digits2_pos_iter_xO. lia. }
  destruct Hal as (mz & ez & -> & Hz).
  destruct (binary_round_aux_binade mz ez ltac:(lia))
    as (m' & e' & -> & He & Hv).
  destruct (e' <=? 971); [right | now left].
  exists m', e'. split; [reflexivity|].
  pose proof (digits2_pos_bounds m') as [_ Hhi].
  assert (Hpe : 0 < 2 ^ (e' - ez)) by (apply Z.pow_pos_nonneg; lia).
  assert (2 ^ (Z.pos (digits2_pos mz) - 1)
          < 2 ^ (Z.pos (digits2_pos m') + (e' - ez))).
  { rewrite (Z.pow_add_r 2 (Z.pos (digits2_pos m'))) by lia. nia. }
  assert (Z.pos (digits2_pos mz) - 1 < Z.pos (digits2_pos m') + (e' - ez))
    by (apply pow2_lt_inv; lia).
  lia.
Qed.

(** The exact comparisons, on a common scale [2^s]. *)
Lemma int_lt_float_scaled i m e s :
  s <= 0 -> s <= e ->
  int_lt_float i (S754_finite false m e) = true
  <-> i * 2 ^ (- s) < Z.pos m * 2 ^ (e - s).
Proof.
  intros Hs He. cbn [int_lt_float].
  assert (0 < 2 ^ (- s)) by (apply Z.pow_pos_nonneg; lia).
  destruct (0 <=? e) eqn:E0.
  - rewrite Z.ltb_lt. replace (e - s) with (e + - s) by lia.
    rewrite Z.pow_add_r by lia. nia.
  - rewrite Z.ltb_lt.
    assert (0 < 2 ^ (e - s)) by (apply Z.pow_pos_nonneg; lia).
    replace (- s) with (- e + (e - s)) by lia.
    rewrite Z.pow_add_r by lia. nia.
Qed.

Lemma float_lt_int_scaled i m e s :
  s <= 0 -> s <= e ->
  float_lt_int (S754_finite false m e) i = true
  <-> Z.pos m * 2 ^ (e - s) < i * 2 ^ (- s).
Proof.
  intros Hs He. cbn [float_lt_int].
  assert (0 < 2 ^ (- s)) by (apply Z.pow_pos_nonneg; lia).
  destruct (0 <=? e) eqn:E0.
  - rewrite Z.ltb_lt. replace (e - s) with (e + - s) by lia.
    rewrite Z.pow_add_r by lia. nia.
  - rewrite Z.ltb_lt.
    assert (0 < 2 ^ (e - s)) by (apply Z.pow_pos_nonneg; lia).
    replace (- s) with (- e + (e - s)) by lia.
    rewrite Z.pow_add_r by lia. nia.
Qed.

(** ** The position windows (C3) *)

(** For a finite [x >= 1], [x * 0.3] rounds to at most what [x * 0.7]
    rounds to: no integer is below the first and above the second. *)
Lemma windows_disjoint_finite i m e :
  1 <= Z.pos (digits2_pos m) + e ->
  int_lt_float i (fmul (S754_finite false m e) py_0_3) = true ->
  float_lt_int (fmul (S754_finite false m e) py_0_7) i = true ->
  False.
Proof.
  intros Hmag H3 H7. unfold fmul, py_0_3, py_0_7 in *.
  cbn [SFmul xorb] in *.
  set (m3 := (m * 5404319552844595)%positive) in *.
  set (m7 := (m * 6305039478318694)%positive) in *.
  pose proof (digits2_pos_mul m 5404319552844595) as Hd3. fold m3 in Hd3.
  pose proof (digits2_pos_mul m 6305039478318694) as Hd7. fold m7 in Hd7.
  change (Z.pos (digits2_pos 5404319552844595)) with 53 in Hd3.
  change (Z.pos (digits2_pos 6305039478318694)) with 53 in Hd7.
  assert (Hle : Z.pos (digits2_pos m3) <= Z.pos (digits2_pos m7)).
  { apply digits2_pos_le. unfold m3, m7. nia. }
  destruct (binary_round_aux_binade m3 (e + -54) ltac:(lia))
    as (a & ea & Ea & Hea & Hva).
  destruct (binary_round_aux_binade m7 (e + -53) ltac:(lia))
    as (b & eb & Eb & Heb & Hvb).
  rewrite Ea in H3. rewrite Eb in H7. clear Ea Eb.
  destruct (eb <=? 971) eqn:Eb; [|discriminate H7].
  destruct (ea <=? 971) eqn:Ea; [|lia].
  set (s := Z.min (e + -54) 0).
  apply (int_lt_float_scaled i a ea s) in H3; [|lia|lia].
  apply (float_lt_int_scaled i b eb s) in H7; [|lia|lia].
  set (d3 := Z.pos (digits2_pos m3)) in *.
  set (d7 := Z.pos (digits2_pos m7)) in *.
  set (e3 := e + -54) in *.
  assert (Hs : 0 < 2 ^ (e3 - s)) by (apply Z.pow_pos_nonneg; lia).
  assert (E3 : 2 ^ (ea - s) = 2 ^ (ea - e3) * 2 ^ (e3 - s)).
  { rewrite <- Z.pow_add_r by lia. f_equal. lia. }
  assert (E7 : 2 ^ (eb - s) = 2 ^ (eb - (e + -53)) * (2 * 2 ^ (e3 - s))).
  { replace (eb - s) with ((eb - (e + -53)) + (1 + (e3 - s))) by lia.
    rewrite !Z.pow_add_r by lia. reflexivity. }
  rewrite E3 in H3. rewrite E7 in H7. clear E3 E7.
  assert (Hpow : 2 ^ d3 <= 2 ^ d7) by (apply Z.pow_le_mono_r; lia).
  assert (Hd7' : 2 ^ d7 = 2 * 2 ^ (d7 - 1)).
  { replace d7 with (1 + (d7 - 1)) at 1 by lia.
    rewrite Z.pow_add_r by lia. reflexivity. }
  rewrite !Z.mul_assoc in H3, H7.
  remember (2 ^ (e3 - s)) as P eqn:EP.
  remember (Z.pos a * 2 ^ (ea - e3)) as A eqn:EA.
  remember (Z.pos b * 2 ^ (eb - (e + -53))) as B eqn:EB.
  assert (HAB : A * P <= 2 * B * P)
    by (apply Z.mul_le_mono_nonneg_r; lia).
  lia.
Qed.

Lemma windows_disjoint i n :
  0 <= n -> in_first_30 i n && in_last_30 i n = false.
Proof.
  intros Hn. unfold in_first_30, in_last_30, nearest_mul_float.
  destruct (Z.eq_dec n 0) as [->|Hne].
  - cbn. destruct (i <? 0) eqn:E1, (0 <? i) eqn:E2; try reflexivity. lia.
  - destruct (nearest_float_positive n ltac:(lia)) as [->|(m & e & -> & Hmag)].
    + reflexivity.
    + destruct (int_lt_float i _) eqn:E3; [|reflexivity].
      destruct (float_lt_int _ i) eqn:E7; [|reflexivity].
      exfalso. exact (windows_disjoint_finite i m e Hmag E3 E7).
Qed.

Example position_bonus_ninety :
  position_bonus 63 90 = py_1_1 /\ position_bonus 27 90 = py_1_0
  /\ position_bonus 26 90 = py_1_2 /\ position_bonus 0 1 = py_1_2.
Proof. repeat split; reflexivity. Qed.

(** * Further properties of the code *)

(** ** The normaliser *)

Lemma lstrip_nil_iff s : lstrip s = [] <-> Forall (fun c => isspace c = true) s.
Proof.
  split; [|apply lstrip_all_space].
  induction s as [|c r IH]; simpl; [constructor|].
  destruct (isspace c) eqn:E; [|discriminate]. intros H. constructor; auto.
Qed.

Lemma lstrip_decompose s :
  exists ws, Forall (fun c => isspace c = true) ws /\ s = ws ++ lstrip s.
Proof.
  induction s as [|c r (ws & Hws & IH)]; simpl; [exists []; auto|].
  destruct (isspace c) eqn:E.
  - exists (c :: ws). split; [constructor; auto|]. simpl. now f_equal.
  - exists []. auto.
Qed.

Lemma rstrip_decompose s :
  exists ws, Forall (fun c => isspace c = true) ws /\ s = rstrip s ++ ws.
Proof.
  destruct (lstrip_decompose (rev s)) as (ws & Hws & E).
  exists (rev ws). split; [now apply Forall_rev|].
  unfold rstrip. rewrite <- rev_app_distr, <- E. now rewrite rev_involutive.
Qed.

Lemma strip_nil_iff s : strip s = [] <-> Forall (fun c => isspace c = true) s.
Proof.
  unfold strip, rstrip. split.
  - intros H. apply (f_equal (@rev ascii)) in H.
    rewrite rev_involutive in H. simpl in H.
    apply lstrip_nil_iff in H. apply Forall_rev in H.
    rewrite rev_involutive in H.
    destruct (lstrip_decompose s) as (ws & Hws & E).
    rewrite E. apply Forall_app. split; assumption.
  - intros H. apply lstrip_nil_iff in H. now rewrite H.
Qed.

(** X1: what the normaliser returns holds only kept code points (word code
    points, the space, and [.,!?;:-()]); its only whitespace is the space;
    it neither begins nor ends with whitespace. *)
Theorem clean_text_output_shape text :
  Forall (fun c => is_kept c = true) (clean_text text)
  /\ Forall (fun c => isspace c = true -> c = " "%char) (clean_text text)
  /\ (forall c r, clean_text text = c :: r -> isspace c = false)
  /\ (forall u d, clean_text text = u ++ [d] -> isspace d = false).
Proof.
  destruct (clean_text_is_normal_form text) as [Hp Ht].
  split; [|split; [|split]].
  - eapply Forall_impl; [exact Hp|]. simpl. tauto.
  - eapply Forall_impl; [exact Hp|]. simpl. tauto.
  - intros c r E. rewrite E in Ht. exact (trimmed_head _ _ Ht).
  - intros u d E. rewrite E in Ht. exact (trimmed_last _ _ Ht).
Qed.

(** X2: the texts that the normaliser leaves unchanged are exactly the
    texts in its output form that have no two adjacent spaces. *)
Theorem clean_text_fixed_points s :
  clean_text s = s <-> normal_form s /\ has_double_space s = false.
Proof.
  assert (G : normal_form s ->
              (clean_text s = s <-> has_double_space s = false)).
  { intros Hn. rewrite (clean_text_normal_form _ Hn).
    apply (sub_ws_runs_fixed s).
    destruct Hn as [Hp _]. eapply Forall_impl; [exact Hp|]. simpl. tauto. }
  split.
  - intros E. assert (Hn : normal_form s).
    { rewrite <- E. apply clean_text_is_normal_form. }
    split; [exact Hn | now apply G].
  - intros [Hn Hd]. now apply G.
Qed.

Lemma filter_sub_ws_runs_all_space b s :
  Forall (fun c => isspace c = true) (List.filter is_kept (sub_ws_runs b s))
  <-> Forall (fun c => isspace c = true \/ is_kept c = false) s.
Proof.
  revert b. induction s as [|c r IH]; intros b; simpl.
  - split; constructor.
  - rewrite Forall_cons. destruct (isspace c) eqn:E.
    + destruct b; simpl; rewrite ?is_kept_space, ?Forall_cons, IH; tauto.
    + simpl. destruct (is_kept c) eqn:Ek; rewrite ?Forall_cons, IH.
      * rewrite E. split; [intros [? _] | intros [[?|?] _]]; congruence.
      * tauto.
Qed.

(** X3: the normaliser returns the empty string exactly when every code
    point of the text is whitespace or is one that it deletes. *)
Theorem clean_text_empty_iff text :
  clean_text text = []
  <-> Forall (fun c => isspace c = true \/ is_kept c = false) text.
Proof.
  unfold clean_text. rewrite strip_nil_iff. apply filter_sub_ws_runs_all_space.
Qed.

Lemma strip_length s : (length (strip s) <= length s)%nat.
Proof.
  unfold strip, rstrip. rewrite length_rev.
  pose proof (lstrip_length (rev (lstrip s))) as H1.
  pose proof (lstrip_length s) as H2. rewrite length_rev in H1. lia.
Qed.

Lemma split_go_sub_ws_runs s :
  (forall w, split_go w (sub_ws_runs false s) = split_go w s)
  /\ split_go [] (sub_ws_runs true s) = split_go [] s.
Proof.
  induction s as [|c r [IHf IHt]]; simpl; [auto|].
  destruct (isspace c) eqn:E; simpl.
  - split; [intros w; now rewrite IHt | exact IHt].
  - rewrite E. split; [intros w|]; apply IHf.
Qed.

Lemma split_go_filter_length w' w s :
  (w' <> [] -> w <> []) ->
  (length (split_go w' (List.filter is_kept s)) <= length (split_go w s))%nat.
Proof.
  revert w' w. induction s as [|c r IH]; intros w' w Hw; simpl.
  - destruct w'; simpl; [lia|]. destruct w; simpl; [|lia].
    exfalso. now apply Hw.
  - assert (Hf : (length (flush w') <= length (flush w))%nat).
    { destruct w'; simpl; [lia|]. destruct w; simpl; [|lia].
      exfalso. now apply Hw. }
    destruct (isspace c) eqn:E.
    + rewrite (isspace_is_kept _ E). simpl. rewrite E.
      rewrite !length_app. specialize (IH [] [] ltac:(tauto)). lia.
    + destruct (is_kept c); simpl; rewrite ?E; apply IH.
      * intros _. now destruct w.
      * intros _. now destruct w.
Qed.

Lemma split_go_trailing_space w s ws :
  Forall (fun c => isspace c = true) ws -> split_go w (s ++ ws) = split_go w s.
Proof.
  intros Hws. revert w. induction s as [|c r IH]; intros w; simpl.
  - revert w. induction Hws as [|x ws Hx _ IHws]; intros w; [reflexivity|].
    simpl. rewrite Hx, (IHws []). simpl. now rewrite app_nil_r.
  - destruct (isspace c); now rewrite IH.
Qed.

Lemma split_lstrip s : split (lstrip s) = split s.
Proof.
  unfold split. induction s as [|c r IH]; simpl; [reflexivity|].
  destruct (isspace c) eqn:E; [exact IH|]. simpl. now rewrite E.
Qed.

Lemma split_strip s : split (strip s) = split s.
Proof.
  unfold strip. destruct (rstrip_decompose (lstrip s)) as (ws & Hws & E).
  rewrite <- (split_lstrip s). rewrite E at 2. unfold split.
  now rewrite split_go_trailing_space.
Qed.

Lemma clean_text_never_grows_length text :
  (length (clean_text text) <= length text)%nat.
Proof.
  unfold clean_text.
  pose proof (strip_length (List.filter is_kept (sub_ws_runs false text))).
  pose proof (filter_length_le is_kept (sub_ws_runs false text)).
  pose proof (sub_ws_runs_length false text). lia.
Qed.

(** X4: normalising never makes a text longer and never adds a word: the
    word count that the budgeted summariser compares with its target is at
    most the word count of the raw text. *)
Theorem clean_text_never_grows text :
  (length (clean_text text) <= length text)%nat
  /\ (length (split (clean_text text)) <= length (split text))%nat.
Proof.
  split; [apply clean_text_never_grows_length|].
  unfold clean_text.
  - rewrite split_strip. unfold split.
    destruct (split_go_sub_ws_runs text) as [Hf _]. rewrite <- (Hf []).
    apply split_go_filter_length. tauto.
Qed.

(** ** The simple sentence splitter *)

(** X5: every sentence of the simple splitter has more than 10 code points
    and neither begins nor ends with whitespace. *)
Theorem simple_sent_tokenize_sentences text :
  Forall (fun s => trimmed s /\ 10 < len s) (simple_sent_tokenize text).
Proof.
  unfold simple_sent_tokenize. apply Forall_forall. intros s Hs.
  apply list_elem_of_In, in_map_iff in Hs as (x & <- & Hx).
  apply filter_In in Hx as [_ Hx]. apply andb_true_iff in Hx as [_ Hx].
  split; [apply strip_trimmed | lia].
Qed.

Lemma upper_after_ws_none s :
  Forall (fun c => is_upper_az c = false) s -> upper_after_ws s = false.
Proof.
  intros H. unfold upper_after_ws.
  pose proof (lstrip_Forall _ s H) as Hl.
  destruct (lstrip s); [reflexivity | now inversion Hl].
Qed.

Lemma re_split_go_no_upper prev cur s :
  Forall (fun c => is_upper_az c = false) s ->
  re_split_go prev false cur s = [cur ++ s].
Proof.
  intros H. revert prev cur. induction H as [|c r Hc Hr IH]; intros prev cur;
    simpl; [now rewrite app_nil_r|].
  rewrite (upper_after_ws_none r Hr), andb_false_r, IH.
  rewrite <- app_assoc. now destruct (isspace c).
Qed.

Lemma re_split_go_no_punct prev cur s :
  is_end_punct prev = false ->
  Forall (fun c => is_end_punct (Some c) = false) s ->
  re_split_go prev false cur s = [cur ++ s].
Proof.
  intros Hp H. revert prev cur Hp.
  induction H as [|c r Hc Hr IH]; intros prev cur Hp;
    simpl; [now rewrite app_nil_r|].
  rewrite Hp, andb_false_l, (IH (Some c) _ Hc).
  rewrite <- app_assoc. now destruct (isspace c).
Qed.

(** X6: a text without [.], [!] and [?], or without a capital letter
    [A-Z], is never split: it is one sentence, the stripped text, when that
    has more than 10 code points, and no sentence otherwise. *)
Theorem simple_sent_tokenize_unsplit text :
  Forall (fun c => is_end_punct (Some c) = false) text
  \/ Forall (fun c => is_upper_az c = false) text ->
  simple_sent_tokenize text
  = if 10 <? len (strip text) then [strip text] else [].
Proof.
  intros H. unfold simple_sent_tokenize, re_split_sentences.
  assert (E : re_split_go None false [] text = [text]).
  { destruct H as [H|H].
    - now rewrite re_split_go_no_punct.
    - now rewrite re_split_go_no_upper. }
  rewrite E. simpl.
  destruct (10 <? len (strip text)) eqn:E10.
  - assert (En : (len (strip text) =? 0) = false) by lia.
    rewrite En. reflexivity.
  - now rewrite andb_false_r.
Qed.

Lemma simple_sent_tokenize_unsplit_witness :
  simple_sent_tokenize (py "  no full stop here, Only commas  ")
  = [py "no full stop here, Only commas"].
Proof.
  apply (simple_sent_tokenize_unsplit (py "  no full stop here, Only commas  ")).
  left. apply Forall_forall. intros c Hc.
  apply list_elem_of_In in Hc. simpl in Hc.
  repeat (destruct Hc as [<-|Hc]; [reflexivity|]). destruct Hc.
Defined.

Lemma substring_of_trans x y z :
  substring_of x y -> substring_of y z -> substring_of x z.
Proof.
  intros (a & b & ->) (a' & b' & ->). exists (a' ++ a), (b ++ b').
  now rewrite <- !app_assoc.
Qed.

Lemma strip_substring s : substring_of (strip s) s.
Proof.
  destruct (lstrip_decompose s) as (ws & _ & E).
  destruct (rstrip_decompose (lstrip s)) as (ws' & _ & E').
  exists ws, ws'. unfold strip. now rewrite <- E', <- E.
Qed.

Lemma re_split_go_substrings pre prev skipping cur s :
  (exists a, pre = a ++ cur) -> (skipping = true -> cur = []) ->
  Forall (fun x => substring_of x (pre ++ s))
    (re_split_go prev skipping cur s).
Proof.
  revert pre prev skipping cur.
  induction s as [|c r IH]; intros pre prev skipping cur [a Ha] Hsk; simpl.
  - constructor; [|constructor]. exists a, []. now rewrite !app_nil_r.
  - replace (pre ++ c :: r) with ((pre ++ [c]) ++ r)
      by now rewrite <- app_assoc.
    assert (Hgrow : forall p, Forall (fun x => substring_of x ((pre ++ [c]) ++ r))
              (re_split_go p false (cur ++ [c]) r)).
    { intros p. apply IH; [|discriminate].
      exists a. now rewrite Ha, app_assoc. }
    assert (Hfresh : forall p, Forall (fun x => substring_of x ((pre ++ [c]) ++ r))
              (re_split_go p true [] r)).
    { intros p. apply IH; [|reflexivity].
      exists (pre ++ [c]). now rewrite app_nil_r. }
    destruct (isspace c); [|apply Hgrow].
    destruct skipping.
    + rewrite (Hsk eq_refl). apply Hfresh.
    + destruct (_ && _); [|apply Hgrow].
      constructor; [|apply Hfresh].
      exists a, (c :: r). rewrite Ha, <- !app_assoc. reflexivity.
Qed.

(** X7: every sentence of the simple splitter stands in the text as it is:
    it is a run of consecutive code points of the text. *)
Theorem simple_sent_tokenize_substrings text :
  Forall (fun s => substring_of s text) (simple_sent_tokenize text).
Proof.
  unfold simple_sent_tokenize, re_split_sentences.
  apply Forall_forall. intros s Hs.
  apply list_elem_of_In, in_map_iff in Hs as (x & <- & Hx).
  apply filter_In in Hx as [Hx _]. apply list_elem_of_In in Hx.
  eapply substring_of_trans; [apply strip_substring|].
  assert (H : Forall (fun x => substring_of x text)
                (re_split_go None false [] text)).
  { apply (re_split_go_substrings [] None false [] text);
      [now exists [] | discriminate]. }
  rewrite Forall_forall in H. now apply H.
Qed.

Lemma re_split_go_spread prev skipping cur s :
  (spread (re_split_go prev skipping cur s) <= length cur + length s + 1)%nat.
Proof.
  revert prev skipping cur. induction s as [|c r IH]; intros prev skipping cur;
    simpl; [lia|].
  assert (Hgrow : forall p,
            (spread (re_split_go p false (cur ++ [c]) r)
             <= length cur + S (length r) + 1)%nat).
  { intros p. pose proof (IH p false (cur ++ [c])) as H.
    rewrite length_app in H. simpl in H. lia. }
  destruct (isspace c); [|apply Hgrow].
  destruct skipping.
  - pose proof (IH (Some c) true cur). lia.
  - destruct (_ && _); [|apply Hgrow].
    simpl. pose proof (IH (Some c) true []) as H. simpl in H. lia.
Qed.

Lemma spread_map_strip_filter (P : str -> bool) l :
  (spread (map strip (List.filter P l)) <= spread l)%nat.
Proof.
  induction l as [|x l IH]; simpl; [lia|].
  destruct (P x); simpl; [|lia]. pose proof (strip_length x). lia.
Qed.

Lemma spread_sublist (l1 l2 : list str) :
  l1 `sublist_of` l2 -> (spread l1 <= spread l2)%nat.
Proof. induction 1; simpl; lia. Qed.

Lemma join_space_length l :
  l <> [] -> (length (join (py " ") l) + 1 = spread l)%nat.
Proof.
  induction l as [|x l IH]; [congruence|]. intros _.
  destruct l as [|y l]; [simpl; lia|].
  change (join (py " ") (x :: y :: l))
    with (x ++ " "%char :: join (py " ") (y :: l)).
  rewrite length_app. cbn [length spread fold_right].
  specialize (IH ltac:(discriminate)). cbn [spread fold_right] in IH. lia.
Qed.

Lemma summary_sentences_sublist nltk sentences num_sentences :
  summary_sentences nltk sentences num_sentences `sublist_of` sentences.
Proof.
  unfold summary_sentences.
  destruct (_ <=? _); [reflexivity | apply sublist_filter].
Qed.

(** X8: with the simple splitter the extractive summary is never longer
    than the normalised text, hence never longer than the text. *)
Theorem extractive_summary_not_longer text num_sentences :
  (length (extractive_summarize None (PyStr text) num_sentences)
   <= length (clean_text text) <= length text)%nat.
Proof.
  split; [|apply clean_text_never_grows_length].
  unfold extractive_summarize, extractive_body. cbn [expect_str soft_fail].
  set (cleaned := clean_text text).
  set (sentences := tokenize_sentences None cleaned).
  set (out := summary_sentences None sentences num_sentences).
  destruct out as [|x out'] eqn:E; [simpl; lia|].
  pose proof (join_space_length (x :: out') ltac:(discriminate)) as Hj.
  assert (Hs : (spread (x :: out') <= spread sentences)%nat).
  { rewrite <- E. apply spread_sublist, summary_sentences_sublist. }
  assert (Hp : (spread sentences <= length cleaned + 1)%nat).
  { unfold sentences, tokenize_sentences, simple_sent_tokenize,
      re_split_sentences.
    etransitivity; [apply spread_map_strip_filter|].
    pose proof (re_split_go_spread None false [] cleaned) as H.
    simpl in H. lia. }
  lia.
Qed.

(** ** The simple word tokeniser *)

Lemma lower_char_letter c :
  is_letter (lower_char c) = true -> is_lower_az (lower_char c) = true.
Proof. destruct c as [[] [] [] [] [] [] [] []]; vm_compute; congruence. Qed.

Lemma lower_char_lower_az c : is_lower_az c = true -> lower_char c = c.
Proof. destruct c as [[] [] [] [] [] [] [] []]; vm_compute; congruence. Qed.

Lemma is_lower_az_is_letter c : is_lower_az c = true -> is_letter c = true.
Proof. unfold is_lower_az, is_letter. intros ->. apply orb_true_r. Qed.

Lemma runs_go_chars p w s x c :
  x ∈ runs_go p w s -> c ∈ x -> c ∈ w \/ c ∈ s.
Proof.
  revert w. induction s as [|d r IH]; intros w Hx Hc; simpl in Hx.
  - destruct w; simpl in Hx; [now apply elem_of_nil in Hx|].
    apply list_elem_of_singleton in Hx. subst x. now left.
  - destruct (p d).
    + destruct (IH _ Hx Hc) as [H|H].
      * apply elem_of_app in H as [H|H]; [now left|].
        apply list_elem_of_singleton in H. subst. right. left.
      * right. now right.
    + apply elem_of_app in Hx as [Hx|Hx].
      * destruct w; simpl in Hx; [now apply elem_of_nil in Hx|].
        apply list_elem_of_singleton in Hx. subst x. now left.
      * destruct (IH _ Hx Hc) as [H|H]; [now apply elem_of_nil in H|].
        right. now right.
Qed.

Lemma simple_word_tokenize_as_runs text :
  simple_word_tokenize text
  = List.filter letters_only (runs is_word (lower text)).
Proof.
  unfold simple_word_tokenize, re_findall_words.
  destruct (findall_go_spec (length (lower text)) (lower text)) as [H _];
    [lia|]. now apply H.
Qed.

Lemma letter_runs_lowercase text w :
  w ∈ List.filter letters_only (runs is_word (lower text)) ->
  (2 <= length w)%nat /\ Forall (fun c => is_lower_az c = true) w.
Proof.
  intros Hw. apply list_elem_of_In, filter_In in Hw as [Hin Hl].
  apply list_elem_of_In in Hin.
  unfold letters_only in Hl. apply andb_true_iff in Hl as [Hl H2].
  split; [now apply Nat.leb_le|].
  apply Forall_forall. intros c Hc.
  assert (Hletter : is_letter c = true).
  { rewrite forallb_forall in Hl. apply Hl. now apply list_elem_of_In. }
  destruct (runs_go_chars _ _ _ _ _ Hin Hc) as [H|H];
    [now apply elem_of_nil in H|].
  unfold lower in H. apply list_elem_of_In, in_map_iff in H as (c' & <- & _).
  now apply lower_char_letter.
Qed.

(** X9: every token of the simple tokeniser is made of two or more
    lowercase letters [a-z]: no capital, digit, underscore or accented
    letter comes out of it. *)
Theorem simple_word_tokenize_tokens text :
  Forall (fun w => (2 <= length w)%nat
                   /\ Forall (fun c => is_lower_az c = true) w)
    (simple_word_tokenize text).
Proof.
  rewrite simple_word_tokenize_as_runs. apply Forall_forall.
  intros w Hw. exact (letter_runs_lowercase text w Hw).
Qed.

Lemma lower_join_tokens ws :
  Forall (fun w => Forall (fun c => is_lower_az c = true) w) ws ->
  lower (join (py " ") ws) = join (py " ") ws.
Proof.
  assert (Hw : forall w, Forall (fun c => is_lower_az c = true) w ->
                         lower w = w).
  { induction 1 as [|c w Hc _ IH]; simpl; [reflexivity|].
    now rewrite (lower_char_lower_az _ Hc), IH. }
  induction 1 as [|w ws H _ IH]; [reflexivity|].
  destruct ws as [|w' ws]; [simpl; now apply Hw|].
  change (join (py " ") (w :: w' :: ws))
    with (w ++ " "%char :: join (py " ") (w' :: ws)).
  unfold lower at 1. rewrite map_app. cbn [map].
  fold (lower w). fold (lower (join (py " ") (w' :: ws))).
  rewrite IH, (Hw w H). reflexivity.
Qed.

Lemma runs_join_words ws :
  Forall (fun w => w <> [] /\ forallb is_word w = true) ws ->
  runs is_word (join (py " ") ws) = ws.
Proof.
  induction 1 as [|w ws [Hne Hw] _ IH]; [reflexivity|].
  destruct w as [|c u]; [congruence|].
  destruct ws as [|w' ws].
  - simpl join. pose proof (runs_cons_run is_word c u [] Hw I) as E.
    rewrite app_nil_r in E. exact E.
  - change (join (py " ") ((c :: u) :: w' :: ws))
      with ((c :: u) ++ " "%char :: join (py " ") (w' :: ws)).
    rewrite (runs_cons_run is_word c u _ Hw) by reflexivity.
    rewrite runs_skip by reflexivity. now rewrite IH.
Qed.

(** X10: tokenising is stable: the tokens of a text, joined by spaces and
    tokenised again, are the same tokens. *)
Theorem simple_word_tokenize_round_trip text :
  simple_word_tokenize (join (py " ") (simple_word_tokenize text))
  = simple_word_tokenize text.
Proof.
  assert (H : Forall (fun w => (2 <= length w)%nat
                        /\ Forall (fun c => is_lower_az c = true) w)
                (simple_word_tokenize text)).
  { rewrite simple_word_tokenize_as_runs. apply Forall_forall.
    intros w Hw. exact (letter_runs_lowercase text w Hw). }
  set (ws := simple_word_tokenize text) in *.
  rewrite simple_word_tokenize_as_runs.
  rewrite lower_join_tokens
    by (eapply Forall_impl; [exact H|]; simpl; tauto).
  rewrite runs_join_words.
  - induction H as [|w l [H2 Hl] _ IH]; [reflexivity|].
    simpl. unfold letters_only at 1.
    assert (E : forallb is_letter w = true).
    { apply forallb_forall. intros c Hc. apply is_lower_az_is_letter.
      rewrite Forall_forall in Hl. apply Hl. now apply list_elem_of_In. }
    rewrite E. apply Nat.leb_le in H2. rewrite H2. simpl. now rewrite IH.
  - eapply Forall_impl; [exact H|]. simpl. intros w [H2 Hl]. split.
    + destruct w; [simpl in H2; lia | discriminate].
    + apply forallb_forall. intros c Hc.
      apply is_letter_is_word, is_lower_az_is_letter.
      rewrite Forall_forall in Hl. apply Hl. now apply list_elem_of_In.
Qed.

(** ** The frequency map *)

Section DictLookup.
Context {K V : Type} `{EqDecision K}.
Implicit Types (d : list (K * V)) (k : K) (v : V).

Lemma dict_get_set d k v k' :
  dict_get (dict_set d k v) k'
  = if decide (k = k') then Some v else dict_get d k'.
Proof.
  induction d as [|[k0 v0] rest IH]; simpl.
  - destruct (decide (k = k')); reflexivity.
  - destruct (decide (k0 = k)) as [->|Hne]; simpl.
    + destruct (decide (k = k')); reflexivity.
    + rewrite IH. destruct (decide (k0 = k')) as [->|]; [|reflexivity].
      destruct (decide (k = k')); [congruence | reflexivity].
Qed.

Lemma dict_get_elem d k v :
  NoDup (dict_keys d) -> (k, v) ∈ d -> dict_get d k = Some v.
Proof.
  unfold dict_keys. induction d as [|[k0 v0] rest IH]; simpl; intros Hnd Hin.
  - now apply elem_of_nil in Hin.
  - apply NoDup_cons in Hnd as [Hnotin Hnd].
    apply elem_of_cons in Hin as [Heq|Hin].
    + injection Heq as -> ->. now destruct (decide (k0 = k0)).
    + destruct (decide (k0 = k)) as [->|]; [|now apply IH].
      exfalso. apply Hnotin. apply list_elem_of_In, in_map_iff.
      exists (k, v). split; [reflexivity | now apply list_elem_of_In].
Qed.

Lemma dict_get_Some_elem d k v : dict_get d k = Some v -> (k, v) ∈ d.
Proof.
  induction d as [|[k0 v0] rest IH]; simpl; [discriminate|].
  destruct (decide (k0 = k)) as [->|].
  - intros [= ->]. left.
  - intros H. right. now apply IH.
Qed.
End DictLookup.

Lemma occurrences_nil w : occurrences w [] = 0.
Proof. reflexivity. Qed.

Lemma occurrences_cons w x l :
  occurrences w (x :: l)
  = (if decide (x = w) then 1 else 0) + occurrences w l.
Proof.
  unfold occurrences, len. rewrite filter_cons.
  destruct (decide (x = w)); simpl; lia.
Qed.

Lemma occurrences_app w l1 l2 :
  occurrences w (l1 ++ l2) = occurrences w l1 + occurrences w l2.
Proof.
  unfold occurrences, len. rewrite filter_app, length_app. lia.
Qed.

Lemma occurrences_nonneg w l : 0 <= occurrences w l.
Proof. unfold occurrences, len. lia. Qed.

Lemma occurrences_pos w l : 0 < occurrences w l <-> w ∈ l.
Proof.
  induction l as [|x l IH]; [rewrite occurrences_nil, elem_of_nil; lia|].
  rewrite occurrences_cons, elem_of_cons.
  pose proof (occurrences_nonneg w l).
  destruct (decide (x = w)) as [->|Hne]; [split; [auto | lia]|].
  rewrite <- IH. split; [intros; right; lia | intros [?|?]; [congruence | lia]].
Qed.

(** Counting the words that pass a test into a dictionary. *)
Lemma tally_get (P : str -> bool) (words : list str) (d : list (str * Z)) w :
  dict_get
    (fold_left
       (fun d word =>
          if P word then dict_set d word (default 0 (dict_get d word) + 1)
          else d)
       words d) w
  = if P w && (0 <? occurrences w words)
    then Some (default 0 (dict_get d w) + occurrences w words)
    else dict_get d w.
Proof.
  revert d. induction words as [|x words IH]; intros d; simpl.
  - rewrite occurrences_nil, andb_false_r. reflexivity.
  - rewrite IH, occurrences_cons. pose proof (occurrences_nonneg w words) as Hn.
    destruct (decide (x = w)) as [->|Hne].
    + destruct (P w) eqn:EP; simpl.
      * rewrite dict_get_set. destruct (decide (w = w)); [|congruence].
        simpl. replace (0 <? 1 + occurrences w words) with true by lia.
        destruct (0 <? occurrences w words) eqn:E0.
        -- f_equal. lia.
        -- f_equal. lia.
      * reflexivity.
    + destruct (P x) eqn:EPx; [|reflexivity].
      rewrite dict_get_set. destruct (decide (x = w)); [congruence|].
      reflexivity.
Qed.

Lemma build_word_freq_get_from nltk stop_words sentences d w :
  dict_get
    (fold_left
       (fun word_freq sentence =>
          count_words stop_words word_freq (tokenize_words nltk sentence))
       sentences d) w
  = if qualifies stop_words w && (0 <? occurrences w (all_tokens nltk sentences))
    then Some (default 0 (dict_get d w)
               + occurrences w (all_tokens nltk sentences))
    else dict_get d w.
Proof.
  revert d. induction sentences as [|s rest IH]; intros d; simpl.
  - rewrite occurrences_nil, andb_false_r. reflexivity.
  - rewrite IH. unfold count_words at 1 2. rewrite tally_get.
    unfold all_tokens in *. rewrite occurrences_app.
    pose proof (occurrences_nonneg w (tokenize_words nltk s)) as H1.
    pose proof (occurrences_nonneg w (flat_map (tokenize_words nltk) rest))
      as H2.
    destruct (qualifies stop_words w); simpl; [|reflexivity].
    destruct (0 <? occurrences w (tokenize_words nltk s)) eqn:E1,
             (0 <? occurrences w (flat_map (tokenize_words nltk) rest)) eqn:E2;
      simpl.
    + replace (0 <? _ + _) with true by lia. f_equal. lia.
    + replace (0 <? _ + _) with true by lia. f_equal. lia.
    + replace (0 <? _ + _) with true by lia. f_equal. lia.
    + replace (0 <? _ + _) with false by lia. reflexivity.
Qed.

(** X11: the frequency map of the extractive summariser holds, for every
    token that passes the filter (no stopword, more than 2 code points,
    alphanumeric), the number of its occurrences among the tokens of all
    sentences, and holds no other key. *)
Theorem build_word_freq_counts nltk stop_words sentences w :
  dict_get (build_word_freq nltk stop_words sentences) w
  = if qualifies stop_words w && bool_decide (w ∈ all_tokens nltk sentences)
    then Some (occurrences w (all_tokens nltk sentences))
    else None.
Proof.
  unfold build_word_freq. rewrite build_word_freq_get_from. simpl.
  destruct (qualifies stop_words w); simpl; [|reflexivity].
  destruct (bool_decide_reflect (w ∈ all_tokens nltk sentences)) as [Hin|Hnot].
  - apply occurrences_pos in Hin. replace (0 <? _) with true by lia.
    reflexivity.
  - replace (0 <? _) with false; [reflexivity|].
    symmetry. apply Z.ltb_ge.
    destruct (Z.lt_ge_cases 0 (occurrences w (all_tokens nltk sentences)))
      as [H|H]; [|lia].
    apply occurrences_pos in H. contradiction.
Qed.

(** ** The important words *)

Section SortedDesc.
Context {A : Type} (lt : A -> A -> bool) (P : A -> Prop).
Hypothesis lt_asym : forall x y, P x -> P y -> lt x y = true -> lt y x = false.
Hypothesis lt_negtrans :
  forall x y z, P x -> P y -> P z ->
    lt x y = false -> lt y z = false -> lt x z = false.

Lemma insert_desc_descending x l :
  P x -> Forall P l ->
  descending lt l -> descending lt (insert_desc lt x l).
Proof.
  intros Hx. induction l as [|y r IH]; simpl;
    [intros _ _; split; [constructor | exact I]|].
  intros HP [Hy Hr]. apply Forall_cons in HP as [HPy HPr].
  destruct (lt x y) eqn:E; simpl.
  - split; [|now apply IH].
    apply insert_desc_Forall; [now apply lt_asym | exact Hy].
  - split; [|split; assumption].
    constructor; [exact E|].
    rewrite Forall_forall in Hy, HPr. apply Forall_forall. intros z Hz.
    apply (lt_negtrans x y z); auto.
Qed.

Lemma sorted_desc_descending l :
  Forall P l -> descending lt (sorted_desc lt l).
Proof.
  induction 1 as [|x r Hx Hr IH]; simpl; [exact I|].
  apply insert_desc_descending; [exact Hx | now apply sorted_desc_Forall | exact IH].
Qed.

Lemma descending_take_drop k l x y :
  descending lt l -> x ∈ take k l -> y ∈ drop k l -> lt x y = false.
Proof.
  revert k. induction l as [|z r IH]; intros k Hd Hx Hy.
  - rewrite take_nil in Hx. now apply elem_of_nil in Hx.
  - destruct k as [|k]; simpl in *; [now apply elem_of_nil in Hx|].
    destruct Hd as [Hz Hr]. apply elem_of_cons in Hx as [->|Hx].
    + rewrite Forall_forall in Hz. apply Hz.
      eapply elem_of_sublist; [exact Hy | apply sublist_drop].
    + now apply (IH k).
Qed.
End SortedDesc.

Lemma Counter_get words w :
  dict_get (Counter words) w
  = if 0 <? occurrences w words then Some (occurrences w words) else None.
Proof.
  unfold Counter.
  change (fun c word => dict_set c word (default 0 (dict_get c word) + 1))
    with (fun (c : list (str * Z)) word =>
            if (fun _ : str => true) word
            then dict_set c word (default 0 (dict_get c word) + 1) else c).
  rewrite (tally_get (fun _ => true)). simpl. reflexivity.
Qed.

Lemma Counter_NoDup words : NoDup (dict_keys (Counter words)).
Proof.
  unfold Counter.
  assert (G : forall d : list (str * Z), NoDup (dict_keys d) ->
    NoDup (dict_keys (fold_left
      (fun c word => dict_set c word (default 0 (dict_get c word) + 1))
      words d))).
  { induction words as [|x words IH]; intros d Hd; simpl; [exact Hd|].
    apply IH. now apply dict_keys_set_NoDup. }
  apply G. constructor.
Qed.

Lemma occurrences_filter (P : str -> bool) w words :
  occurrences w (List.filter P words)
  = if P w then occurrences w words else 0.
Proof.
  induction words as [|x words IH]; simpl.
  - rewrite occurrences_nil. now destruct (P w).
  - destruct (P x) eqn:E.
    + rewrite !occurrences_cons, IH.
      destruct (decide (x = w)) as [->|]; [rewrite E; reflexivity|].
      now destruct (P w).
    + rewrite occurrences_cons, IH.
      destruct (decide (x = w)) as [->|]; [rewrite E; reflexivity|].
      now destruct (P w).
Qed.

(** X12: the important words of the budgeted summariser are at most 30
    distinct counted words of the text (tokens that are no stopword, have
    more than 2 code points and are alphanumeric); no counted word that is
    left out occurs more often than one that is taken; and when fewer than
    30 are taken, every counted word is taken. *)
Theorem important_words_most_frequent nltk text :
  let words := tokenize_words nltk text in
  let important := important_words_of nltk text in
  NoDup important
  /\ (length important <= 30)%nat
  /\ (forall w, w ∈ important -> candidate_word nltk text w)
  /\ (forall w v,
        w ∈ important -> candidate_word nltk text v -> v ∉ important ->
        occurrences v words <= occurrences w words)
  /\ ((length important < 30)%nat ->
      forall v, candidate_word nltk text v -> v ∈ important).
Proof.
  intros words important. unfold candidate_word. fold words.
  set (stop_words := get_stopwords nltk).
  set (c := Counter (List.filter (qualifies stop_words) words)).
  set (lt := fun x y : str * Z => x.2 <? y.2).
  set (sorted := sorted_desc lt c).
  assert (Himp : important = map fst (take 30 sorted)) by reflexivity.
  pose proof (sorted_desc_Permutation lt c) as Hp. fold sorted in Hp.
  pose proof (Counter_NoDup (List.filter (qualifies stop_words) words)) as Hnd.
  fold c in Hnd.
  assert (Hdesc : descending lt sorted).
  { apply (sorted_desc_descending lt (fun _ => True));
      [unfold lt; intros; lia | unfold lt; intros; lia |].
    apply Forall_forall. auto. }
  assert (Hget : forall w n, (w, n) ∈ c <->
            qualifies stop_words w = true /\ w ∈ words
            /\ n = occurrences w words).
  { intros w n. split.
    - intros Hin. apply (dict_get_elem _ _ _ Hnd) in Hin.
      unfold c in Hin. rewrite Counter_get, occurrences_filter in Hin.
      destruct (qualifies stop_words w); [|discriminate].
      destruct (0 <? occurrences w words) eqn:E; [|discriminate].
      injection Hin as <-. split; [reflexivity|]. split; [|reflexivity].
      apply occurrences_pos. lia.
    - intros (Hq & Hw & ->). apply dict_get_Some_elem.
      unfold c. rewrite Counter_get, occurrences_filter, Hq.
      apply occurrences_pos in Hw.
      replace (0 <? occurrences w words) with true by lia. reflexivity. }
  assert (Hsel : forall w, w ∈ important ->
            (w, occurrences w words) ∈ take 30 sorted
            /\ qualifies stop_words w = true /\ w ∈ words).
  { intros w Hw. rewrite Himp in Hw.
    apply list_elem_of_fmap in Hw as ([w' n] & -> & Hin). simpl.
    assert (Hc : (w', n) ∈ c).
    { rewrite <- Hp. eapply elem_of_sublist; [exact Hin | apply sublist_take]. }
    apply Hget in Hc as (Hq & Hw & ->). auto. }
  split; [|split; [|split; [|split]]].
  - rewrite Himp, <- firstn_map.
    eapply sublist_NoDup; [|apply sublist_take].
    unfold dict_keys in Hnd. now rewrite (Permutation_map fst Hp).
  - rewrite Himp, length_map, length_take. lia.
  - intros w Hw. apply Hsel in Hw. tauto.
  - intros w v Hw [Hq Hv] Hnot.
    apply Hsel in Hw as (Hw & _).
    assert (Hc : (v, occurrences v words) ∈ sorted).
    { rewrite Hp. apply Hget. auto. }
    rewrite <- (take_drop 30 sorted) in Hc.
    apply elem_of_app in Hc as [Hc|Hc].
    { exfalso. apply Hnot. rewrite Himp.
      apply list_elem_of_fmap. exists (v, occurrences v words). auto. }
    assert (H := descending_take_drop lt 30 sorted _ _ Hdesc Hw Hc).
    unfold lt in H. simpl in H. lia.
  - intros Hlen v [Hq Hv].
    rewrite Himp, length_map, length_take in Hlen.
    rewrite Himp, take_ge by lia.
    apply list_elem_of_fmap. exists (v, occurrences v words).
    split; [reflexivity|]. rewrite Hp. apply Hget. auto.
Qed.

(** ** The range of the conversion to a float *)

Lemma binary_round_aux_opp m e l :
  binary_round_aux prec emax true m e l
  = SFopp (binary_round_aux prec emax false m e l).
Proof.
  unfold binary_round_aux.
  destruct (shr_fexp prec emax m e l) as [mrs' e'].
  destruct (shr_fexp prec emax _ e' loc_Exact) as [mrs'' e''].
  destruct (shr_m mrs''); [reflexivity| |reflexivity].
  destruct (e'' <=? emax - prec); reflexivity.
Qed.

Lemma nearest_float_neg p :
  nearest_float (Z.neg p) = SFopp (nearest_float (Z.pos p)).
Proof.
  unfold nearest_float. cbn [binary_normalize]. unfold binary_round.
  destruct (shl_align p 0 _) as [mz ez]. apply binary_round_aux_opp.
Qed.

(** The exponent of [float(n)] for a positive [n] of [d] digits is [d - 53]
    or one more. *)
Lemma nearest_float_exponent p :
  let d := Z.pos (digits2_pos p) in
  exists m' e',
    nearest_float (Z.pos p)
    = (if e' <=? 971 then S754_finite false m' e' else S754_infinity false)
    /\ d - 53 <= e' <= d - 52.
Proof.
  intros d. unfold nearest_float. cbn [binary_normalize]. unfold binary_round.
  fold d. assert (Hd : 1 <= d) by (unfold d; lia).
  assert (Hal : exists mz ez,
            shl_align p 0 (fexp prec emax (d + 0)) = (mz, ez)
            /\ Z.pos (digits2_pos mz) + ez = d /\ ez <= d - 53 /\ -1074 <= ez).
  { unfold shl_align, fexp.
    change (SpecFloat.emin prec emax) with (-1074). change prec with 53.
    destruct (Z.max (d + 0 - 53) (-1074) - 0) as [|k|k] eqn:Ek.
    - exists p, 0. fold d. repeat split; lia.
    - exists p, 0. fold d. repeat split; lia.
    - eexists _, _. split; [reflexivity|].
      rewrite digits2_pos_iter_xO. fold d. lia. }
  destruct Hal as (mz & ez & -> & Hz & Hez & Hlo).
  destruct (binary_round_aux_binade mz ez ltac:(lia))
    as (m' & e' & -> & He & _).
  exists m', e'. split; [reflexivity | lia].
Qed.

Lemma nearest_float_in_range n :
  Z.abs n < 2 ^ 1023 -> forall s, nearest_float n <> S754_infinity s.
Proof.
  intros Hn s.
  assert (G : forall p, Z.pos p < 2 ^ 1023 ->
            exists m e, nearest_float (Z.pos p) = S754_finite false m e).
  { intros p Hp. destruct (nearest_float_exponent p) as (m' & e' & E & He).
    pose proof (digits2_pos_bounds p) as [Hlo _].
    assert (Z.pos (digits2_pos p) - 1 < 1023) by (apply pow2_lt_inv; lia).
    rewrite E. replace (e' <=? 971) with true by lia. eauto. }
  destruct n as [|p|p].
  - discriminate.
  - destruct (G p Hn) as (m & e & ->). discriminate.
  - rewrite nearest_float_neg. destruct (G p) as (m & e & ->); [lia|].
    discriminate.
Qed.

Lemma nearest_float_beyond n :
  2 ^ 1024 <= Z.abs n -> exists s, nearest_float n = S754_infinity s.
Proof.
  intros Hn.
  assert (G : forall p, 2 ^ 1024 <= Z.pos p ->
            nearest_float (Z.pos p) = S754_infinity false).
  { intros p Hp. destruct (nearest_float_exponent p) as (m' & e' & E & He).
    pose proof (digits2_pos_bounds p) as [_ Hhi].
    assert (1024 < Z.pos (digits2_pos p)) by (apply pow2_lt_inv; lia).
    rewrite E. replace (e' <=? 971) with false by lia. reflexivity. }
  destruct n as [|p|p].
  - simpl in Hn. exfalso. assert (0 < 2 ^ 1024) by (apply Z.pow_pos_nonneg; lia).
    lia.
  - exists false. now apply G.
  - exists true. rewrite nearest_float_neg, G by lia. reflexivity.
Qed.

Lemma has_float_spec n :
  (Z.abs n < 2 ^ 1023 -> has_float n = true)
  /\ (2 ^ 1024 <= Z.abs n -> has_float n = false).
Proof.
  unfold has_float. split; intros H.
  - pose proof (nearest_float_in_range n H) as Hf.
    destruct (nearest_float n) as [s|s| |s m e]; try reflexivity.
    now destruct (Hf s).
  - destruct (nearest_float_beyond n H) as [s ->]. reflexivity.
Qed.

Lemma int_mul_float_has_float n f :
  int_mul_float n f
  = if has_float n then Return (nearest_mul_float n f)
    else Raise (OverflowError (py "int too large to convert to float")).
Proof.
  unfold int_mul_float, float_of_int, has_float, nearest_mul_float.
  destruct (nearest_float n); reflexivity.
Qed.

(** ** The parts of the budgeted summary *)

Lemma scored_sentences_candidates nltk text sentences :
  Forall (fun x : float * str * Z =>
            x.1.2 ∈ sentences /\ x.2 = len (split x.1.2) /\ 5 <= x.2 <= 50)
    (scored_sentences_of nltk text sentences).
Proof.
  unfold scored_sentences_of. apply sorted_desc_Forall.
  induction sentences as [|s rest IH]; simpl; [constructor|].
  apply Forall_app. split.
  - unfold score_candidate.
    destruct (5 <=? len (split s)) eqn:E1; simpl; [|constructor].
    destruct (len (split s) <=? 50) eqn:E2; simpl; [|constructor].
    destruct (0 <? _); simpl; constructor; [|constructor].
    simpl. split; [left|]. split; [reflexivity | lia].
  - eapply Forall_impl; [exact IH|]. intros x (H1 & H2). split; [|exact H2].
    now right.
Qed.

(** What the loop adds to the parts it starts from: sentences taken whole,
    in the order of the candidates, and then at most one truncated
    sentence, cut so that one word of the target is left unused.  The loop
    fails only on the conversion of the target. *)
Lemma accumulate_parts target_length scored summary_parts total_words :
  Forall counted scored ->
  word_count summary_parts = total_words ->
  match accumulate target_length scored summary_parts total_words with
  | Raise e =>
      has_float target_length = false
      /\ e = OverflowError (py "int too large to convert to float")
  | Return parts =>
      exists whole tail,
        parts = summary_parts ++ whole ++ tail
        /\ whole `sublist_of` map (fun x : float * str * Z => x.1.2) scored
        /\ (tail = []
            \/ exists x,
                 x ∈ scored
                 /\ 10 <= target_length - (total_words + word_count whole)
                 /\ target_length < total_words + word_count whole + x.2
                 /\ tail = [truncated x.1.2
                              (target_length
                               - (total_words + word_count whole))])
  end.
Proof.
  intros Hc. revert summary_parts total_words.
  induction Hc as [|[[score sentence] length] rest Hx Hrest IH];
    intros parts total Hw; cbn [accumulate].
  - exists [], []. rewrite app_nil_r. split; [reflexivity|].
    split; [constructor | now left].
  - simpl in Hx. subst length.
    destruct (total + len (split sentence) <=? target_length) eqn:E1.
    + specialize (IH (parts ++ [sentence]) (total + len (split sentence))).
      destruct (accumulate target_length rest (parts ++ [sentence]) _)
        as [result|e]; [|apply IH; rewrite word_count_snoc; lia].
      destruct IH as (whole & tail & E & Hsub & Htail).
      { rewrite word_count_snoc. lia. }
      exists (sentence :: whole), tail. rewrite E, <- app_assoc.
      split; [reflexivity|]. split; [now constructor|].
      assert (Ewc : word_count (sentence :: whole)
                    = len (split sentence) + word_count whole).
      { unfold word_count, len. simpl. rewrite length_app. lia. }
      rewrite Ewc. destruct Htail as [->|(x & Hin & H10 & Hov & ->)];
        [now left | right].
      exists x. split; [now right|].
      replace (total + (len (split sentence) + word_count whole))
        with (total + len (split sentence) + word_count whole) by lia.
      auto.
    + rewrite int_mul_float_has_float.
      destruct (has_float target_length); [|split; reflexivity].
      destruct (int_lt_float total _).
      * destruct (10 <=? target_length - total) eqn:E2.
        -- exists [], [truncated sentence (target_length - total)].
           split; [reflexivity|]. split; [apply sublist_nil_l | right].
           exists (score, sentence, len (split sentence)).
           change (word_count []) with 0. rewrite Z.add_0_r.
           split; [left|]. simpl. split; [lia|]. split; [lia | reflexivity].
        -- specialize (IH parts total Hw).
           destruct (accumulate target_length rest parts total)
             as [result|e]; [|exact IH].
           destruct IH as (whole & tail & E & Hsub & Htail).
           exists whole, tail. split; [exact E|].
           split; [now apply sublist_cons|].
           destruct Htail as [->|(x & Hin & H)]; [now left | right].
           exists x. split; [now right | exact H].
      * exists [], []. rewrite app_nil_r. split; [reflexivity|].
        split; [apply sublist_nil_l | now left].
Qed.

Lemma truncated_word_count sentence words_remaining :
  10 <= words_remaining ->
  words_remaining < len (split sentence) ->
  len (split (truncated sentence words_remaining)) = words_remaining - 1.
Proof.
  intros H10 Hlen. unfold truncated, slice_to.
  destruct (0 <=? words_remaining - 1) eqn:E; [|lia].
  unfold len in *. rewrite split_truncated_length.
  - rewrite length_take. lia.
  - apply Forall_take, split_wordlike_all.
Qed.

Lemma word_count_app l1 l2 :
  word_count (l1 ++ l2) = word_count l1 + word_count l2.
Proof.
  unfold word_count, len. rewrite map_app, concat_app, length_app. lia.
Qed.

(** X13: when the cleaned text has more words than the target, the
    budgeted summary is made of sentences of the text taken whole, in the
    order of the scored candidates and each of 5 to 50 words, followed by at
    most one sentence of the text that is truncated; a truncated sentence
    comes only when 10 words or more of the target are left, and the summary
    then has one word less than the target.  The one other outcome is the
    text of the overflow error, for a target of [2^1023] or more in
    absolute value, which has no finite binary64. *)
Theorem budgeted_summary_parts nltk text target_length :
  let cleaned := clean_text text in
  let sentences := tokenize_sentences nltk cleaned in
  let scored := scored_sentences_of nltk cleaned sentences in
  let summary := simple_abstractive_summarize nltk (PyStr text) target_length in
  target_length < len (split cleaned) ->
  (exists whole tail,
     summary = join (py " ") (whole ++ tail)
     /\ whole `sublist_of` map (fun x : float * str * Z => x.1.2) scored
     /\ Forall (fun s => s ∈ sentences /\ 5 <= len (split s) <= 50) whole
     /\ (tail = []
         \/ exists s,
              s ∈ sentences
              /\ 10 <= target_length - word_count whole
              /\ tail = [truncated s (target_length - word_count whole)]
              /\ len (split summary) = target_length - 1))
  \/ (summary = overflow_text /\ 2 ^ 1023 <= Z.abs target_length).
Proof.
  intros cleaned sentences scored summary Hlong.
  unfold summary, simple_abstractive_summarize, abstractive_body.
  cbn [expect_str]. fold cleaned. fold sentences. fold scored.
  destruct (len (split cleaned) <=? target_length) eqn:E; [lia|].
  pose proof (scored_sentences_candidates nltk cleaned sentences) as Hcand.
  fold scored in Hcand. rewrite Forall_forall in Hcand.
  pose proof (accumulate_parts target_length scored [] 0
                (scored_sentences_counted _ _ _) eq_refl) as Hacc.
  destruct (accumulate target_length scored [] 0) as [parts|e];
    cbn [soft_fail].
  - left. destruct Hacc as (whole & tail & Eacc & Hsub & Htail).
    simpl in Eacc. subst parts. exists whole, tail.
    split; [reflexivity|]. split; [exact Hsub|]. split.
    + apply Forall_forall. intros s Hs.
      assert (Hin : s ∈ map (fun x : float * str * Z => x.1.2) scored).
      { eapply elem_of_sublist; [exact Hs | exact Hsub]. }
      apply list_elem_of_fmap in Hin as (x & -> & Hx).
      destruct (Hcand x Hx) as (H1 & H2 & H3). split; [exact H1 | lia].
    + destruct Htail as [->|(x & Hx & H10 & Hov & ->)]; [now left | right].
      destruct (Hcand x Hx) as (H1 & H2 & H3).
      exists x.1.2. simpl in H10, Hov. rewrite !Z.add_0_l in *.
      split; [exact H1|]. split; [exact H10|]. split; [reflexivity|].
      rewrite split_join. fold (word_count (whole ++ [truncated x.1.2
        (target_length - word_count whole)])).
      rewrite word_count_snoc, truncated_word_count by lia. lia.
  - right. destruct Hacc as [Hf ->]. split; [reflexivity|].
    destruct (Z.lt_ge_cases (Z.abs target_length) (2 ^ 1023)) as [Hin|];
      [|assumption].
    apply (proj1 (has_float_spec target_length)) in Hin. congruence.
Qed.

Lemma budgeted_summary_parts_witness :
  let text := join (py " ") [long_sentence; very_long_sentence] in
  let cleaned := clean_text text in
  let sentences := tokenize_sentences None cleaned in
  let scored := scored_sentences_of None cleaned sentences in
  let summary := simple_abstractive_summarize None (PyStr text) 30 in
  (exists whole tail,
     summary = join (py " ") (whole ++ tail)
     /\ whole `sublist_of` map (fun x : float * str * Z => x.1.2) scored
     /\ Forall (fun s => s ∈ sentences /\ 5 <= len (split s) <= 50) whole
     /\ (tail = []
         \/ exists s,
              s ∈ sentences
              /\ 10 <= 30 - word_count whole
              /\ tail = [truncated s (30 - word_count whole)]
              /\ len (split summary) = 30 - 1))
  \/ (summary = overflow_text /\ 2 ^ 1023 <= Z.abs 30).
Proof.
  intros text.
  apply (budgeted_summary_parts None text 30). vm_compute. reflexivity.
Defined.

(** The loop takes nothing when every candidate overflows and fewer than 10
    words remain. *)
Lemma accumulate_nothing target_length scored summary_parts total_words :
  Forall (fun x : float * str * Z => target_length < total_words + x.2) scored ->
  target_length - total_words < 10 ->
  accumulate target_length scored summary_parts total_words
  = match scored with
    | [] => Return summary_parts
    | _ :: _ =>
        if has_float target_length then Return summary_parts
        else Raise (OverflowError (py "int too large to convert to float"))
    end.
Proof.
  intros Hall H10.
  induction Hall as [|[[score sentence] length] rest Hx Hrest IH];
    cbn [accumulate]; [reflexivity|].
  simpl in Hx.
  destruct (total_words + length <=? target_length) eqn:E1; [lia|].
  rewrite int_mul_float_has_float.
  destruct (has_float target_length); [|reflexivity].
  destruct (int_lt_float total_words _); [|reflexivity].
  destruct (10 <=? target_length - total_words) eqn:E2; [lia|].
  rewrite IH. now destruct rest.
Qed.

(** X14: with a target below 5 words the budgeted summariser returns the
    cleaned text when it fits the target; when it does not, no candidate
    fits, for none has fewer than 5 words, and the summary is empty, unless
    there is a candidate and the target has no finite binary64: then it is
    the text of the overflow error.  A target above [-2^1023] has a finite
    binary64, a target of [-2^1024] or less has none. *)
Theorem budget_below_five_words nltk text target_length :
  target_length < 5 ->
  let cleaned := clean_text text in
  let scored :=
    scored_sentences_of nltk cleaned (tokenize_sentences nltk cleaned) in
  simple_abstractive_summarize nltk (PyStr text) target_length
  = (if len (split cleaned) <=? target_length then cleaned
     else match scored with
          | [] => []
          | _ :: _ => if has_float target_length then [] else overflow_text
          end)
  /\ (- 2 ^ 1023 < target_length -> has_float target_length = true)
  /\ (target_length <= - 2 ^ 1024 -> has_float target_length = false).
Proof.
  intros Hsmall cleaned scored. split; [|split].
  - unfold simple_abstractive_summarize, abstractive_body. cbn [expect_str].
    fold cleaned. fold scored.
    destruct (len (split cleaned) <=? target_length); cbn [soft_fail];
      [reflexivity|].
    rewrite accumulate_nothing; [| |lia].
    + destruct scored; [reflexivity|].
      destruct (has_float target_length); reflexivity.
    + eapply Forall_impl; [apply scored_sentences_candidates|].
      intros x (_ & _ & H). simpl. lia.
  - intros H. apply has_float_spec.
    assert (5 < 2 ^ 1023) by (apply (Z.lt_trans _ (2 ^ 3)); [reflexivity|];
      apply Z.pow_lt_mono_r; lia).
    lia.
  - intros H. apply has_float_spec. lia.
Qed.

Lemma budget_below_five_words_witness :
  simple_abstractive_summarize None (PyStr budget_text) 4 = []
  /\ has_float 4 = true.
Proof.
  destruct (budget_below_five_words None budget_text 4 ltac:(lia))
    as (H1 & H2 & _).
  split; [exact H1 | apply H2; reflexivity].
Defined.

(** With the target [-2^1024] the first candidate overflows, the product
    [target_length * 0.8] is evaluated and the conversion raises. *)
Example budget_beyond_the_floats :
  simple_abstractive_summarize None (PyStr budget_text) (- 2 ^ 1024)
  = py "Error during summarization: int too large to convert to float".
Proof. vm_compute. reflexivity. Qed.

(** ** Nothing asked for *)

Lemma filter_elem_of_nil (l : list str) :
  filter (fun x : str => x ∈ @nil str) l = [].
Proof.
  induction l as [|x l IH]; [reflexivity|].
  rewrite filter_cons. destruct (decide (x ∈ [])) as [H|_]; [|exact IH].
  now apply elem_of_nil in H.
Qed.

(** X15: asked for no sentence, or for a negative number of sentences, the
    extractive summariser returns the empty string, whatever the text and
    the backend. *)
Theorem extractive_nothing_requested nltk text num_sentences :
  num_sentences <= 0 ->
  extractive_summarize nltk (PyStr text) num_sentences = [].
Proof.
  intros Hn. unfold extractive_summarize, extractive_body. simpl.
  unfold summary_sentences.
  destruct (len (tokenize_sentences nltk (clean_text text)) <=? num_sentences)
    eqn:E.
  - destruct (tokenize_sentences nltk (clean_text text)) as [|s l] eqn:Es;
      [reflexivity|].
    exfalso. unfold len in E. apply Z.leb_le in E. cbn [length] in E. lia.
  - unfold top_sentences, nlargest.
    replace (Z.to_nat num_sentences) with 0%nat by lia.
    rewrite take_0. unfold dict_keys. simpl map.
    rewrite filter_elem_of_nil. reflexivity.
Qed.

Lemma extractive_nothing_requested_witness :
  extractive_summarize None (PyStr repeated_text) 0 = [].
Proof.
  apply (extractive_nothing_requested None repeated_text 0). lia.
Defined.

(** ** Extraction and the screens of the caller *)

Lemma read_pages_spec pages text :
  match read_pages pages text with
  | Return text' =>
      text' = text ++ flat_map page_part pages /\ Forall page_returns pages
  | Raise e => Raise e ∈ pages
  end.
Proof.
  revert text. induction pages as [|[page_text|e] rest IH]; intros text;
    simpl.
  - rewrite app_nil_r. split; [reflexivity | constructor].
  - destruct page_text as [[|c s]|]; simpl.
    + specialize (IH text). destruct (read_pages rest text).
      * destruct IH as [-> Hall]. split; [reflexivity|].
        constructor; [eexists; reflexivity | exact Hall].
      * now right.
    + specialize (IH (text ++ c :: s ++ newline)).
      destruct (read_pages rest _).
      * destruct IH as [-> Hall]. split.
        -- rewrite <- app_assoc. simpl. now rewrite <- app_assoc.
        -- constructor; [eexists; reflexivity | exact Hall].
      * now right.
    + specialize (IH text). destruct (read_pages rest text).
      * destruct IH as [-> Hall]. split; [reflexivity|].
        constructor; [eexists; reflexivity | exact Hall].
      * now right.
  - left.
Qed.

Lemma split_go_nil w s :
  split_go w s = [] -> w = [] /\ Forall (fun c => isspace c = true) s.
Proof.
  revert w. induction s as [|c r IH]; intros w; simpl.
  - destruct w; [split; [reflexivity | constructor] | discriminate].
  - destruct (isspace c) eqn:E.
    + intros H. apply app_eq_nil in H as [Hw Hr].
      destruct w; [|discriminate]. split; [reflexivity|].
      constructor; [exact E | exact (proj2 (IH [] Hr))].
    + intros H. apply IH in H as [H _]. destruct w; discriminate.
Qed.

Lemma flat_map_blank pages :
  blank (flat_map page_part pages) <-> Forall (fun p => blank (page_part p)) pages.
Proof.
  unfold blank. induction pages as [|p rest IH]; simpl.
  - split; constructor.
  - rewrite Forall_app, Forall_cons, IH. reflexivity.
Qed.

(** X16: the screen that the caller shows after the extraction.  It
    reports a failure exactly when the reader or one of the pages fails; it
    reports an empty document exactly when every page returns and holds
    whitespace at most; otherwise it summarises the texts of the pages, each
    closed by a line feed, joined and stripped: a text that is not empty and
    has a word. *)
Theorem extraction_screens pdf_reader :
  match main_screen (extract_text_from_pdf pdf_reader) with
  | CouldNotExtract =>
      (exists e, pdf_reader = Raise e)
      \/ (exists pages e, pdf_reader = Return pages /\ Raise e ∈ pages)
  | EmptyDocument =>
      exists pages,
        pdf_reader = Return pages
        /\ Forall (fun p => page_returns p /\ blank (page_part p)) pages
  | Summarise text =>
      exists pages,
        pdf_reader = Return pages
        /\ Forall page_returns pages
        /\ text = strip (flat_map page_part pages)
        /\ text <> [] /\ trimmed text /\ 0 < len (split text)
  end.
Proof.
  destruct pdf_reader as [pages|e]; simpl; [|left; eexists; reflexivity].
  pose proof (read_pages_spec pages []) as H.
  destruct (read_pages pages []) as [text|e]; simpl;
    [|right; exists pages, e; auto].
  destruct H as [-> Hall]. simpl.
  set (u := flat_map page_part pages).
  pose proof (strip_trimmed u) as Htrim.
  assert (Hfix : strip (strip u) = strip u).
  { destruct Htrim as [H1 H2]. unfold strip at 1. now rewrite H1, H2. }
  rewrite Hfix.
  destruct (strip u) as [|c r] eqn:E; simpl.
  - exists pages. split; [reflexivity|].
    apply strip_nil_iff in E. apply flat_map_blank in E.
    rewrite Forall_forall in *. intros p Hp. split; auto.
  - exists pages. split; [reflexivity|]. split; [exact Hall|].
    split; [now rewrite <- E|]. split; [discriminate|]. split; [exact Htrim|].
    rewrite <- E, split_strip.
    destruct (split u) as [|w ws] eqn:Es; [|unfold len; simpl; lia].
    exfalso. apply split_go_nil in Es as [_ Hb].
    apply strip_nil_iff in Hb. congruence.
Qed.

(** ** The settings of the caller *)

(** X17: the two sliders of the caller are well formed for every count:
    the default lies between the lower bound (3 sentences, 100 words) and
    the upper bound, which is at most 20 sentences and 800 words; the upper
    bound is above the lower one only from 20 sentences and from 303 words
    on; the reading time shown is 1 minute below 400 words and the number of
    full 200 words from there on. *)
Theorem caller_settings sentence_count word_count summary_words :
  (3 <= default_sentences sentence_count <= max_sentences sentence_count
   /\ max_sentences sentence_count <= 20)
  /\ (100 <= default_words word_count <= max_words word_count
      /\ max_words word_count <= 800)
  /\ (3 < max_sentences sentence_count <-> 20 <= sentence_count)
  /\ (100 < max_words word_count <-> 303 <= word_count)
  /\ reading_time summary_words
     = (if summary_words <? 400 then 1 else summary_words / 200)
  /\ 1 <= reading_time summary_words.
Proof.
  unfold default_sentences, max_sentences, default_words, max_words,
    reading_time.
  pose proof (Z.div_mod sentence_count 5 ltac:(lia)) as E5.
  pose proof (Z.mod_pos_bound sentence_count 5 ltac:(lia)) as B5.
  pose proof (Z.div_mod word_count 3 ltac:(lia)) as E3.
  pose proof (Z.mod_pos_bound word_count 3 ltac:(lia)) as B3.
  pose proof (Z.div_mod summary_words 200 ltac:(lia)) as E200.
  pose proof (Z.mod_pos_bound summary_words 200 ltac:(lia)) as B200.
  destruct (summary_words <? 400) eqn:E400; repeat split; lia.
Qed.

(** ** The position windows, exactly *)

(** Rounding [m * 2^e] to binary64 when [m] has 53 digits or more and the
    value is not subnormal: the digits beyond the 53rd are shifted out and
    the result is the truncated value or the next one. *)
Lemma binary_round_aux_faithful (m : positive) (e : Z) :
  let d := Z.pos (digits2_pos m) in
  let k := d - 53 in
  -1074 <= e + k -> 0 <= k ->
  exists m' e',
    binary_round_aux prec emax false (Z.pos m) e loc_Exact
    = (if e' <=? 971 then S754_finite false m' e' else S754_infinity false)
    /\ e + k <= e' <= e + k + 1
    /\ Z.pos m / 2 ^ k * 2 ^ k <= Z.pos m' * 2 ^ (e' - e)
       <= (Z.pos m / 2 ^ k + 1) * 2 ^ k
    /\ (k = 0 -> m' = m /\ e' = e).
Proof.
  intros d k Hnorm Hk. pose proof (digits2_pos_bounds m) as Hm. fold d in Hm.
  unfold binary_round_aux.
  assert (Hshift : forall p x, -1074 <= Z.pos (digits2_pos p) + x - 53 ->
            shr_fexp prec emax (Z.pos p) x loc_Exact
            = shr (Build_shr_record (Z.pos p) false false) x
                (Z.pos (digits2_pos p) - 53)).
  { intros p x Hp. unfold shr_fexp, fexp. cbn [Zdigits2 shr_record_of_loc].
    change (SpecFloat.emin prec emax) with (-1074). change prec with 53.
    f_equal. lia. }
  rewrite (Hshift m e) by (fold d; lia). fold d. fold k.
  destruct k as [|j|j] eqn:Ek; [| |lia].
  - (* 53 digits: nothing is shifted out *)
    cbn [shr shr_m loc_of_shr_record round_nearest_even].
    rewrite (Hshift m e) by (fold d; lia). fold d. fold k. rewrite Ek.
    cbn [shr shr_m].
    exists m, e. change (emax - prec) with 971.
    split; [reflexivity|]. rewrite Z.sub_diag.
    change (2 ^ 0) with 1. rewrite Z.div_1_r, !Z.mul_1_r.
    split; [lia|]. split; [lia | auto].
  - (* more digits: [j] of them are shifted out and the rest is rounded *)
    cbn [shr].
    set (mrs := SpecFloat.iter_pos shr_1 j (Build_shr_record (Z.pos m) false false)).
    assert (Eq : shr_m mrs = Z.pos m / 2 ^ Z.pos j).
    { unfold mrs. now rewrite iter_pos_shr_1 by (simpl; lia). }
    assert (Hd : d = 53 + Z.pos j) by lia.
    assert (Hpk : 0 < 2 ^ Z.pos j) by (apply Z.pow_pos_nonneg; lia).
    assert (Hq : 2 ^ 52 <= shr_m mrs < 2 ^ 53).
    { rewrite Eq. rewrite Hd in Hm.
      replace (53 + Z.pos j - 1) with (52 + Z.pos j) in Hm by lia.
      rewrite !Z.pow_add_r in Hm by lia. split.
      - apply Z.div_le_lower_bound; lia.
      - apply Z.div_lt_upper_bound; lia. }
    pose proof (round_nearest_even_bounds (shr_m mrs) (loc_of_shr_record mrs))
      as Hr.
    set (m1 := round_nearest_even (shr_m mrs) (loc_of_shr_record mrs)) in *.
    rewrite Eq in Hr.
    destruct m1 as [|p1|p1] eqn:Em1; [lia| |lia].
    destruct (Z.eq_dec (Z.pos p1) (2 ^ 53)) as [Etop|Hlt].
    + (* the rounding carried into a 54th digit *)
      assert (Ed1 : Z.pos (digits2_pos p1) = 54).
      { apply digits2_pos_unique. rewrite Etop. split; [|reflexivity].
        vm_compute. discriminate. }
      rewrite Hshift by lia. rewrite Ed1. change (54 - 53) with 1.
      cbn [shr SpecFloat.iter_pos].
      assert (Hp1 : p1 = (2 ^ 53)%positive) by (injection Etop as ->; reflexivity).
      rewrite Hp1 in *. cbn [shr_1 shr_m].
      exists (2 ^ 52)%positive, (e + Z.pos j + 1).
      split; [reflexivity|]. split; [lia|]. split; [|lia].
      replace (e + Z.pos j + 1 - e) with (1 + Z.pos j) by lia.
      rewrite (Z.pow_add_r 2 1) by lia. change (2 ^ 1) with 2.
      rewrite Z.mul_assoc. change (Z.pos (2 ^ 52) * 2) with (Z.pos (2 ^ 53)).
      split; apply Z.mul_le_mono_nonneg_r; lia.
    + assert (Ed1 : Z.pos (digits2_pos p1) = 53).
      { apply digits2_pos_unique. change (53 - 1) with 52. rewrite Eq in Hq. lia. }
      rewrite Hshift by lia. rewrite Ed1. change (53 - 53) with 0.
      cbn [shr shr_m].
      exists p1, (e + Z.pos j). change (emax - prec) with 971.
      split; [reflexivity|]. split; [lia|]. split; [|lia].
      replace (e + Z.pos j - e) with (Z.pos j) by lia.
      split; apply Z.mul_le_mono_nonneg_r; lia.
Qed.

Lemma pos_iter_xO p k : Z.pos (Pos.iter xO p k) = Z.pos p * 2 ^ Z.pos k.
Proof.
  induction k as [|k IH] using Pos.peano_ind.
  - simpl. lia.
  - rewrite Pos.iter_succ, Pos2Z.inj_succ, Z.pow_succ_r by lia.
    rewrite Pos2Z.inj_xO, IH. lia.
Qed.

(** [float(n)] for [0 < n < 2^53] is [n] itself, held on 53 digits. *)
Lemma nearest_float_exact n :
  0 < n < 2 ^ 53 ->
  exists m e,
    nearest_float n = S754_finite false m e
    /\ Z.pos (digits2_pos m) = 53
    /\ -52 <= e <= 0
    /\ Z.pos m = n * 2 ^ (- e)
    /\ 2 ^ (52 + e) <= n.
Proof.
  intros [Hpos Hn]. destruct n as [|p|p]; [lia| |lia].
  unfold nearest_float. cbn [binary_normalize]. unfold binary_round.
  pose proof (digits2_pos_bounds p) as Hp.
  set (d := Z.pos (digits2_pos p)) in *.
  assert (Hd : 1 <= d <= 53).
  { split; [lia|].
    assert (d - 1 < 53) by (apply pow2_lt_inv; lia). lia. }
  assert (Hal : exists mz,
            shl_align p 0 (fexp prec emax (d + 0)) = (mz, d - 53)
            /\ Z.pos (digits2_pos mz) = 53
            /\ Z.pos mz = Z.pos p * 2 ^ (53 - d)).
  { unfold shl_align, fexp.
    change (SpecFloat.emin prec emax) with (-1074). change prec with 53.
    destruct (Z.max (d + 0 - 53) (-1074) - 0) as [|k|k] eqn:Ek; [|lia|].
    - assert (E53 : d = 53) by lia. exists p. rewrite E53.
      split; [reflexivity|]. split; [exact E53|]. simpl. lia.
    - exists (Pos.iter xO p k).
      assert (Ek' : Z.pos k = 53 - d) by lia.
      split; [f_equal; lia|]. split.
      + rewrite digits2_pos_iter_xO. fold d. lia.
      + rewrite pos_iter_xO, Ek'. reflexivity. }
  destruct Hal as (mz & -> & Hdz & Hmz).
  destruct (binary_round_aux_faithful mz (d - 53)) as
    (m' & e' & -> & He & _ & Hex); [rewrite Hdz; lia | rewrite Hdz; lia|].
  rewrite Hdz in Hex, He. destruct (Hex eq_refl) as [-> ->].
  replace (d - 53 <=? 971) with true by lia.
  exists mz, (d - 53). split; [reflexivity|]. split; [exact Hdz|].
  split; [lia|]. split.
  - rewrite Hmz. f_equal. f_equal. lia.
  - replace (52 + (d - 53)) with (d - 1) by lia. lia.
Qed.

Lemma digits2_pos_mul_53 m c :
  Z.pos (digits2_pos m) = 53 -> Z.pos (digits2_pos c) = 53 ->
  Z.pos (digits2_pos (m * c)) - 53 = 52
  \/ Z.pos (digits2_pos (m * c)) - 53 = 53.
Proof.
  intros Hm Hc. pose proof (digits2_pos_mul m c) as Hlo.
  pose proof (digits2_pos_bounds m) as [_ Bm].
  pose proof (digits2_pos_bounds c) as [_ Bc].
  pose proof (digits2_pos_bounds (m * c)) as [Blo _].
  rewrite Hm in Bm. rewrite Hc in Bc. rewrite Pos2Z.inj_mul in Blo.
  assert (Z.pos m * Z.pos c < 2 ^ 53 * 2 ^ 53)
    by (apply Z.mul_lt_mono_nonneg; lia).
  assert (Z.pos (digits2_pos (m * c)) - 1 < 106).
  { apply pow2_lt_inv; [lia|]. change (2 ^ 106) with (2 ^ 53 * 2 ^ 53). lia. }
  lia.
Qed.

(** [i < x * 0.3] for [x = n] held on 53 digits, [n < 2^49]: the rounded
    product is below or above [i] as the exact [0.3 * n] is. *)
Lemma first_window_finite i n m e :
  Z.pos (digits2_pos m) = 53 -> -52 <= e <= -4 ->
  Z.pos m = n * 2 ^ (- e) ->
  int_lt_float i (fmul (S754_finite false m e) py_0_3) = true
  <-> 10 * i < 3 * n.
Proof.
  intros Hdm He Hm. unfold fmul, py_0_3. cbn [SFmul xorb].
  set (M := (m * 5404319552844595)%positive).
  destruct (digits2_pos_mul_53 m 5404319552844595 Hdm eq_refl) as [Hk|Hk];
    fold M in Hk;
    (destruct (binary_round_aux_faithful M (e + -54)) as
        (m' & e' & -> & He' & Hv & _); [rewrite Hk; lia | rewrite Hk; lia|]);
    rewrite Hk in He', Hv;
    replace (e' <=? 971) with true by lia;
    rewrite (int_lt_float_scaled i m' e' (e + -54)) by lia;
    replace (- (e + -54)) with (54 + - e) by lia;
    rewrite Z.pow_add_r by lia;
    pose proof (digits2_pos_bounds m) as [_ Bm]; rewrite Hdm in Bm;
    assert (HP : 16 <= 2 ^ (- e))
      by (change 16 with (2 ^ 4); apply Z.pow_le_mono_r; lia);
    unfold M in Hv; rewrite Pos2Z.inj_mul in Hv;
    remember (2 ^ (- e)) as P eqn:EP;
    remember (Z.pos m' * 2 ^ (e' - (e + -54))) as F eqn:EF;
    remember (Z.pos m) as mm eqn:Emm;
    rewrite Z.mul_assoc, (Z.mul_comm i), <- Z.mul_assoc;
    remember (i * P) as A eqn:EA.
  - pose proof (Z.div_mod (mm * 5404319552844595) (2 ^ 52) ltac:(lia)) as Hdiv.
    pose proof (Z.mod_pos_bound (mm * 5404319552844595) (2 ^ 52) ltac:(lia))
      as Hmod.
    remember (mm * 5404319552844595 / 2 ^ 52) as q eqn:Eq.
    remember ((mm * 5404319552844595) mod 2 ^ 52) as r eqn:Er.
    change (2 ^ 52) with 4503599627370496 in *.
    change (2 ^ 53) with 9007199254740992 in *.
    change (2 ^ 54) with 18014398509481984 in *.
    destruct (Z.lt_ge_cases (10 * i) (3 * n)) as [Hlt|Hge].
    + assert (10 * A + P <= 3 * mm).
      { subst A mm. rewrite Hm.
        replace (10 * (i * P) + P) with ((10 * i + 1) * P) by ring.
        replace (3 * (n * P)) with (3 * n * P) by ring.
        apply Z.mul_le_mono_nonneg_r; lia. }
      split; [intros _; exact Hlt | intros _; lia].
    + assert (3 * mm <= 10 * A).
      { subst A mm. rewrite Hm.
        replace (10 * (i * P)) with (10 * i * P) by ring.
        replace (3 * (n * P)) with (3 * n * P) by ring.
        apply Z.mul_le_mono_nonneg_r; lia. }
      split; [intros Hc; exfalso; lia | intros Hc; lia].
  - pose proof (Z.div_mod (mm * 5404319552844595) (2 ^ 53) ltac:(lia)) as Hdiv.
    pose proof (Z.mod_pos_bound (mm * 5404319552844595) (2 ^ 53) ltac:(lia))
      as Hmod.
    remember (mm * 5404319552844595 / 2 ^ 53) as q eqn:Eq.
    remember ((mm * 5404319552844595) mod 2 ^ 53) as r eqn:Er.
    change (2 ^ 53) with 9007199254740992 in *.
    change (2 ^ 54) with 18014398509481984 in *.
    destruct (Z.lt_ge_cases (10 * i) (3 * n)) as [Hlt|Hge].
    + assert (10 * A + P <= 3 * mm).
      { subst A mm. rewrite Hm.
        replace (10 * (i * P) + P) with ((10 * i + 1) * P) by ring.
        replace (3 * (n * P)) with (3 * n * P) by ring.
        apply Z.mul_le_mono_nonneg_r; lia. }
      split; [intros _; exact Hlt | intros _; lia].
    + assert (3 * mm <= 10 * A).
      { subst A mm. rewrite Hm.
        replace (10 * (i * P)) with (10 * i * P) by ring.
        replace (3 * (n * P)) with (3 * n * P) by ring.
        apply Z.mul_le_mono_nonneg_r; lia. }
      split; [intros Hc; exfalso; lia | intros Hc; lia].
Qed.

(** [i > x * 0.7] for [x = n] held on 53 digits, [n < 2^49]: the rounded
    product is below [i] when the exact [0.7 * n] is, and is not below [i]
    when [i] is below the exact [0.7 * n]. *)
Lemma last_window_finite i n m e :
  Z.pos (digits2_pos m) = 53 -> -52 <= e <= -4 ->
  Z.pos m = n * 2 ^ (- e) ->
  (7 * n < 10 * i ->
   float_lt_int (fmul (S754_finite false m e) py_0_7) i = true)
  /\ (float_lt_int (fmul (S754_finite false m e) py_0_7) i = true ->
      7 * n <= 10 * i).
Proof.
  intros Hdm He Hm. unfold fmul, py_0_7. cbn [SFmul xorb].
  set (M := (m * 6305039478318694)%positive).
  destruct (digits2_pos_mul_53 m 6305039478318694 Hdm eq_refl) as [Hk|Hk];
    fold M in Hk;
    (destruct (binary_round_aux_faithful M (e + -53)) as
        (m' & e' & -> & He' & Hv & _); [rewrite Hk; lia | rewrite Hk; lia|]);
    rewrite Hk in He', Hv;
    replace (e' <=? 971) with true by lia;
    rewrite (float_lt_int_scaled i m' e' (e + -53)) by lia;
    replace (- (e + -53)) with (53 + - e) by lia;
    rewrite Z.pow_add_r by lia;
    pose proof (digits2_pos_bounds m) as [_ Bm]; rewrite Hdm in Bm;
    assert (HP : 16 <= 2 ^ (- e))
      by (change 16 with (2 ^ 4); apply Z.pow_le_mono_r; lia);
    unfold M in Hv; rewrite Pos2Z.inj_mul in Hv;
    remember (2 ^ (- e)) as P eqn:EP;
    remember (Z.pos m' * 2 ^ (e' - (e + -53))) as F eqn:EF;
    remember (Z.pos m) as mm eqn:Emm;
    rewrite Z.mul_assoc, (Z.mul_comm i), <- Z.mul_assoc;
    remember (i * P) as A eqn:EA.
  - pose proof (Z.div_mod (mm * 6305039478318694) (2 ^ 52) ltac:(lia)) as Hdiv.
    pose proof (Z.mod_pos_bound (mm * 6305039478318694) (2 ^ 52) ltac:(lia))
      as Hmod.
    remember (mm * 6305039478318694 / 2 ^ 52) as q eqn:Eq.
    remember ((mm * 6305039478318694) mod 2 ^ 52) as r eqn:Er.
    change (2 ^ 52) with 4503599627370496 in *.
    change (2 ^ 53) with 9007199254740992 in *.
    split.
    + intros Hgt. assert (7 * mm + P <= 10 * A).
      { subst A mm. rewrite Hm.
        replace (7 * (n * P) + P) with ((7 * n + 1) * P) by ring.
        replace (10 * (i * P)) with (10 * i * P) by ring.
        apply Z.mul_le_mono_nonneg_r; lia. }
      lia.
    + intros Hc. destruct (Z.lt_ge_cases (10 * i) (7 * n)) as [Hlt|Hge]; [|lia].
      exfalso. assert (10 * A + P <= 7 * mm).
      { subst A mm. rewrite Hm.
        replace (10 * (i * P) + P) with ((10 * i + 1) * P) by ring.
        replace (7 * (n * P)) with (7 * n * P) by ring.
        apply Z.mul_le_mono_nonneg_r; lia. }
      lia.
  - pose proof (Z.div_mod (mm * 6305039478318694) (2 ^ 53) ltac:(lia)) as Hdiv.
    pose proof (Z.mod_pos_bound (mm * 6305039478318694) (2 ^ 53) ltac:(lia))
      as Hmod.
    remember (mm * 6305039478318694 / 2 ^ 53) as q eqn:Eq.
    remember ((mm * 6305039478318694) mod 2 ^ 53) as r eqn:Er.
    change (2 ^ 53) with 9007199254740992 in *.
    split.
    + intros Hgt. assert (7 * mm + P <= 10 * A).
      { subst A mm. rewrite Hm.
        replace (7 * (n * P) + P) with ((7 * n + 1) * P) by ring.
        replace (10 * (i * P)) with (10 * i * P) by ring.
        apply Z.mul_le_mono_nonneg_r; lia. }
      lia.
    + intros Hc. destruct (Z.lt_ge_cases (10 * i) (7 * n)) as [Hlt|Hge]; [|lia].
      exfalso. assert (10 * A + P <= 7 * mm).
      { subst A mm. rewrite Hm.
        replace (10 * (i * P) + P) with ((10 * i + 1) * P) by ring.
        replace (7 * (n * P)) with (7 * n * P) by ring.
        apply Z.mul_le_mono_nonneg_r; lia. }
      lia.
Qed.

(** X18: for fewer than [2^49] sentences the position bonus is the one
    that the exact thresholds give: 1.2 below 30% of the number of
    sentences, 1.1 above 70%, 1.0 between; only at the index that is
    exactly 70% of the number of sentences can the bonus be 1.1 where the
    exact threshold gives 1.0, [0.7] being a binary64 below seven
    tenths. *)
Theorem position_bonus_thresholds i n :
  0 <= n < 2 ^ 49 ->
  position_bonus i n = exact_bonus i n
  \/ (10 * i = 7 * n /\ position_bonus i n = py_1_1).
Proof.
  intros [Hn0 Hn]. unfold position_bonus, exact_bonus, nearest_mul_float.
  destruct (Z.eq_dec n 0) as [->|Hne].
  - left. rewrite !Z.mul_0_r. change (nearest_float 0) with (S754_zero false).
    unfold fmul, py_0_3, py_0_7. cbn [SFmul xorb int_lt_float float_lt_int].
    destruct (i <? 0) eqn:E1, (10 * i <? 0) eqn:E2; try lia; [reflexivity|].
    destruct (0 <? i) eqn:E3, (0 <? 10 * i) eqn:E4; try lia; reflexivity.
  - destruct (nearest_float_exact n) as (m & e & -> & Hd & He & Hm & Hlo).
    { split; [lia|]. eapply Z.lt_trans; [exact Hn | reflexivity]. }
    assert (He4 : e <= -4).
    { assert (52 + e < 49); [|lia]. apply pow2_lt_inv; lia. }
    pose proof (first_window_finite i n m e Hd ltac:(lia) Hm) as H3.
    pose proof (last_window_finite i n m e Hd ltac:(lia) Hm) as [H7a H7b].
    destruct (int_lt_float i _) eqn:E3.
    + left. replace (10 * i <? 3 * n) with true; [reflexivity|].
      symmetry. apply Z.ltb_lt. now apply H3.
    + assert (~ 10 * i < 3 * n).
      { intros Hlt. apply H3 in Hlt. congruence. }
      replace (10 * i <? 3 * n) with false by lia.
      destruct (float_lt_int _ i) eqn:E7.
      * specialize (H7b eq_refl).
        destruct (Z.eq_dec (10 * i) (7 * n)) as [Heq|Hneq];
          [right; auto | left].
        replace (7 * n <? 10 * i) with true by lia. reflexivity.
      * left. destruct (7 * n <? 10 * i) eqn:E; [|reflexivity].
        apply Z.ltb_lt in E. apply H7a in E. congruence.
Qed.

Lemma position_bonus_thresholds_witness :
  position_bonus 63 90 = exact_bonus 63 90
  \/ (10 * 63 = 7 * 90 /\ position_bonus 63 90 = py_1_1).
Proof.
  apply (position_bonus_thresholds 63 90). split; [lia | reflexivity].
Defined.

(** At exactly 70% both outcomes occur: [10 * 0.7] is [7.0], and
    [90 * 0.7] is below [63]. *)
Example position_bonus_at_seventy_percent :
  position_bonus 7 10 = py_1_0 /\ position_bonus 63 90 = py_1_1.
Proof. vm_compute. split; reflexivity. Qed.

(** [i < x * 0.8] for [x = n] held on 53 digits, [n < 2^49]: the rounded
    product is above [i] when the exact [0.8 * n] is, and is not above [i]
    when [i] is above the exact [0.8 * n]. *)
Lemma below_80_finite i n m e :
  Z.pos (digits2_pos m) = 53 -> -52 <= e <= -4 ->
  Z.pos m = n * 2 ^ (- e) ->
  (10 * i < 8 * n ->
   int_lt_float i (fmul (S754_finite false m e) py_0_8) = true)
  /\ (int_lt_float i (fmul (S754_finite false m e) py_0_8) = true ->
      10 * i <= 8 * n).
Proof.
  intros Hdm He Hm. unfold fmul, py_0_8. cbn [SFmul xorb].
  set (M := (m * 7205759403792794)%positive).
  destruct (digits2_pos_mul_53 m 7205759403792794 Hdm eq_refl) as [Hk|Hk];
    fold M in Hk;
    (destruct (binary_round_aux_faithful M (e + -53)) as
        (m' & e' & -> & He' & Hv & _); [rewrite Hk; lia | rewrite Hk; lia|]);
    rewrite Hk in He', Hv;
    replace (e' <=? 971) with true by lia;
    rewrite (int_lt_float_scaled i m' e' (e + -53)) by lia;
    replace (- (e + -53)) with (53 + - e) by lia;
    rewrite Z.pow_add_r by lia;
    pose proof (digits2_pos_bounds m) as [_ Bm]; rewrite Hdm in Bm;
    assert (HP : 16 <= 2 ^ (- e))
      by (change 16 with (2 ^ 4); apply Z.pow_le_mono_r; lia);
    unfold M in Hv; rewrite Pos2Z.inj_mul in Hv;
    remember (2 ^ (- e)) as P eqn:EP;
    remember (Z.pos m' * 2 ^ (e' - (e + -53))) as F eqn:EF;
    remember (Z.pos m) as mm eqn:Emm;
    rewrite Z.mul_assoc, (Z.mul_comm i), <- Z.mul_assoc;
    remember (i * P) as A eqn:EA.
  - pose proof (Z.div_mod (mm * 7205759403792794) (2 ^ 52) ltac:(lia)) as Hdiv.
    pose proof (Z.mod_pos_bound (mm * 7205759403792794) (2 ^ 52) ltac:(lia))
      as Hmod.
    remember (mm * 7205759403792794 / 2 ^ 52) as q eqn:Eq.
    remember ((mm * 7205759403792794) mod 2 ^ 52) as r eqn:Er.
    change (2 ^ 52) with 4503599627370496 in *.
    change (2 ^ 53) with 9007199254740992 in *.
    split.
    + intros Hlt. assert (10 * A + P <= 8 * mm).
      { subst A mm. rewrite Hm.
        replace (10 * (i * P) + P) with ((10 * i + 1) * P) by ring.
        replace (8 * (n * P)) with (8 * n * P) by ring.
        apply Z.mul_le_mono_nonneg_r; lia. }
      lia.
    + intros Hc. destruct (Z.lt_ge_cases (8 * n) (10 * i)) as [Hgt|Hge]; [|lia].
      exfalso. assert (8 * mm + P <= 10 * A).
      { subst A mm. rewrite Hm.
        replace (8 * (n * P) + P) with ((8 * n + 1) * P) by ring.
        replace (10 * (i * P)) with (10 * i * P) by ring.
        apply Z.mul_le_mono_nonneg_r; lia. }
      lia.
  - pose proof (Z.div_mod (mm * 7205759403792794) (2 ^ 53) ltac:(lia)) as Hdiv.
    pose proof (Z.mod_pos_bound (mm * 7205759403792794) (2 ^ 53) ltac:(lia))
      as Hmod.
    remember (mm * 7205759403792794 / 2 ^ 53) as q eqn:Eq.
    remember ((mm * 7205759403792794) mod 2 ^ 53) as r eqn:Er.
    change (2 ^ 53) with 9007199254740992 in *.
    split.
    + intros Hlt. assert (10 * A + P <= 8 * mm).
      { subst A mm. rewrite Hm.
        replace (10 * (i * P) + P) with ((10 * i + 1) * P) by ring.
        replace (8 * (n * P)) with (8 * n * P) by ring.
        apply Z.mul_le_mono_nonneg_r; lia. }
      lia.
    + intros Hc. destruct (Z.lt_ge_cases (8 * n) (10 * i)) as [Hgt|Hge]; [|lia].
      exfalso. assert (8 * mm + P <= 10 * A).
      { subst A mm. rewrite Hm.
        replace (8 * (n * P) + P) with ((8 * n + 1) * P) by ring.
        replace (10 * (i * P)) with (10 * i * P) by ring.
        apply Z.mul_le_mono_nonneg_r; lia. }
      lia.
Qed.

Lemma below_80_exact total_words target_length :
  0 <= target_length < 2 ^ 49 ->
  5 * total_words <> 4 * target_length ->
  int_lt_float total_words (nearest_mul_float target_length py_0_8)
  = (5 * total_words <? 4 * target_length).
Proof.
  intros [Hn0 Hn] Hne. unfold nearest_mul_float.
  destruct (Z.eq_dec target_length 0) as [->|Hnz].
  - change (nearest_float 0) with (S754_zero false).
    unfold fmul, py_0_8. cbn [SFmul xorb int_lt_float].
    destruct (total_words <? 0) eqn:E1, (5 * total_words <? 4 * 0) eqn:E2;
      try reflexivity; lia.
  - destruct (nearest_float_exact target_length)
      as (m & e & -> & Hd & He & Hm & Hlo).
    { split; [lia|]. eapply Z.lt_trans; [exact Hn | reflexivity]. }
    assert (He4 : e <= -4).
    { assert (52 + e < 49); [|lia]. apply pow2_lt_inv; lia. }
    pose proof (below_80_finite total_words target_length m e Hd
                  ltac:(lia) Hm) as [Ha Hb].
    destruct (int_lt_float total_words _) eqn:E.
    + specialize (Hb eq_refl). symmetry. apply Z.ltb_lt. lia.
    + destruct (5 * total_words <? 4 * target_length) eqn:E5; [|reflexivity].
      apply Z.ltb_lt in E5. assert (Ht := Ha ltac:(lia)). congruence.
Qed.

(** X19: what the loop does with a sentence that overflows, for a target
    below [2^49] and a running total that is not exactly 80% of it: when
    the total is below 80% of the target and 10 words or more remain, the
    sentence is truncated and ends the summary; when it is below 80% and
    fewer than 10 words remain, the sentence is passed over; when it is
    above 80%, the summary ends. *)
Theorem overflow_rule target_length score sentence length rest
    summary_parts total_words :
  0 <= target_length < 2 ^ 49 ->
  target_length < total_words + length ->
  5 * total_words <> 4 * target_length ->
  accumulate target_length ((score, sentence, length) :: rest)
    summary_parts total_words
  = if 5 * total_words <? 4 * target_length then
      if 10 <=? target_length - total_words
      then Return (summary_parts
                   ++ [truncated sentence (target_length - total_words)])
      else accumulate target_length rest summary_parts total_words
    else Return summary_parts.
Proof.
  intros Ht Hover Hne. cbn [accumulate].
  destruct (total_words + length <=? target_length) eqn:E; [lia|].
  rewrite int_mul_float_has_float.
  assert (Hf : has_float target_length = true).
  { apply has_float_spec.
    assert (2 ^ 49 < 2 ^ 1023) by (apply Z.pow_lt_mono_r; lia). lia. }
  rewrite Hf, below_80_exact by assumption. reflexivity.
Qed.

Lemma overflow_rule_witness :
  accumulate 20 [(int_true_div 6 9, middle_sentence, 9);
                 (int_true_div 1 5, short_sentence, 5)]
    [long_sentence] 12
  = accumulate 20 [(int_true_div 1 5, short_sentence, 5)] [long_sentence] 12.
Proof.
  apply (overflow_rule 20 (int_true_div 6 9) middle_sentence 9
           [(int_true_div 1 5, short_sentence, 5)] [long_sentence] 12).
  - split; [lia | reflexivity].
  - lia.
  - lia.
Defined.

(** ** The score of a sentence *)

Lemma score_words_sums nltk stop_words sentences words score word_count :
  Forall (fun w => w ∈ all_tokens nltk sentences) words ->
  fold_left
    (fun '(score, word_count) word =>
       match dict_get (build_word_freq nltk stop_words sentences) word with
       | Some f => (score + f, word_count + 1)
       | None => (score, word_count)
       end)
    words (score, word_count)
  = (score
     + sum_of (map (fun w => occurrences w (all_tokens nltk sentences))
                 (List.filter (qualifies stop_words) words)),
     word_count + len (List.filter (qualifies stop_words) words)).
Proof.
  intros Hall. revert score word_count.
  induction Hall as [|x words Hx Hrest IH]; intros score word_count.
  - simpl. unfold len. simpl. now rewrite !Z.add_0_r.
  - cbn [fold_left List.filter].
    assert (Hget : dict_get (build_word_freq nltk stop_words sentences) x
                   = if qualifies stop_words x
                     then Some (occurrences x (all_tokens nltk sentences))
                     else None).
    { unfold build_word_freq. rewrite build_word_freq_get_from.
      apply occurrences_pos in Hx.
      replace (0 <? occurrences x (all_tokens nltk sentences)) with true
        by lia.
      rewrite andb_true_r. now destruct (qualifies stop_words x). }
    rewrite Hget. destruct (qualifies stop_words x).
    + rewrite IH. unfold len. cbn [map sum_of foldr length].
      fold (sum_of (map (fun w => occurrences w (all_tokens nltk sentences))
                      (List.filter (qualifies stop_words) words))).
      f_equal; lia.
    + apply IH.
Qed.

(** X20: the raw score of a sentence of the text is the sum, over its
    tokens that pass the filter, of the number of times each occurs among
    the tokens of all sentences, and the word count by which it is divided
    is the number of these tokens. *)
Theorem sentence_raw_score nltk stop_words sentences sentence :
  sentence ∈ sentences ->
  let kept := List.filter (qualifies stop_words)
                (tokenize_words nltk sentence) in
  score_words (build_word_freq nltk stop_words sentences)
    (tokenize_words nltk sentence)
  = (sum_of (map (fun w => occurrences w (all_tokens nltk sentences)) kept),
     len kept).
Proof.
  intros Hin kept. unfold score_words.
  rewrite (score_words_sums nltk stop_words sentences); [reflexivity|].
  apply Forall_forall. intros w Hw. unfold all_tokens.
  apply list_elem_of_In, in_flat_map. exists sentence.
  split; now apply list_elem_of_In.
Qed.

Lemma sentence_raw_score_witness :
  let sentences := tokenize_sentences None (clean_text repeated_text) in
  score_words (build_word_freq None BASIC_STOPWORDS sentences)
    (tokenize_words None (py "Dogs chase cats daily."))
  = (11, 4).
Proof.
  intros sentences.
  refine (sentence_raw_score None BASIC_STOPWORDS sentences
            (py "Dogs chase cats daily.") _).
  vm_compute. right. left.
Defined.

Lemma score_sentences_get_other nltk word_freq n sentences i scores s :
  s ∉ sentences ->
  dict_get (score_sentences nltk word_freq n i sentences scores) s
  = dict_get scores s.
Proof.
  revert i scores. induction sentences as [|x rest IH]; intros i scores Hs;
    [reflexivity|].
  cbn [score_sentences]. apply not_elem_of_cons in Hs as [Hne Hs].
  destruct (score_words word_freq (tokenize_words nltk x)) as [sc wc].
  rewrite IH by assumption.
  destruct (0 <? wc); [|reflexivity].
  rewrite dict_get_set. destruct (decide (x = s)); [congruence | reflexivity].
Qed.

Lemma score_sentences_get_unscored nltk word_freq n sentences i scores s :
  (score_words word_freq (tokenize_words nltk s)).2 <= 0 ->
  dict_get (score_sentences nltk word_freq n i sentences scores) s
  = dict_get scores s.
Proof.
  intros Hwc. revert i scores.
  induction sentences as [|x rest IH]; intros i scores; [reflexivity|].
  cbn [score_sentences].
  destruct (score_words word_freq (tokenize_words nltk x)) as [sc wc] eqn:E.
  rewrite IH. destruct (0 <? wc) eqn:E0; [|reflexivity].
  rewrite dict_get_set. destruct (decide (x = s)) as [->|]; [|reflexivity].
  rewrite E in Hwc. simpl in Hwc. lia.
Qed.

Lemma score_sentences_get_last nltk word_freq n pre s post i scores :
  s ∉ post ->
  0 < (score_words word_freq (tokenize_words nltk s)).2 ->
  dict_get (score_sentences nltk word_freq n i (pre ++ s :: post) scores) s
  = Some (fmul (int_true_div
                  (score_words word_freq (tokenize_words nltk s)).1
                  (score_words word_freq (tokenize_words nltk s)).2)
            (position_bonus (i + len pre) n)).
Proof.
  intros Hpost Hwc. revert i scores.
  induction pre as [|x pre IH]; intros i scores.
  - cbn [app score_sentences].
    destruct (score_words word_freq (tokenize_words nltk s)) as [sc wc].
    simpl in Hwc. rewrite score_sentences_get_other by assumption.
    replace (0 <? wc) with true by lia.
    rewrite dict_get_set. destruct (decide (s = s)); [|congruence].
    unfold len. simpl. now rewrite Z.add_0_r.
  - cbn [app score_sentences].
    destruct (score_words word_freq (tokenize_words nltk x)) as [sc wc].
    rewrite IH. do 3 f_equal. unfold len. cbn [length]. lia.
Qed.

(** X21: a sentence has one score, whatever the number of times it occurs:
    the one computed at its last occurrence, with the position bonus of that
    index; a sentence without a counted token has no score. *)
Theorem sentence_score_of_last_occurrence nltk pre sentence post :
  sentence ∉ post ->
  let sentences := pre ++ sentence :: post in
  let word_freq := build_word_freq nltk (get_stopwords nltk) sentences in
  let '(score, word_count) :=
    score_words word_freq (tokenize_words nltk sentence) in
  dict_get (sentence_scores_of nltk sentences) sentence
  = if 0 <? word_count
    then Some (fmul (int_true_div score word_count)
                 (position_bonus (len pre) (len sentences)))
    else None.
Proof.
  intros Hpost sentences word_freq.
  destruct (score_words word_freq (tokenize_words nltk sentence))
    as [score word_count] eqn:E.
  unfold sentence_scores_of. fold sentences. fold word_freq.
  destruct (0 <? word_count) eqn:E0.
  - unfold sentences at 2.
    rewrite score_sentences_get_last; [|assumption|rewrite E; simpl; lia].
    rewrite E. simpl. reflexivity.
  - rewrite score_sentences_get_unscored; [reflexivity|].
    rewrite E. simpl. lia.
Qed.

Lemma sentence_score_of_last_occurrence_witness :
  let sentence := py "Cats chase mice daily." in
  let sentences :=
    [sentence; py "Dogs chase cats daily."; sentence;
     py "Birds sing songs daily."] in
  dict_get (sentence_scores_of None sentences) sentence
  = Some (fmul (int_true_div 12 4) (position_bonus 2 4)).
Proof.
  intros sentence sentences.
  refine (sentence_score_of_last_occurrence None
            [sentence; py "Dogs chase cats daily."] sentence
            [py "Birds sing songs daily."] _).
  intros H. apply list_elem_of_In in H. simpl in H.
  destruct H as [H|[]]. discriminate H.
Defined.

(** ** A backend that fails *)

Section FailingBackend.
Variable backend : Nltk.
Hypothesis Hfails : always_fails backend.

Lemma failing_tokenize_sentences text :
  tokenize_sentences (Some backend) text = tokenize_sentences None text.
Proof.
  unfold tokenize_sentences. destruct Hfails as (H & _ & _). now rewrite H.
Qed.

Lemma failing_tokenize_words text :
  tokenize_words (Some backend) text = tokenize_words None text.
Proof.
  unfold tokenize_words. destruct Hfails as (_ & H & _). now rewrite H.
Qed.

Lemma failing_get_stopwords :
  get_stopwords (Some backend) = get_stopwords None.
Proof.
  unfold get_stopwords. destruct Hfails as (_ & _ & H). now rewrite H.
Qed.

Lemma failing_build_word_freq stop_words sentences :
  build_word_freq (Some backend) stop_words sentences
  = build_word_freq None stop_words sentences.
Proof.
  unfold build_word_freq. generalize (@nil (str * Z)).
  induction sentences as [|s rest IH]; intros d; [reflexivity|].
  cbn [fold_left]. rewrite failing_tokenize_words. apply IH.
Qed.

Lemma failing_score_sentences word_freq n i sentences scores :
  score_sentences (Some backend) word_freq n i sentences scores
  = score_sentences None word_freq n i sentences scores.
Proof.
  revert i scores. induction sentences as [|s rest IH]; intros i scores;
    [reflexivity|].
  cbn [score_sentences]. rewrite failing_tokenize_words.
  destruct (score_words word_freq (tokenize_words None s)) as [sc wc].
  apply IH.
Qed.

Lemma failing_summary_sentences sentences num_sentences :
  summary_sentences (Some backend) sentences num_sentences
  = summary_sentences None sentences num_sentences.
Proof.
  unfold summary_sentences, sentence_scores_of.
  now rewrite failing_get_stopwords, failing_build_word_freq,
    failing_score_sentences.
Qed.

Lemma failing_scored_sentences text sentences :
  scored_sentences_of (Some backend) text sentences
  = scored_sentences_of None text sentences.
Proof.
  unfold scored_sentences_of, important_words_of.
  rewrite failing_get_stopwords, failing_tokenize_words. f_equal.
  induction sentences as [|s rest IH]; [reflexivity|].
  cbn [flat_map]. rewrite IH. f_equal.
  unfold score_candidate. now rewrite failing_tokenize_words.
Qed.

End FailingBackend.

(** X22: a backend that is installed but whose every call raises gives the
    summaries that no backend gives: each wrapper falls back to the simple
    tokenisers and to the built-in stopwords. *)
Theorem failing_backend_falls_back backend text num_sentences target_length :
  always_fails backend ->
  extractive_summarize (Some backend) text num_sentences
  = extractive_summarize None text num_sentences
  /\ simple_abstractive_summarize (Some backend) text target_length
     = simple_abstractive_summarize None text target_length.
Proof.
  intros H. split.
  - unfold extractive_summarize, extractive_body.
    destruct (expect_str text) as [s|e]; [|reflexivity].
    now rewrite failing_tokenize_sentences, failing_summary_sentences.
  - unfold simple_abstractive_summarize, abstractive_body.
    destruct (expect_str text) as [s|e]; [|reflexivity].
    now rewrite failing_tokenize_sentences, failing_scored_sentences.
Qed.

Lemma failing_backend_falls_back_witness :
  extractive_summarize (Some failing_backend) (PyStr repeated_text) 2
  = extractive_summarize None (PyStr repeated_text) 2
  /\ simple_abstractive_summarize (Some failing_backend) (PyStr budget_text) 20
     = simple_abstractive_summarize None (PyStr budget_text) 20.
Proof.
  assert (H : always_fails failing_backend)
    by (split; [|split]; reflexivity).
  split.
  - exact (proj1 (failing_backend_falls_back failing_backend
                    (PyStr repeated_text) 2 20 H)).
  - exact (proj2 (failing_backend_falls_back failing_backend
                    (PyStr budget_text) 2 20 H)).
Defined.

(** ** The size guard of the caller *)

Lemma div_eucl_pair a b : Z.div_eucl a b = (a / b, a mod b).
Proof. unfold Z.div, Z.modulo. now destruct (Z.div_eucl a b). Qed.

(** The quotient of an integer below [2^53] by [2^20], before rounding: the
    integer on 54 digits, with nothing left over. *)
Lemma div_core_mebibyte p :
  let d := Z.pos (digits2_pos p) in
  d <= 53 ->
  SFdiv_core_binary prec emax (Z.pos p) 0 1048576 0
  = (Z.pos p * 2 ^ (54 - d), d - 74, loc_Exact).
Proof.
  intros d Hd. unfold SFdiv_core_binary. cbn [Zdigits2]. fold d.
  change (Z.pos (digits2_pos 1048576)) with 21.
  unfold fexp. change (SpecFloat.emin prec emax) with (-1074).
  change prec with 53.
  assert (H1 : 1 <= d) by (unfold d; lia).
  replace (Z.min (Z.max (d + 0 - (21 + 0) - 53) (-1074)) (0 - 0))
    with (d - 74) by lia.
  replace (0 - 0 - (d - 74)) with (74 - d) by lia.
  destruct (74 - d) as [|k|k] eqn:Ek; [lia| |lia].
  rewrite Z.shiftl_mul_pow2 by lia. rewrite div_eucl_pair.
  assert (E : Z.pos p * 2 ^ Z.pos k = Z.pos p * 2 ^ (54 - d) * 1048576).
  { replace (Z.pos k) with ((54 - d) + 20) by lia.
    rewrite Z.pow_add_r by lia. change (2 ^ 20) with 1048576. ring. }
  rewrite E, Z.div_mul, Z.mod_mul by lia. reflexivity.
Qed.

(** X23: a file is refused as too large exactly when it has more than
    10485760 bytes (10 MiB), for every size below [2^53] bytes: the
    division by [1024 * 1024] and the comparison with [10] lose nothing. *)
Theorem upload_size_limit size :
  0 <= size < 2 ^ 53 ->
  file_too_large size = (10 * 1024 * 1024 <? size).
Proof.
  intros [H0 Hsize]. unfold file_too_large, file_size_mb, int_true_div.
  change (1024 * 1024) with 1048576. change (10 * 1048576) with 10485760.
  destruct size as [|p|p]; [reflexivity| |lia].
  destruct (Z.eq_dec (Z.pos p) 10485760) as [E|Hne].
  { injection E as ->. vm_compute. reflexivity. }
  cbn [int_as_exact SFdiv xorb].
  pose proof (digits2_pos_bounds p) as Bp.
  set (d := Z.pos (digits2_pos p)) in *.
  assert (Hd : 1 <= d <= 53).
  { split; [unfold d; lia|].
    assert (d - 1 < 53) by (apply pow2_lt_inv; lia). lia. }
  rewrite div_core_mebibyte by (fold d; lia). fold d.
  destruct (54 - d) as [|k|k] eqn:Ek; [lia| |lia].
  rewrite <- pos_iter_xO.
  pose proof (digits2_pos_iter_xO p k) as Hdq. fold d in Hdq.
  destruct (binary_round_aux_faithful (Pos.iter xO p k) (d - 74)) as
    (m' & e' & -> & He' & Hv & _); [rewrite Hdq; lia | rewrite Hdq; lia|].
  rewrite Hdq in He', Hv.
  replace (d + Z.pos k - 53) with 1 in He', Hv by lia.
  replace (e' <=? 971) with true by lia.
  assert (Hiff : int_lt_float 10 (S754_finite false m' e') = true
                 <-> 10485760 < Z.pos p).
  { rewrite (int_lt_float_scaled 10 m' e' (d - 74)) by lia.
    rewrite pos_iter_xO in Hv.
    replace (- (d - 74)) with (20 + 1 + (Z.pos k - 1)) by lia.
    replace (Z.pos k) with (1 + (Z.pos k - 1)) in Hv by lia.
    rewrite !Z.pow_add_r in * by lia.
    change (2 ^ 20) with 1048576 in *. change (2 ^ 1) with 2 in *.
    assert (HP : 1 <= 2 ^ (Z.pos k - 1))
      by (change 1 with (2 ^ 0); apply Z.pow_le_mono_r; lia).
    remember (2 ^ (Z.pos k - 1)) as P eqn:EP.
    remember (Z.pos m' * 2 ^ (e' - (d - 74))) as F eqn:EF.
    replace (Z.pos p * (2 * P)) with (Z.pos p * P * 2) in Hv by ring.
    rewrite Z.div_mul in Hv by lia.
    remember (Z.pos p * P) as A eqn:EA.
    destruct (Z.lt_ge_cases 10485760 (Z.pos p)) as [Hgt|Hle].
    - assert (10485760 * P + P <= A).
      { subst A. replace (10485760 * P + P) with ((10485760 + 1) * P) by ring.
        apply Z.mul_le_mono_nonneg_r; lia. }
      split; [intros _; exact Hgt | intros _; lia].
    - assert (A + P <= 10485760 * P).
      { subst A. replace (Z.pos p * P + P) with ((Z.pos p + 1) * P) by ring.
        apply Z.mul_le_mono_nonneg_r; lia. }
      split; [intros Hc; exfalso; lia | intros Hc; lia]. }
  destruct (int_lt_float 10 (S754_finite false m' e')) eqn:E.
  - symmetry. apply Z.ltb_lt. now apply Hiff.
  - symmetry. apply Z.ltb_ge.
    destruct (Z.lt_ge_cases 10485760 (Z.pos p)) as [Hgt|Hle]; [|lia].
    apply Hiff in Hgt. congruence.
Qed.

Lemma upload_size_limit_witness :
  file_too_large 10485761 = true /\ file_too_large 10485760 = false.
Proof.
  split.
  - exact (upload_size_limit 10485761 ltac:(split; [lia | reflexivity])).
  - exact (upload_size_limit 10485760 ltac:(split; [lia | reflexivity])).
Defined.

(** ** The sentences with the highest scores *)

Lemma float_ltb_key x y :
  is_number x -> is_number y ->
  float_ltb x y = true <-> key_lt (float_key x) (float_key y).
Proof.
  unfold is_number, float_ltb, SFltb, key_lt. intros Hx Hy.
  destruct x as [sx|sx| |sx mx ex]; [| |congruence|];
    (destruct y as [sy|sy| |sy my ey]; [| |congruence|]);
    try destruct sx; try destruct sy; cbn [SFcompare float_key fst snd];
    try (split; [discriminate | lia]);
    try (split; [intros _; lia | reflexivity]).
  - destruct (Z.compare_spec ex ey) as [E|E|E]; cbn [CompOpp].
    + fold (Pos.compare mx my).
      destruct (Pos.compare_spec mx my) as [F|F|F]; cbn [CompOpp];
        (split; [try discriminate; intros _; lia | try reflexivity; lia]).
    + split; [discriminate | lia].
    + split; [intros _; lia | reflexivity].
  - destruct (Z.compare_spec ex ey) as [E|E|E].
    + fold (Pos.compare mx my).
      destruct (Pos.compare_spec mx my) as [F|F|F];
        (split; [try discriminate; intros _; lia | try reflexivity; lia]).
    + split; [intros _; lia | reflexivity].
    + split; [discriminate | lia].
Qed.

Lemma float_ltb_asym x y :
  is_number x -> is_number y ->
  float_ltb x y = true -> float_ltb y x = false.
Proof.
  intros Hx Hy H. apply float_ltb_key in H; [|assumption..].
  destruct (float_ltb y x) eqn:E; [|reflexivity].
  apply float_ltb_key in E; [|assumption..].
  unfold key_lt in *. lia.
Qed.

Lemma float_ltb_negtrans x y z :
  is_number x -> is_number y -> is_number z ->
  float_ltb x y = false -> float_ltb y z = false -> float_ltb x z = false.
Proof.
  intros Hx Hy Hz H1 H2.
  destruct (float_ltb x z) eqn:E; [|reflexivity].
  apply float_ltb_key in E; [|assumption..].
  assert (N1 : ~ key_lt (float_key x) (float_key y)).
  { intros H. apply float_ltb_key in H; [congruence|assumption..]. }
  assert (N2 : ~ key_lt (float_key y) (float_key z)).
  { intros H. apply float_ltb_key in H; [congruence|assumption..]. }
  unfold key_lt in *. lia.
Qed.

Lemma shr_fexp_nonneg m e l :
  0 <= m -> 0 <= shr_m (shr_fexp prec emax m e l).1.
Proof.
  intros Hm. unfold shr_fexp, shr.
  assert (H0 : shr_m (shr_record_of_loc m l) = m)
    by (destruct l as [|[]]; reflexivity).
  destruct (fexp prec emax (Zdigits2 m + e) - e) as [|p|p]; simpl;
    try (rewrite H0; exact Hm).
  rewrite iter_pos_shr_1 by (rewrite H0; exact Hm). rewrite H0.
  apply Z.div_pos; [exact Hm | apply Z.pow_pos_nonneg; lia].
Qed.

Lemma binary_round_aux_number sx mx ex lx :
  0 <= mx -> is_number (binary_round_aux prec emax sx mx ex lx).
Proof.
  intros Hm. unfold is_number, binary_round_aux.
  pose proof (shr_fexp_nonneg mx ex lx Hm) as H1.
  destruct (shr_fexp prec emax mx ex lx) as [mrs' e'] eqn:E1. simpl in H1.
  pose proof (round_nearest_even_bounds (shr_m mrs') (loc_of_shr_record mrs'))
    as Hr.
  pose proof (shr_fexp_nonneg
                (round_nearest_even (shr_m mrs') (loc_of_shr_record mrs'))
                e' loc_Exact ltac:(lia)) as H2.
  destruct (shr_fexp prec emax _ e' loc_Exact) as [mrs'' e''] eqn:E2.
  simpl in H2. destruct (shr_m mrs'') as [|m|m]; [discriminate| |lia].
  destruct (e'' <=? emax - prec); discriminate.
Qed.

Lemma int_true_div_number a b : 0 < b -> is_number (int_true_div a b).
Proof.
  intros Hb. unfold int_true_div. destruct b as [|q|q]; [lia| |lia].
  destruct a as [|p|p]; cbn [int_as_exact SFdiv]; [discriminate| |].
  - unfold SFdiv_core_binary.
    destruct (Z.div_eucl _ (Z.pos q)) as [qu r] eqn:E.
    apply binary_round_aux_number.
    rewrite div_eucl_pair in E. injection E as <- _.
    apply Z.div_pos; [|lia].
    destruct (_ - _ - _); [lia | apply Z.shiftl_nonneg; lia | lia].
  - unfold SFdiv_core_binary.
    destruct (Z.div_eucl _ (Z.pos q)) as [qu r] eqn:E.
    apply binary_round_aux_number.
    rewrite div_eucl_pair in E. injection E as <- _.
    apply Z.div_pos; [|lia].
    destruct (_ - _ - _); [lia | apply Z.shiftl_nonneg; lia | lia].
Qed.

Lemma fmul_bonus_number x i n :
  is_number x -> is_number (fmul x (position_bonus i n)).
Proof.
  intros Hx. unfold position_bonus.
  assert (G : forall m e, is_number (fmul x (S754_finite false m e))).
  { intros m e. unfold fmul. destruct x as [sx|sx| |sx mx ex];
      cbn [SFmul]; try discriminate; [contradiction|].
    apply binary_round_aux_number. lia. }
  destruct (int_lt_float i _); [apply G|].
  destruct (float_lt_int _ i); apply G.
Qed.

Lemma score_sentences_numbers nltk word_freq n sentences i scores :
  Forall (fun x : str * float => is_number x.2) scores ->
  Forall (fun x : str * float => is_number x.2)
    (score_sentences nltk word_freq n i sentences scores).
Proof.
  revert i scores. induction sentences as [|s rest IH]; intros i scores Hs;
    [exact Hs|].
  cbn [score_sentences].
  destruct (score_words word_freq (tokenize_words nltk s)) as [sc wc].
  apply IH. destruct (0 <? wc) eqn:E; [|exact Hs].
  assert (Hv : is_number (fmul (int_true_div sc wc) (position_bonus i n))).
  { apply fmul_bonus_number, int_true_div_number. lia. }
  clear IH. induction Hs as [|[k v] d Hk Hd IHd]; simpl.
  - constructor; [exact Hv | constructor].
  - destruct (decide (k = s)); constructor; auto.
Qed.

(** X24: the sentences that the extractive summariser selects are those
    with the highest scores: no sentence that has a score and is left out
    has a score above that of a selected one. *)
Theorem top_sentences_highest nltk sentences num_sentences s t a b :
  let sentence_scores := sentence_scores_of nltk sentences in
  let top := top_sentences num_sentences sentence_scores in
  s ∈ top -> t ∉ top ->
  dict_get sentence_scores s = Some a ->
  dict_get sentence_scores t = Some b ->
  float_ltb a b = false.
Proof.
  intros scores top Hs Ht Ha Hb. unfold top, top_sentences, nlargest in *.
  set (lt := fun x y : str * float => float_ltb x.2 y.2) in *.
  set (sorted := sorted_desc lt scores) in *.
  pose proof (sorted_desc_Permutation lt scores) as Hp. fold sorted in Hp.
  pose proof (sentence_scores_NoDup nltk sentences) as Hnd. fold scores in Hnd.
  assert (Hnum : Forall (fun x : str * float => is_number x.2) scores).
  { apply score_sentences_numbers. constructor. }
  assert (Hdesc : descending lt sorted).
  { apply (sorted_desc_descending lt (fun x => is_number x.2));
      [| |exact Hnum]; unfold lt.
    - intros x y. apply float_ltb_asym.
    - intros x y z. apply float_ltb_negtrans. }
  unfold dict_keys in Hs, Ht.
  apply list_elem_of_fmap in Hs as ([s' a'] & -> & Hin). simpl in Ha.
  assert (Hc : (s', a') ∈ scores).
  { rewrite <- Hp. eapply elem_of_sublist; [exact Hin | apply sublist_take]. }
  apply (dict_get_elem _ _ _ Hnd) in Hc. rewrite Hc in Ha. injection Ha as ->.
  assert (Hd : (t, b) ∈ sorted).
  { rewrite Hp. now apply dict_get_Some_elem. }
  rewrite <- (take_drop (Z.to_nat num_sentences) sorted) in Hd.
  apply elem_of_app in Hd as [Hd|Hd].
  { exfalso. apply Ht. apply list_elem_of_fmap. exists (t, b). auto. }
  exact (descending_take_drop lt _ sorted _ _ Hdesc Hin Hd).
Qed.

Lemma top_sentences_highest_witness :
  float_ltb (fmul (int_true_div 12 4) py_1_0) (fmul (int_true_div 7 4) py_1_1)
  = false.
Proof.
  apply (top_sentences_highest None
           (tokenize_sentences None (clean_text repeated_text)) 2
           (py "Cats chase mice daily.") (py "Birds sing songs daily.")).
  - apply list_elem_of_In. vm_compute. right. left. reflexivity.
  - intros H. apply list_elem_of_In in H. vm_compute in H.
    destruct H as [H|[H|[]]]; discriminate H.
  - vm_compute. reflexivity.
  - vm_compute. reflexivity.
Defined.

(** ** The order of the candidates *)

Lemma ord_inj c d : ord c = ord d -> c = d.
Proof.
  unfold ord. intros H. apply N2Z.inj in H.
  rewrite <- (ascii_N_embedding c), <- (ascii_N_embedding d). now rewrite H.
Qed.

Lemma str_ltb_irrefl s : str_ltb s s = false.
Proof.
  induction s as [|c s IH]; simpl; [reflexivity|].
  now rewrite Z.ltb_irrefl.
Qed.

Lemma str_ltb_trans s t u :
  str_ltb s t = true -> str_ltb t u = true -> str_ltb s u = true.
Proof.
  revert t u. induction s as [|c s IH]; intros [|d t] [|e u]; simpl;
    try discriminate; try reflexivity.
  destruct (ord c <? ord d) eqn:E1, (ord d <? ord c) eqn:E2,
           (ord d <? ord e) eqn:E3, (ord e <? ord d) eqn:E4,
           (ord c <? ord e) eqn:E5, (ord e <? ord c) eqn:E6;
    try discriminate; try reflexivity; try lia.
  apply IH.
Qed.

Lemma str_ltb_total s t : str_ltb s t = true \/ s = t \/ str_ltb t s = true.
Proof.
  revert t. induction s as [|c s IH]; intros [|d t]; simpl; auto.
  destruct (ord c <? ord d) eqn:E1; [now left|].
  destruct (ord d <? ord c) eqn:E2; [now right; right|].
  assert (c = d) by (apply ord_inj; lia). subst d.
  destruct (IH t) as [H|[->|H]]; auto.
Qed.

Lemma float_eqb_key x y :
  is_number x -> is_number y ->
  float_eqb x y = true
  <-> ((float_key x).1.1 = (float_key y).1.1
       /\ (float_key x).1.2 = (float_key y).1.2
       /\ (float_key x).2 = (float_key y).2).
Proof.
  unfold is_number, float_eqb, SFeqb. intros Hx Hy.
  destruct x as [sx|sx| |sx mx ex]; [| |congruence|];
    (destruct y as [sy|sy| |sy my ey]; [| |congruence|]);
    try destruct sx; try destruct sy; cbn [SFcompare float_key fst snd];
    try (split; [discriminate | lia]);
    try (split; [intros _; lia | reflexivity]).
  - destruct (Z.compare_spec ex ey) as [E|E|E]; cbn [CompOpp];
      try (split; [discriminate | lia]).
    fold (Pos.compare mx my).
    destruct (Pos.compare_spec mx my) as [F|F|F]; cbn [CompOpp];
      (split; [try discriminate; intros _; lia | try reflexivity; lia]).
  - destruct (Z.compare_spec ex ey) as [E|E|E];
      try (split; [discriminate | lia]).
    fold (Pos.compare mx my).
    destruct (Pos.compare_spec mx my) as [F|F|F];
      (split; [try discriminate; intros _; lia | try reflexivity; lia]).
Qed.

(** The order of the tuples, component by component. *)
Lemma tuple_ltb_spec sx tx lx sy ty ly :
  is_number sx -> is_number sy ->
  tuple_ltb (sx, tx, lx) (sy, ty, ly) = true
  <-> key_lt (float_key sx) (float_key sy)
      \/ (((float_key sx).1.1 = (float_key sy).1.1
           /\ (float_key sx).1.2 = (float_key sy).1.2
           /\ (float_key sx).2 = (float_key sy).2)
          /\ (str_ltb tx ty = true \/ (tx = ty /\ lx < ly))).
Proof.
  intros Hx Hy. unfold tuple_ltb.
  pose proof (float_eqb_key sx sy Hx Hy) as He.
  pose proof (float_ltb_key sx sy Hx Hy) as Hl.
  destruct (float_eqb sx sy); cbn [negb].
  - assert (Hk := proj1 He eq_refl).
    destruct (bool_decide_reflect (tx = ty)) as [->|Hne]; cbn [negb].
    + rewrite Z.ltb_lt, str_ltb_irrefl. unfold key_lt. split.
      * intros H. right. split; [exact Hk|]. right. auto.
      * intros [H|[_ [H|[_ H]]]]; [lia | discriminate | exact H].
    + unfold key_lt. split.
      * intros H. right. split; [exact Hk|]. now left.
      * intros [H|[_ [H|[H _]]]]; [lia | exact H | contradiction].
  - rewrite Hl. split; [now left|].
    intros [H|[H _]]; [exact H|]. apply He in H. discriminate.
Qed.

Lemma tuple_ltb_asym x y :
  is_number x.1.1 -> is_number y.1.1 ->
  tuple_ltb x y = true -> tuple_ltb y x = false.
Proof.
  destruct x as [[sx tx] lx], y as [[sy ty] ly]. cbn [fst snd]. intros Hx Hy H.
  apply tuple_ltb_spec in H; [|assumption..].
  destruct (tuple_ltb (sy, ty, ly) (sx, tx, lx)) eqn:E; [|reflexivity].
  apply tuple_ltb_spec in E; [|assumption..]. exfalso.
  unfold key_lt in *.
  destruct H as [H|[Hk [H|[-> H]]]]; destruct E as [E|[Ek [E|[E1 E]]]];
    try lia.
  - pose proof (str_ltb_trans _ _ _ H E) as F.
    rewrite str_ltb_irrefl in F. discriminate.
  - subst. rewrite str_ltb_irrefl in H. discriminate.
  - rewrite str_ltb_irrefl in E. discriminate.
Qed.

Lemma tuple_ltb_negtrans x y z :
  is_number x.1.1 -> is_number y.1.1 -> is_number z.1.1 ->
  tuple_ltb x y = false -> tuple_ltb y z = false -> tuple_ltb x z = false.
Proof.
  destruct x as [[sx tx] lx], y as [[sy ty] ly], z as [[sz tz] lz].
  cbn [fst snd].
  intros Hx Hy Hz H1 H2.
  destruct (tuple_ltb (sx, tx, lx) (sz, tz, lz)) eqn:E; [|reflexivity].
  apply tuple_ltb_spec in E; [|assumption..]. exfalso.
  assert (N1 : ~ tuple_ltb (sx, tx, lx) (sy, ty, ly) = true) by congruence.
  assert (N2 : ~ tuple_ltb (sy, ty, ly) (sz, tz, lz) = true) by congruence.
  rewrite tuple_ltb_spec in N1, N2 by assumption.
  unfold key_lt in *.
  destruct (str_ltb_total tx ty) as [T1|[T1|T1]];
    destruct (str_ltb_total ty tz) as [T2|[T2|T2]];
    try (apply N1; lia); try (apply N2; lia);
    try (apply N1; right; split; [lia|]; left; exact T1);
    try (apply N2; right; split; [lia|]; left; exact T2).
  - subst. destruct E as [E|[Ek [E|[_ E]]]]; [apply N1; lia| |].
    + rewrite str_ltb_irrefl in E. discriminate.
    + destruct (Z.lt_ge_cases lx ly); [apply N1|apply N2]; right;
        (split; [lia|]); right; split; auto; lia.
  - subst. destruct E as [E|[Ek [E|[E1 E]]]].
    + destruct N1. lia.
    + pose proof (str_ltb_trans _ _ _ E T2) as F.
      rewrite str_ltb_irrefl in F. discriminate.
    + subst. rewrite str_ltb_irrefl in T2. discriminate.
  - subst. destruct E as [E|[Ek [E|[E1 E]]]].
    + destruct N1. lia.
    + pose proof (str_ltb_trans _ _ _ E T1) as F.
      rewrite str_ltb_irrefl in F. discriminate.
    + subst. rewrite str_ltb_irrefl in T1. discriminate.
  - destruct E as [E|[Ek [E|[E1 E]]]].
    + destruct N1. lia.
    + pose proof (str_ltb_trans _ _ _ (str_ltb_trans _ _ _ T2 T1) E) as F.
      rewrite str_ltb_irrefl in F. discriminate.
    + subst. pose proof (str_ltb_trans _ _ _ T2 T1) as F.
      rewrite str_ltb_irrefl in F. discriminate.
Qed.

Lemma descending_weaken {A} (lt lt' : A -> A -> bool) (P : A -> Prop) l :
  (forall x y, P x -> P y -> lt x y = false -> lt' x y = false) ->
  Forall P l -> descending lt l -> descending lt' l.
Proof.
  intros Himp. induction 1 as [|x r Hx Hr IH]; simpl; [auto|].
  intros [Hall Hd]. split; [|now apply IH].
  rewrite Forall_forall in *. intros y Hy. apply Himp; auto.
Qed.

Lemma scored_sentences_numbers nltk text sentences :
  Forall (fun x : float * str * Z => is_number x.1.1)
    (scored_sentences_of nltk text sentences).
Proof.
  unfold scored_sentences_of. apply sorted_desc_Forall.
  induction sentences as [|s rest IH]; simpl; [constructor|].
  apply Forall_app. split; [|exact IH].
  unfold score_candidate.
  destruct (5 <=? len (split s)) eqn:E1; simpl; [|constructor].
  destruct (len (split s) <=? 50); simpl; [|constructor].
  destruct (0 <? _); simpl; constructor; [|constructor].
  simpl. apply int_true_div_number. lia.
Qed.

(** X25: the candidates of the budgeted summariser are tried in falling
    order: no candidate is below one that comes after it, as tuples
    (score, sentence, length) and so also by score alone. *)
Theorem candidates_in_falling_order nltk text sentences :
  let scored := scored_sentences_of nltk text sentences in
  descending tuple_ltb scored
  /\ descending (fun x y : float * str * Z => float_ltb x.1.1 y.1.1) scored.
Proof.
  intros scored.
  pose proof (scored_sentences_numbers nltk text sentences) as Hnum.
  fold scored in Hnum.
  assert (Hd : descending tuple_ltb scored).
  { unfold scored, scored_sentences_of.
    apply (sorted_desc_descending tuple_ltb
             (fun x : float * str * Z => is_number x.1.1)).
    - apply tuple_ltb_asym.
    - apply tuple_ltb_negtrans.
    - unfold scored, scored_sentences_of in Hnum.
      eapply Forall_forall. intros x Hx. rewrite Forall_forall in Hnum.
      apply Hnum. rewrite sorted_desc_Permutation. exact Hx. }
  split; [exact Hd|].
  apply (descending_weaken tuple_ltb _
           (fun x : float * str * Z => is_number x.1.1) scored);
    [|exact Hnum | exact Hd].
  intros [[sx tx] lx] [[sy ty] ly] Hx Hy H. cbn [fst snd] in *.
  destruct (float_ltb sx sy) eqn:E; [|reflexivity].
  apply float_ltb_key in E; [|assumption..].
  assert (T : tuple_ltb (sx, tx, lx) (sy, ty, ly) = true)
    by (apply tuple_ltb_spec; auto).
  congruence.
Qed.

(** ** The position windows against the exact thresholds (C3) *)

(** The two tests of the code against the exact thresholds, for fewer than
    [2^49] sentences: the first test is [10 i < 3 n]; the second holds above
    [7 n / 10], fails below, and may go either way at [10 i = 7 n]. *)
Lemma windows_exact i n :
  0 <= n < 2 ^ 49 ->
  (in_first_30 i n = true <-> 10 * i < 3 * n)
  /\ (7 * n < 10 * i -> in_last_30 i n = true)
  /\ (in_last_30 i n = true -> 7 * n <= 10 * i).
Proof.
  intros [Hn0 Hn]. unfold in_first_30, in_last_30, nearest_mul_float.
  destruct (Z.eq_dec n 0) as [->|Hne].
  - change (nearest_float 0) with (S754_zero false).
    unfold fmul, py_0_3, py_0_7. cbn [SFmul xorb int_lt_float float_lt_int].
    rewrite !Z.ltb_lt. lia.
  - destruct (nearest_float_exact n) as (m & e & -> & Hd & He & Hm & Hlo).
    { split; [lia|]. eapply Z.lt_trans; [exact Hn | reflexivity]. }
    assert (He4 : e <= -4).
    { assert (52 + e < 49); [|lia]. apply pow2_lt_inv; lia. }
    split; [exact (first_window_finite i n m e Hd ltac:(lia) Hm)|].
    exact (last_window_finite i n m e Hd ltac:(lia) Hm).
Qed.

(** C3, as stated, fails.  With 90 sentences the index 63 is not above 70%
    of 90, so that the multiplier of the specification is 1.0, but
    [90 * 0.7] is a binary64 below 63 and the code gives 1.1.  Nor is the
    last window the last 30% of the indices: of 10 sentences the index 7 is
    one of the last three and has the multiplier 1.0. *)
Lemma position_bonus_not_cumulative :
  position_bonus 63 90 = py_1_1
  /\ cumulative_bonus 63 90 = py_1_0
  /\ position_bonus 7 10 = py_1_0
  /\ cumulative_bonus_from_70 7 10 = py_1_1
  /\ ~ bonus_is_cumulative.
Proof.
  split; [reflexivity|]. split; [reflexivity|]. split; [reflexivity|].
  split; [reflexivity|].
  intros H. specialize (H (replicate 90 []) 63). vm_compute in H.
  discriminate H.
Qed.

(** C3, amended.  The code is an [if]/[elif] and its two windows never
    overlap, on the exact thresholds as in binary64: the multiplier is one
    of 1.2, 1.1 and 1.0, never the product of the two bonuses, whatever the
    number of sentences.  For fewer than [2^49] sentences it is 1.2 below
    30% of the number of sentences, 1.0 from 30% to below 70%, 1.1 above
    70%, and 1.0 or 1.1 at exactly 70%, as the rounding of
    [len(sentences) * 0.7] falls. *)
Theorem position_bonus_windows (sentences : list str) (i : Z) :
  let n := len sentences in
  (in_first_30 i n && in_last_30 i n = false
   /\ ~ (10 * i < 3 * n /\ 7 * n < 10 * i)
   /\ (position_bonus i n = py_1_2 \/ position_bonus i n = py_1_1
       \/ position_bonus i n = py_1_0)
   /\ position_bonus i n <> fmul py_1_2 py_1_1)
  /\ (n < 2 ^ 49 ->
      (10 * i < 3 * n -> position_bonus i n = py_1_2)
      /\ (3 * n <= 10 * i < 7 * n -> position_bonus i n = py_1_0)
      /\ (7 * n < 10 * i -> position_bonus i n = py_1_1)
      /\ (10 * i = 7 * n ->
          position_bonus i n = py_1_0 \/ position_bonus i n = py_1_1)).
Proof.
  intros n. assert (Hn0 : 0 <= n) by (unfold n, len; lia).
  pose proof (windows_disjoint i n Hn0) as Hdis.
  split.
  - split; [exact Hdis|]. split; [lia|].
    unfold position_bonus.
    fold (in_first_30 i n). fold (in_last_30 i n).
    destruct (in_first_30 i n), (in_last_30 i n);
      (split; [auto | discriminate]).
  - intros Hn.
    destruct (windows_exact i n (conj Hn0 Hn)) as (H3 & H7a & H7b).
    unfold position_bonus.
    fold (in_first_30 i n). fold (in_last_30 i n).
    destruct (in_first_30 i n) eqn:E3, (in_last_30 i n) eqn:E7;
      try discriminate Hdis.
    + assert (10 * i < 3 * n) by (now apply H3).
      repeat split; try reflexivity; try lia.
    + assert (7 * n <= 10 * i) by (now apply H7b).
      assert (~ 10 * i < 3 * n) by (intros Hlt; apply H3 in Hlt; discriminate).
      repeat split; try reflexivity; try lia.
      intros Heq. now right.
    + assert (~ 10 * i < 3 * n) by (intros Hlt; apply H3 in Hlt; discriminate).
      assert (~ 7 * n < 10 * i) by (intros Hgt; apply H7a in Hgt; discriminate).
      repeat split; try reflexivity; try lia.
      intros Heq. now left.
Qed.

Lemma position_bonus_windows_witness :
  let sentences := replicate 90 (@nil ascii) in
  position_bonus 26 (len sentences) = py_1_2
  /\ position_bonus 27 (len sentences) = py_1_0
  /\ position_bonus 64 (len sentences) = py_1_1
  /\ position_bonus 63 (len sentences) <> fmul py_1_2 py_1_1.
Proof.
  intros sentences.
  assert (Hn : len sentences < 2 ^ 49) by (vm_compute; reflexivity).
  split; [|split; [|split]].
  - apply (proj2 (position_bonus_windows sentences 26) Hn).
    vm_compute. reflexivity.
  - apply (proj2 (position_bonus_windows sentences 27) Hn).
    split; vm_compute; [discriminate | reflexivity].
  - apply (proj2 (position_bonus_windows sentences 64) Hn).
    vm_compute. reflexivity.
  - apply (position_bonus_windows sentences 63).
Defined.

(** ** Soft failure (C7) *)

(** C7: each summariser is a total function into strings, and whatever is
    raised in its body comes back as "Error during summarization: "
    followed by the description of the failure.  The failures are these: a
    [text] that is no string, for which [re.sub] raises a type error in
    either summariser; and, in the budgeted summariser, a [target_length]
    without a finite binary64, for which the product [target_length * 0.8]
    raises an overflow error once a candidate overflows the target, as the
    first candidate does when the target is [-2^1024] or less. *)
Theorem soft_fail_contract nltk text num_sentences target_length :
  match extractive_body nltk text num_sentences with
  | Raise e =>
      extractive_summarize nltk text num_sentences = error_prefix ++ exn_str e
      /\ text = PyNone
      /\ e = TypeError
               (py "expected string or bytes-like object, got 'NoneType'")
  | Return summary =>
      extractive_summarize nltk text num_sentences = summary
      /\ exists s, text = PyStr s
  end
  /\ match abstractive_body nltk text target_length with
     | Raise e =>
         simple_abstractive_summarize nltk text target_length
         = error_prefix ++ exn_str e
         /\ ((text = PyNone
              /\ e = TypeError
                       (py "expected string or bytes-like object, got 'NoneType'"))
             \/ (exists s,
                   text = PyStr s
                   /\ target_length < len (split (clean_text s))
                   /\ scored_sentences_of nltk (clean_text s)
                        (tokenize_sentences nltk (clean_text s)) <> []
                   /\ has_float target_length = false
                   /\ 2 ^ 1023 <= Z.abs target_length
                   /\ e = OverflowError
                            (py "int too large to convert to float")))
     | Return summary =>
         simple_abstractive_summarize nltk text target_length = summary
         /\ exists s, text = PyStr s
     end
  /\ (forall s,
        text = PyStr s ->
        target_length <= - 2 ^ 1024 ->
        scored_sentences_of nltk (clean_text s)
          (tokenize_sentences nltk (clean_text s)) <> [] ->
        simple_abstractive_summarize nltk text target_length = overflow_text).
Proof.
  split; [|split].
  - unfold extractive_summarize, extractive_body.
    destruct text as [s|]; cbn [expect_str soft_fail].
    + split; [reflexivity | eauto].
    + auto.
  - unfold simple_abstractive_summarize, abstractive_body.
    destruct text as [s|]; cbn [expect_str soft_fail]; [|auto].
    destruct (len (split (clean_text s)) <=? target_length) eqn:E;
      [split; [reflexivity | eauto]|].
    set (scored := scored_sentences_of nltk (clean_text s)
                     (tokenize_sentences nltk (clean_text s))).
    pose proof (accumulate_parts target_length scored [] 0
                  (scored_sentences_counted _ _ _) eq_refl) as Hacc.
    destruct (accumulate target_length scored [] 0) as [parts|e] eqn:Eacc;
      [split; [reflexivity | eauto]|].
    destruct Hacc as [Hf ->]. split; [reflexivity|]. right. exists s.
    split; [reflexivity|]. split; [lia|]. split.
    { intros Hnil. unfold scored in Eacc. rewrite Hnil in Eacc.
      discriminate Eacc. }
    split; [exact Hf|]. split; [|reflexivity].
    destruct (Z.lt_ge_cases (Z.abs target_length) (2 ^ 1023)) as [Hin|];
      [|assumption].
    apply (proj1 (has_float_spec target_length)) in Hin. congruence.
  - intros s -> Ht Hsc.
    unfold simple_abstractive_summarize, abstractive_body.
    cbn [expect_str].
    assert (Hpow : 0 < 2 ^ 1024) by (apply Z.pow_pos_nonneg; lia).
    assert (Hlen : 0 <= len (split (clean_text s))) by (unfold len; lia).
    destruct (len (split (clean_text s)) <=? target_length) eqn:E; [lia|].
    rewrite accumulate_nothing; [| |lia].
    + destruct (scored_sentences_of nltk (clean_text s) _) as [|x l];
        [congruence|].
      rewrite (proj2 (has_float_spec target_length)) by lia. reflexivity.
    + eapply Forall_impl; [apply scored_sentences_candidates|].
      intros x (_ & _ & H). simpl. lia.
Qed.

Lemma soft_fail_contract_witness :
  extractive_summarize None PyNone 5
  = py "Error during summarization: expected string or bytes-like object, got 'NoneType'"
  /\ simple_abstractive_summarize None PyNone 200
     = py "Error during summarization: expected string or bytes-like object, got 'NoneType'"
  /\ simple_abstractive_summarize None (PyStr budget_text) (- 2 ^ 1024)
     = overflow_text.
Proof.
  split; [|split].
  - exact (proj1 (proj1 (soft_fail_contract None PyNone 5 200))).
  - exact (proj1 (proj1 (proj2 (soft_fail_contract None PyNone 5 200)))).
  - pose proof (soft_fail_contract None (PyStr budget_text) 5 (- 2 ^ 1024))
      as H.
    destruct H as (_ & _ & H). specialize (H budget_text eq_refl).
    apply H.
    + apply Z.le_refl.
    + vm_compute. discriminate.
Defined.
